(** * dailyspend: the derived-budget computation and the exchange-rate cache

    A shallow embedding of the core of the dailyspend single-page app:

    - the [useMemo] block of [App] in [src/App.jsx] that derives the
      per-day budget from the React state (called [compute] here, as in
      the specification);
    - [maybeFetchRate] of [src/App.jsx], the policy that decides when the
      exchange rate is fetched again;
    - [listCurrencies], [getRate] and [formatMoney] of [lib/fx.js].

    Conventions of the embedding.

    - A JavaScript Number is a [number]: [NaN], the two infinities, or a
      finite binary64 value carried as the rational it denotes.  Every
      arithmetic operation computes the exact result and rounds it to the
      nearest binary64 value, ties to even, as IEEE 754 and ECMAScript
      prescribe, with overflow to an infinity and gradual underflow.
      Negative zero is identified with zero.
    - A JavaScript string is a [string] of ASCII characters.
    - [null]/[undefined] is [None].
    - What the code reads from its surroundings (the clock, the local time
      zone, [navigator.language], [Intl.NumberFormat], the network) is a
      field of an explicit environment or world record. *)

From Stdlib Require Import ZArith QArith Qround Qabs Qpower Qreduction.
From Stdlib Require Import String Ascii List Bool Lia Lqa.
From Stdlib Require Import DecimalString Sorted Permutation.
Import ListNotations.

Local Open Scope Z_scope.

(** ** JavaScript numbers *)

Module JS.

Inductive number : Type :=
| NaN
| PInf
| NInf
| Fin (q : Q).

Definition of_Z (z : Z) : number := Fin (inject_Z z).

Definition Qsgn (q : Q) : Z := Z.sgn (Qnum q).

(** [ToBoolean]: zero and NaN are falsy. *)
Definition truthy (n : number) : bool :=
  match n with
  | NaN => false
  | Fin q => negb (Qnum q =? 0)
  | _ => true
  end.

Definition isNaN (n : number) : bool :=
  match n with NaN => true | _ => false end.

(** Relational operators; every comparison with NaN is false. *)
Definition ltb (a b : number) : bool :=
  match a, b with
  | NaN, _ | _, NaN => false
  | _, NInf => false
  | NInf, _ => true
  | PInf, _ => false
  | _, PInf => true
  | Fin x, Fin y => match Qcompare x y with Lt => true | _ => false end
  end.

Definition leb (a b : number) : bool :=
  match a, b with
  | NaN, _ | _, NaN => false
  | NInf, _ => true
  | _, NInf => false
  | _, PInf => true
  | PInf, _ => false
  | Fin x, Fin y => Qle_bool x y
  end.

Definition gtb (a b : number) : bool := ltb b a.
Definition geb (a b : number) : bool := leb b a.

Definition inf_of_sign (s : Z) : number :=
  if s <? 0 then NInf else PInf.

Definition neg (a : number) : number :=
  match a with
  | NaN => NaN
  | PInf => NInf
  | NInf => PInf
  | Fin q => Fin (Qopp q)
  end.

(** *** Rounding to binary64

    A finite binary64 value is [m * 2^e] for whole numbers [m] and [e] with
    [|m| < 2^53] and [-1074 <= e <= 971].  [binary64 q] is the value of
    that form nearest to [q], the one with the even [m] when two are
    equally near; a result of magnitude [2^1024] or more is an infinity. *)

Definition pow2 (e : Z) : Q := Qpower 2 e.

(** The whole number [k] with [2^k <= q < 2^(k+1)], for [q] above 0. *)
Definition ilog2 (q : Q) : Z :=
  let k := Z.log2 (Qnum q) - Z.log2 (Zpos (Qden q)) in
  if Qle_bool (pow2 k) q then k else k - 1.

(** The nearest whole number, the even one on a tie. *)
Definition round_half_even (x : Q) : Z :=
  let f := Qfloor x in
  match Qcompare (x - inject_Z f) (1 # 2) with
  | Lt => f
  | Gt => f + 1
  | Eq => if Z.even f then f else f + 1
  end.

(** The exponent of the binary64 values around a magnitude [a]: 53
    significant bits, and never below the exponent of the subnormals. *)
Definition exponent (a : Q) : Z := Z.max (ilog2 a - 52) (-1074).

Definition significand (a : Q) : Z := round_half_even (a / pow2 (exponent a)).

(** The magnitude [a] rounded to 53 significant bits. *)
Definition nearest (a : Q) : Q := inject_Z (significand a) * pow2 (exponent a).

Definition binary64 (q : Q) : number :=
  if Qnum q =? 0 then Fin 0
  else
    let v := nearest (Qabs q) in
    if Qle_bool (pow2 1024) v then inf_of_sign (Qsgn q)
    else Fin (Qred (if Qnum q <? 0 then - v else v)).

Definition sub (a b : number) : number :=
  match a, b with
  | NaN, _ | _, NaN => NaN
  | PInf, PInf | NInf, NInf => NaN
  | PInf, _ | _, NInf => PInf
  | NInf, _ | _, PInf => NInf
  | Fin x, Fin y => binary64 (x - y)
  end.

Definition sgn (a : number) : Z :=
  match a with
  | NaN => 0
  | PInf => 1
  | NInf => -1
  | Fin q => Qsgn q
  end.

Definition mul (a b : number) : number :=
  match a, b with
  | NaN, _ | _, NaN => NaN
  | Fin x, Fin y => binary64 (x * y)
  | _, _ => if sgn a * sgn b =? 0 then NaN else inf_of_sign (sgn a * sgn b)
  end.

Definition div (a b : number) : number :=
  match a, b with
  | NaN, _ | _, NaN => NaN
  | Fin x, Fin y =>
      if Qnum y =? 0
      then (if Qnum x =? 0 then NaN else inf_of_sign (Qsgn x))
      else binary64 (x / y)
  | Fin _, _ => Fin 0
  | _, Fin y => inf_of_sign (sgn a * (if Qnum y <? 0 then -1 else 1))
  | _, _ => NaN
  end.

Definition Math_floor (a : number) : number :=
  match a with
  | Fin q => of_Z (Qfloor q)
  | _ => a
  end.

Definition Math_ceil (a : number) : number :=
  match a with
  | Fin q => of_Z (Qceiling q)
  | _ => a
  end.

(** *** Strings *)

Local Open Scope string_scope.
Local Open Scope Z_scope.

Definition code (c : ascii) : Z := Z.of_nat (nat_of_ascii c).

(** [s.replace(/,/g, '')] *)
Fixpoint remove_commas (s : string) : string :=
  match s with
  | EmptyString => EmptyString
  | String c r =>
      if code c =? 44 then remove_commas r else String c (remove_commas r)
  end.

Definition is_empty (s : string) : bool :=
  match s with EmptyString => true | _ => false end.

(** The ASCII members of [StrWhiteSpaceChar]: TAB, LF, VT, FF, CR, SP. *)
Definition is_space (c : ascii) : bool :=
  let n := code c in ((9 <=? n) && (n <=? 13)) || (n =? 32).

Fixpoint trim_start (s : string) : string :=
  match s with
  | String c r => if is_space c then trim_start r else s
  | EmptyString => s
  end.

Fixpoint rev_string (acc s : string) : string :=
  match s with
  | EmptyString => acc
  | String c r => rev_string (String c acc) r
  end.

Definition trim (s : string) : string :=
  rev_string "" (trim_start (rev_string "" (trim_start s))).

Definition digit_in (base : Z) (c : ascii) : option Z :=
  let n := code c in
  let d := if (48 <=? n) && (n <=? 57) then n - 48
           else if (97 <=? n) && (n <=? 102) then n - 87
           else if (65 <=? n) && (n <=? 70) then n - 55
           else 99 in
  if d <? base then Some d else None.

(** Reads the longest prefix of digits of [base]: its value, the number of
    digits read, and what follows. *)
Fixpoint read_digits (base : Z) (s : string) (acc : Z) (cnt : nat)
  : Z * nat * string :=
  match s with
  | String c r =>
      match digit_in base c with
      | Some d => read_digits base r (base * acc + d) (S cnt)
      | None => (acc, cnt, s)
      end
  | EmptyString => (acc, cnt, s)
  end.

(** [m * 10^e] as a reduced rational. *)
Definition scale10 (m e : Z) : Q :=
  if 0 <=? e then inject_Z (m * 10 ^ e)
  else Qred (Qmake m (Z.to_pos (10 ^ (- e)))).

Definition read_sign (s : string) : Z * string :=
  match s with
  | String "+" r => (1, r)
  | String "-" r => (-1, r)
  | _ => (1, s)
  end.

(** [ExponentPart]: absent, or [e]/[E], an optional sign and digits up to
    the end of the string. *)
Definition read_exponent (s : string) : option Z :=
  match s with
  | EmptyString => Some 0
  | String c r =>
      if (code c =? 101) || (code c =? 69) then
        let '(sg, r1) := read_sign r in
        match read_digits 10 r1 0 0 with
        | (_, O, _) => None
        | (v, _, EmptyString) => Some (sg * v)
        | _ => None
        end
      else None
  end.

(** [StrUnsignedDecimalLiteral] without [Infinity]. *)
Definition read_decimal (s : string) : option Q :=
  let '(ip, n1, r1) := read_digits 10 s 0 0 in
  match r1 with
  | String "." r =>
      let '(fp, n2, r2) := read_digits 10 r 0 0 in
      match (n1 + n2)%nat with
      | O => None
      | _ =>
          match read_exponent r2 with
          | Some e => Some (scale10 (ip * 10 ^ Z.of_nat n2 + fp)
                                    (e - Z.of_nat n2))
          | None => None
          end
      end
  | _ =>
      match n1 with
      | O => None
      | _ =>
          match read_exponent r1 with
          | Some e => Some (scale10 ip e)
          | None => None
          end
      end
  end.

Definition read_radix (base : Z) (s : string) : number :=
  match read_digits base s 0 0 with
  | (_, O, _) => NaN
  | (v, _, EmptyString) => binary64 (inject_Z v)
  | _ => NaN
  end.

(** [Number(s)] for a string [s] ([StringToNumber]): the value the text
    denotes, rounded to binary64. *)
Definition Number_of_string (s : string) : number :=
  let t := trim s in
  match t with
  | EmptyString => of_Z 0
  | String "0" (String "x" r) | String "0" (String "X" r) => read_radix 16 r
  | String "0" (String "o" r) | String "0" (String "O" r) => read_radix 8 r
  | String "0" (String "b" r) | String "0" (String "B" r) => read_radix 2 r
  | _ =>
      let '(sg, r) := read_sign t in
      if String.eqb r "Infinity" then inf_of_sign sg
      else match read_decimal r with
           | Some q => binary64 (if sg <? 0 then Qopp q else q)
           | None => NaN
           end
  end.

(** *** Number.prototype.toFixed *)

Definition string_of_Z (z : Z) : string :=
  NilZero.string_of_uint (N.to_uint (Z.to_N z)).

Fixpoint zeros (n : nat) : string :=
  match n with O => "" | S k => String "0" (zeros k) end.

(** [toFixed] of a non-negative finite value below 10^21: the integer
    nearest to [q * 10^f], the larger one on a tie, printed with a point
    before its last [f] digits. *)
Definition fixed_digits (f : nat) (q : Q) : string :=
  let n := Qfloor (q * inject_Z (10 ^ Z.of_nat f) + (1 # 2)) in
  let m := string_of_Z n in
  match f with
  | O => m
  | _ =>
      let k := String.length m in
      let m' := if Nat.leb k f then zeros (S f - k) ++ m else m in
      let k' := String.length m' in
      substring 0 (k' - f) m' ++ "." ++ substring (k' - f) f m'
  end.

Section ToFixed.
(** [Number::toString] of a finite value of magnitude 10^21 or more
    prints the shortest digits that read back as the same binary64
    value; that text is the engine's. *)
Variable toString_large : Q -> string.

Definition toFixed (f : nat) (a : number) : string :=
  match a with
  | NaN => "NaN"
  | PInf => "Infinity"
  | NInf => "-Infinity"
  | Fin q =>
      if Qle_bool (inject_Z (10 ^ 21)) (Qabs q) then toString_large q
      else if Qnum q <? 0 then "-" ++ fixed_digits f (Qopp q)
      else fixed_digits f q
  end.
End ToFixed.

End JS.

Local Open Scope string_scope.
Local Open Scope Z_scope.

(** ** Dates

    [new Date(s)] for a string in the ECMAScript date-time format, read as
    local time.  A string outside the format is an Invalid Date (time value
    NaN): no engine-specific fallback parsing is modelled.  For a day of
    the month beyond the length of the month the engines differ, and the
    model follows the engine it is told about. *)

Module Date.

Definition msPerDay : Z := 86400000.

Definition is_leap (y : Z) : bool :=
  ((y mod 4 =? 0) && negb (y mod 100 =? 0)) || (y mod 400 =? 0).

Definition days_in_month (y m : Z) : Z :=
  if m =? 2 then (if is_leap y then 29 else 28)
  else if (m =? 4) || (m =? 6) || (m =? 9) || (m =? 11) then 30
  else 31.

(** Days from 1970-01-01 to the civil date [y-m-d] (proleptic Gregorian). *)
Definition days_from_civil (y m d : Z) : Z :=
  let y' := if m <=? 2 then y - 1 else y in
  let era := y' / 400 in
  let yoe := y' - era * 400 in
  let mp := if 2 <? m then m - 3 else m + 9 in
  let doy := (153 * mp + 2) / 5 + d - 1 in
  let doe := yoe * 365 + yoe / 4 - yoe / 100 + doy in
  era * 146097 + doe - 719468.

Definition MakeTime (h mi sec : Z) : Z := ((h * 60 + mi) * 60 + sec) * 1000.

(** Exactly [n] decimal digits. *)
Fixpoint read_n (n : nat) (s : string) (acc : Z) : option (Z * string) :=
  match n with
  | O => Some (acc, s)
  | S k =>
      match s with
      | String c r =>
          match JS.digit_in 10 c with
          | Some d => read_n k r (10 * acc + d)
          | None => None
          end
      | EmptyString => None
      end
  end.

(** [YYYY] or an expanded year [+YYYYYY] / [-YYYYYY]. *)
Definition read_year (s : string) : option (Z * string) :=
  match s with
  | String "+" r => read_n 6 r 0
  | String "-" r =>
      match read_n 6 r 0 with
      | Some (0, _) => None
      | Some (y, r') => Some (- y, r')
      | None => None
      end
  | _ => read_n 4 s 0
  end.

(** The date forms [YYYY], [YYYY-MM] and [YYYY-MM-DD]. *)
Definition read_date (s : string) : option (Z * Z * Z * string) :=
  match read_year s with
  | None => None
  | Some (y, String "-" r) =>
      match read_n 2 r 0 with
      | None => None
      | Some (m, String "-" r') =>
          match read_n 2 r' 0 with
          | None => None
          | Some (d, r'') => Some (y, m, d, r'')
          end
      | Some (m, r') => Some (y, m, 1, r')
      end
  | Some (y, r) => Some (y, 1, 1, r)
  end.

(** The time form [THH:mm:ss], which ends the string. *)
Definition read_time (s : string) : option (Z * Z * Z) :=
  match s with
  | String "T" r =>
      match read_n 2 r 0 with
      | Some (h, String ":" r1) =>
          match read_n 2 r1 0 with
          | Some (mi, String ":" r2) =>
              match read_n 2 r2 0 with
              | Some (sec, EmptyString) => Some (h, mi, sec)
              | _ => None
              end
          | _ => None
          end
      | _ => None
      end
  | _ => None
  end.

Definition in_range (lo x hi : Z) : bool := (lo <=? x) && (x <=? hi).

Section Local.
(** The offset of local time from UTC, in milliseconds, at a local time. *)
Variable LocalTZA : Z -> Z.
(** Whether the engine accepts a day of the month up to 31 in every month
    and carries the excess over into the next month (as V8 does), or takes
    a day beyond the length of the month for out of bounds (as the format
    prescribes). *)
Variable rolls_over : bool.

(** The time value of [new Date(s)], [s] a date-time without offset. *)
Definition parse (s : string) : JS.number :=
  match read_date s with
  | Some (y, m, d, r) =>
      match read_time r with
      | Some (h, mi, sec) =>
          if in_range 1 m 12
             && in_range 1 d (if rolls_over then 31 else days_in_month y m)
             && in_range 0 mi 59 && in_range 0 sec 59
             && (in_range 0 h 23 || ((h =? 24) && (mi =? 0) && (sec =? 0)))
          then
            let t := days_from_civil y m d * msPerDay + MakeTime h mi sec in
            let tv := t - LocalTZA t in
            if Z.abs tv <=? 8640000000000000 then JS.of_Z tv else JS.NaN
          else JS.NaN
      | None => JS.NaN
      end
  | None => JS.NaN
  end.
End Local.

End Date.

(** ** The data model of [src/App.jsx] *)

Record RateRecord : Type := {
  value : JS.number;
  rprovider : string;
  timestamp : Z;
  from : string;
  to : string;
  date : option string
}.

Record State : Type := {
  balance : option string;
  srcCurrency : string;
  dstCurrency : string;
  paydate : string;
  useConversion : bool;
  provider : string;
  apiKey : string;
  lastRate : option RateRecord;
  cachedCurrencies : option (list (string * string));
  lastPerDay : option JS.number
}.

(** The object the [useMemo] block returns. *)
Record Derived : Type := {
  perDay : option JS.number;
  daysLeft : JS.number;
  amountDisplay : option string;
  convertedDisplay : option string;
  rateLine : string;
  error : string
}.

(** What a function returns or throws. *)
Inductive Result (A : Type) : Type :=
| Ok (a : A)
| Throw (e : string).
Arguments Ok {A} a.
Arguments Throw {A} e.

(** What the code leaves behind: a request, a console line. *)
Inductive Event : Type :=
| Fetched (url : string)
| ConsoleError (label e : string)
| ConsoleWarn (label e : string).

(** A reading of the clock: a time value from which every time value
    ([|t| <= 8.64e15]) is less than 2^53 milliseconds away, so that the
    difference of the two is a whole number that binary64 holds.  These
    are the years -9666 to 13606. *)
Definition valid_clock (t : Z) : bool :=
  Z.abs t <=? 2 ^ 53 - 8640000000000000.

(** What a render reads from its surroundings. *)
Record Env : Type := {
  LocalTZA : Z -> Z;
  (** how [new Date(s)] treats a day beyond the length of the month *)
  rolls_days_over : bool;
  (** the clock as [new Date()] reads it *)
  new_Date : Z;
  (** the clock as the later [Date.now()] reads it *)
  Date_now : Z;
  navigator_language : string;
  (** [new Intl.NumberFormat(locale, {style: 'currency', currency, ...})
      .format(value)], or what the constructor throws *)
  Intl_format : string -> string -> JS.number -> Result string;
  toString_large : Q -> string;
  clock_valid : valid_clock new_Date = true
}.

(** ** [formatMoney] of [lib/fx.js], applied to a number *)

(** The text, and what the [catch] branch writes to the console. *)
Definition formatMoney_io (env : Env) (v : JS.number) (code : string)
  : string * list Event :=
  if JS.isNaN v then ("0.00 " ++ code, [])
  else
    let locale := if JS.is_empty (navigator_language env) then "en-US"
                  else navigator_language env in
    match Intl_format env locale code v with
    | Ok s => (s, [])
    | Throw error =>
        (JS.toFixed (toString_large env) 2 v ++ " " ++ code,
         [ConsoleWarn ("Currency formatting failed for " ++ code ++ ":") error])
    end.

Definition formatMoney (env : Env) (v : JS.number) (code : string) : string :=
  fst (formatMoney_io env v code).

(** ** The derived calculations of [App] *)

Definition out0 : Derived :=
  {| perDay := None; daysLeft := JS.of_Z 0; amountDisplay := None;
     convertedDisplay := None; rateLine := ""; error := "" |}.

Definition set_error (o : Derived) (e : string) : Derived :=
  {| perDay := perDay o; daysLeft := daysLeft o;
     amountDisplay := amountDisplay o; convertedDisplay := convertedDisplay o;
     rateLine := rateLine o; error := e |}.

Definition set_daysLeft (o : Derived) (d : JS.number) : Derived :=
  {| perDay := perDay o; daysLeft := d;
     amountDisplay := amountDisplay o; convertedDisplay := convertedDisplay o;
     rateLine := rateLine o; error := error o |}.

Definition set_amountDisplay (o : Derived) (a : string) : Derived :=
  {| perDay := perDay o; daysLeft := daysLeft o;
     amountDisplay := Some a; convertedDisplay := convertedDisplay o;
     rateLine := rateLine o; error := error o |}.

Definition set_convertedDisplay (o : Derived) (a : string) : Derived :=
  {| perDay := perDay o; daysLeft := daysLeft o;
     amountDisplay := amountDisplay o; convertedDisplay := Some a;
     rateLine := rateLine o; error := error o |}.

Definition set_perDay (o : Derived) (p : JS.number) : Derived :=
  {| perDay := Some p; daysLeft := daysLeft o;
     amountDisplay := amountDisplay o; convertedDisplay := convertedDisplay o;
     rateLine := rateLine o; error := error o |}.

Definition set_rateLine (o : Derived) (l : string) : Derived :=
  {| perDay := perDay o; daysLeft := daysLeft o;
     amountDisplay := amountDisplay o; convertedDisplay := convertedDisplay o;
     rateLine := l; error := error o |}.

(** [Number(state.balance?.replace(/,/g, '') || 0)] *)
Definition parsed_balance (state : State) : JS.number :=
  match balance state with
  | None => JS.of_Z 0
  | Some b =>
      let t := JS.remove_commas b in
      if JS.is_empty t then JS.of_Z 0 else JS.Number_of_string t
  end.

(** [lastRate.from === srcCurrency && lastRate.to === dstCurrency] *)
Definition identity_matched (state : State) (r : RateRecord) : bool :=
  String.eqb (from r) (srcCurrency state)
  && String.eqb (to r) (dstCurrency state).

(** The condition of the conversion branch; when it holds, the rate it
    found. *)
Definition conversion_rate (state : State) : option RateRecord :=
  if useConversion state
     && negb (String.eqb (srcCurrency state) (dstCurrency state))
  then match lastRate state with
       | Some r => if identity_matched state r then Some r else None
       | None => None
       end
  else None.

Definition day : Z := 24 * 60 * 60 * 1000.

(** [ceil((pay - now) / day)], [pay] the end of the payday. *)
Definition days_until (env : Env) (pd : string) : JS.number :=
  let now := JS.of_Z (new_Date env) in
  let pay := Date.parse (LocalTZA env) (rolls_days_over env)
               (pd ++ "T23:59:59") in
  let ms := JS.sub pay now in
  JS.Math_ceil (JS.div ms (JS.of_Z day)).

Definition rate_text (env : Env) (state : State) (r : RateRecord) : string :=
  "1 " ++ srcCurrency state ++ " = "
  ++ JS.toFixed (toString_large env) 4 (value r) ++ " " ++ dstCurrency state.

(** The [useMemo] block: the object it returns, and the console lines of
    its calls of [formatMoney], the latest first. *)
Definition compute_io (env : Env) (state : State) : Derived * list Event :=
  let out := out0 in
  let balance := parsed_balance state in
  if negb (JS.truthy balance) || JS.is_empty (paydate state) then (out, [])
  else
    let days := days_until env (paydate state) in
    if JS.leb days (JS.of_Z 0)
    then (set_error out "Choose a future payday.", [])
    else
      let out := set_daysLeft out days in
      let shown := formatMoney_io env balance (srcCurrency state) in
      let out := set_amountDisplay out (fst shown) in
      let originalPerDay := JS.Math_floor (JS.div balance days) in
      match conversion_rate state with
      | Some r =>
          let convertedAmount := JS.mul balance (value r) in
          let convertedPerDay := JS.Math_floor (JS.div convertedAmount days) in
          let converted :=
            formatMoney_io env convertedAmount (dstCurrency state) in
          let out := set_convertedDisplay out (fst converted) in
          let out := set_perDay out convertedPerDay in
          let rateAge := Date_now env - timestamp r in
          let isStale := day <? rateAge in
          (set_rateLine out
             (rate_text env state r ++ (if isStale then " (cached)" else "")),
           (snd converted ++ snd shown)%list)
      | None => (set_perDay out originalPerDay, snd shown)
      end.

(** The derived calculations: what the block returns. *)
Definition compute (env : Env) (state : State) : Derived :=
  fst (compute_io env state).

(** ** The world of the asynchronous code

    [maybeFetchRate], [getRate] and [listCurrencies] are asynchronous and
    effectful: they read the clock, talk to the network, write to the
    console, and update the React state cell through [setState].  A
    computation is a function from the world to an outcome and the world
    after it; a rejected promise is [Throw]. *)

(** The reply to a GET request: the request itself fails, or a response
    arrives whose [json()] yields a body or rejects. *)
Inductive Reply (A : Type) : Type :=
| Unreachable (e : string)
| Response (ok : bool) (status : Z) (statusText : string) (json : Result A).
Arguments Unreachable {A} e.
Arguments Response {A} ok status statusText json.

(** The body of a rate response, typed after the providers' schemas:
    [rates] maps currency codes to numbers, [error] carries [info] and
    [type], [others] are the remaining top-level numeric properties. *)
Record RateJson : Type := {
  j_rates : option (list (string * JS.number));
  j_result : option JS.number;
  j_date : option string;
  j_error : option (option string * option string);
  j_others : list (string * JS.number)
}.

Record World : Type := {
  (** the React state cell, as the next [setState] updater will see it *)
  st : State;
  (** [Date.now()] *)
  clock : Z;
  (** how long a request to a URL takes *)
  latency : string -> Z;
  GET_currencies : Reply (list (string * string));
  GET_latest : string -> Reply RateJson;
  (** [a.localeCompare(b)] *)
  localeCompare : string -> string -> Z;
  (** requests and console lines so far, the latest first *)
  trace : list Event
}.

Definition M (A : Type) : Type := World -> Result A * World.

Definition ret {A} (a : A) : M A := fun w => (Ok a, w).
Definition throw {A} (e : string) : M A := fun w => (Throw e, w).

Definition bind {A B} (m : M A) (k : A -> M B) : M B :=
  fun w => match m w with
           | (Ok a, w') => k a w'
           | (Throw e, w') => (Throw e, w')
           end.

Definition try_catch {A} (m : M A) (h : string -> M A) : M A :=
  fun w => match m w with
           | (Ok a, w') => (Ok a, w')
           | (Throw e, w') => h e w'
           end.

Notation "x <- m ;; k" := (bind m (fun x => k))
  (at level 61, m at next level, right associativity).
Notation "m ;;; k" := (bind m (fun _ => k))
  (at level 61, right associativity).

Definition with_st (w : World) (s : State) : World :=
  {| st := s; clock := clock w; latency := latency w;
     GET_currencies := GET_currencies w; GET_latest := GET_latest w;
     localeCompare := localeCompare w; trace := trace w |}.

Definition emit (w : World) (ev : Event) : World :=
  {| st := st w; clock := clock w; latency := latency w;
     GET_currencies := GET_currencies w; GET_latest := GET_latest w;
     localeCompare := localeCompare w; trace := ev :: trace w |}.

Definition elapse (w : World) (d : Z) : World :=
  {| st := st w; clock := clock w + d; latency := latency w;
     GET_currencies := GET_currencies w; GET_latest := GET_latest w;
     localeCompare := localeCompare w; trace := trace w |}.

Definition Date_now_M : M Z := fun w => (Ok (clock w), w).
Definition setState (f : State -> State) : M unit :=
  fun w => (Ok tt, with_st w (f (st w))).
Definition console_error (label e : string) : M unit :=
  fun w => (Ok tt, emit w (ConsoleError label e)).
Definition console_warn (label e : string) : M unit :=
  fun w => (Ok tt, emit w (ConsoleWarn label e)).

(** [await fetch(url)] against an endpoint; [r.ok], [r.status],
    [r.statusText] and [await r.json()] are read off the response. *)
Definition fetch {A} (endpoint : World -> Reply A) (url : string)
  : M (bool * Z * string * Result A) :=
  fun w =>
    let w' := elapse (emit w (Fetched url)) (latency w url) in
    match endpoint w with
    | Unreachable e => (Throw e, w')
    | Response ok status statusText body => (Ok (ok, status, statusText, body), w')
    end.

Definition json_of {A} (body : Result A) : M A :=
  fun w => (body, w).

(** ** [lib/fx.js] *)

(** [Array.prototype.sort] with a comparator: a stable insertion of each
    element in turn, [a] before [b] when [cmp a b <= 0]. *)
Section Sort.
Context {A : Type}.
Variable cmp : A -> A -> Z.

Fixpoint insert (x : A) (l : list A) : list A :=
  match l with
  | [] => [x]
  | y :: r => if cmp y x <=? 0 then y :: insert x r else x :: l
  end.

Definition sort (l : list A) : list A :=
  fold_left (fun acc x => insert x acc) l [].

(** The order the comparator stands for. *)
Definition before (a b : A) : Prop := cmp a b <= 0.
End Sort.

(** The comparator [([a], [b]) => a.localeCompare(b)]: it compares the
    first components of two entries. *)
Definition entry_cmp (w : World) (x y : string * string) : Z :=
  localeCompare w (fst x) (fst y).

Definition currencies_url : string := "https://api.frankfurter.dev/v1/currencies".

Definition listCurrencies : M (list (string * string)) :=
  try_catch
    (r <- fetch GET_currencies currencies_url ;;
     let '(ok, _, _, body) := r in
     if negb ok then throw "Failed to fetch currencies"
     else
       json <- json_of body ;;
       fun w => ret (sort (entry_cmp w) json) w)
    (fun error =>
       console_error "Failed to fetch currencies from API:" error ;;;
       throw error).

(** [encodeURIComponent] on ASCII: letters, digits and [- _ . ! ~ * ' ( )]
    stay, every other character becomes [%XX]. *)
Definition hex_digit (d : Z) : ascii :=
  ascii_of_nat (Z.to_nat (if d <? 10 then 48 + d else 55 + d)).

Definition unreserved (c : ascii) : bool :=
  let n := JS.code c in
  Date.in_range 48 n 57 || Date.in_range 65 n 90 || Date.in_range 97 n 122
  || (n =? 45) || (n =? 95) || (n =? 46) || (n =? 33) || (n =? 126)
  || (n =? 42) || (n =? 39) || (n =? 40) || (n =? 41).

Fixpoint encodeURIComponent (s : string) : string :=
  match s with
  | EmptyString => EmptyString
  | String c r =>
      if unreserved c then String c (encodeURIComponent r)
      else String "%" (String (hex_digit (JS.code c / 16))
                         (String (hex_digit (JS.code c mod 16))
                            (encodeURIComponent r)))
  end.

(** What [getRate] resolves to. *)
Record Rate : Type := {
  rate_value : JS.number;
  rate_provider : string;
  rate_timestamp : Z;
  rate_date : option string
}.

Fixpoint lookup {A} (k : string) (l : list (string * A)) : option A :=
  match l with
  | [] => None
  | (k', v) :: r => if String.eqb k' k then Some v else lookup k r
  end.

(** [a || b] on values that may be undefined: the first if it is truthy,
    else the second. *)
Definition or_else (a b : option JS.number) : option JS.number :=
  match a with
  | Some x => if JS.truthy x then a else b
  | None => b
  end.

Definition or_text (a : option string) (b : string) : string :=
  match a with
  | Some x => if JS.is_empty x then b else x
  | None => b
  end.

Definition http_error (status : Z) (statusText : string) : string :=
  "HTTP " ++ JS.string_of_Z status ++ ": " ++ statusText.

Definition not_found (from to : string) : string :=
  "Rate not found for " ++ from ++ " to " ++ to.

Definition getRate (from to provider apiKey : string) : M Rate :=
  if String.eqb from to then
    now <- Date_now_M ;;
    ret {| rate_value := JS.of_Z 1; rate_provider := provider;
           rate_timestamp := now; rate_date := None |}
  else
    try_catch
      (if String.eqb provider "frankfurter" then
         let url := "https://api.frankfurter.dev/v1/latest?base="
                    ++ encodeURIComponent from ++ "&symbols="
                    ++ encodeURIComponent to in
         r <- fetch (fun w => GET_latest w url) url ;;
         let '(ok, status, statusText, body) := r in
         if negb ok then throw (http_error status statusText)
         else
           json <- json_of body ;;
           match j_rates json with
           | None => throw (not_found from to)
           | Some rates =>
               match lookup to rates with
               | None => throw (not_found from to)
               | Some v =>
                   now <- Date_now_M ;;
                   ret {| rate_value := v; rate_provider := provider;
                          rate_timestamp := now; rate_date := j_date json |}
               end
           end
       else if String.eqb provider "exchangerate-host" then
         if JS.is_empty apiKey then throw "API key required for exchangerate.host"
         else
           let url := "https://api.exchangerate.host/latest?base="
                      ++ encodeURIComponent from ++ "&symbols="
                      ++ encodeURIComponent to ++ "&access_key="
                      ++ encodeURIComponent apiKey in
           r <- fetch (fun w => GET_latest w url) url ;;
           let '(ok, status, statusText, body) := r in
           if negb ok then throw (http_error status statusText)
           else
             json <- json_of body ;;
             match j_error json with
             | Some (info, type) =>
                 throw (or_text info (or_text type "API Error"))
             | None =>
                 let from_rates :=
                   match j_rates json with
                   | Some rates => lookup to rates
                   | None => None
                   end in
                 let val := or_else (or_else from_rates (j_result json))
                                    (lookup to (j_others json)) in
                 match val with
                 | None => throw (not_found from to)
                 | Some v =>
                     now <- Date_now_M ;;
                     ret {| rate_value := v; rate_provider := provider;
                            rate_timestamp := now; rate_date := j_date json |}
                 end
             end
       else throw ("Unknown provider: " ++ provider))
      (fun error =>
         console_error "Rate fetch failed:" error ;;;
         throw error).

(** ** [maybeFetchRate] of [src/App.jsx] *)

(** [{ ...r, from: s.srcCurrency, to: s.dstCurrency }] *)
Definition stamp (r : Rate) (s : State) : RateRecord :=
  {| value := rate_value r; rprovider := rate_provider r;
     timestamp := rate_timestamp r; from := srcCurrency s;
     to := dstCurrency s; date := rate_date r |}.

(** [{ ...s, lastRate: l }] *)
Definition set_lastRate (s : State) (l : RateRecord) : State :=
  {| balance := balance s; srcCurrency := srcCurrency s;
     dstCurrency := dstCurrency s; paydate := paydate s;
     useConversion := useConversion s; provider := provider s;
     apiKey := apiKey s; lastRate := Some l;
     cachedCurrencies := cachedCurrencies s; lastPerDay := lastPerDay s |}.

Definition hour : Z := 60 * 60 * 1000.

(** [lastRate] is there, matches the pair of currencies and is less than
    an hour old. *)
Definition fresh (state : State) (now : Z) : bool :=
  match lastRate state with
  | Some r => identity_matched state r && (now - timestamp r <? hour)
  | None => false
  end.

(** The closure captures [isOnline] and [state] of the render that made
    it; [setState] updates the cell of the world. *)
Definition maybeFetchRate (isOnline : bool) (state : State) : M unit :=
  if negb isOnline then ret tt
  else if negb (useConversion state
                && negb (String.eqb (srcCurrency state) (dstCurrency state)))
  then ret tt
  else
    now <- Date_now_M ;;
    if fresh state now then ret tt
    else
      try_catch
        (r <- getRate (srcCurrency state) (dstCurrency state)
                      (provider state) (apiKey state) ;;
         setState (fun s => set_lastRate s (stamp r s)))
        (fun e => console_warn "Rate fetch failed:" e).

(** ** Vocabulary of the statements *)

(** A parsed balance above zero. *)
Definition positive (n : JS.number) : Prop := JS.ltb (JS.of_Z 0) n = true.

(** The end of the payday as the render computes it. *)
Definition end_of_day (env : Env) (state : State) : JS.number :=
  Date.parse (LocalTZA env) (rolls_days_over env)
    (paydate state ++ "T23:59:59").

(** [ceil((pay - now) / day)] on integers. *)
Definition ceil_days (now pay : Z) : Z := - ((now - pay) / day).

Definition clear_lastRate (s : State) : State :=
  {| balance := balance s; srcCurrency := srcCurrency s;
     dstCurrency := dstCurrency s; paydate := paydate s;
     useConversion := useConversion s; provider := provider s;
     apiKey := apiKey s; lastRate := None;
     cachedCurrencies := cachedCurrencies s; lastPerDay := lastPerDay s |}.

Definition with_timestamp (r : RateRecord) (t : Z) : RateRecord :=
  {| value := value r; rprovider := rprovider r; timestamp := t;
     from := from r; to := to r; date := date r |}.



(** *** Sample surroundings and states *)

(** 2024-03-01T00:00:00Z in epoch milliseconds. *)
Definition march_1st : Z := 1709251200000.

(** An [Intl] that knows the three-letter codes and prints the number to
    two decimals before the code; for any other code the constructor
    throws. *)
Definition plain_format (locale code : string) (v : JS.number)
  : Result string :=
  if Nat.eqb (String.length code) 3
  then Ok (JS.toFixed (fun _ => "") 2 v ++ " " ++ code)
  else Throw ("RangeError: Invalid currency code : " ++ code).

(** A render in UTC at the clock reading [t], on a strict engine. *)
Definition utc_at (t : Z) (valid : valid_clock t = true) : Env :=
  {| LocalTZA := fun _ => 0; rolls_days_over := false;
     new_Date := t; Date_now := t;
     navigator_language := "en-US"; Intl_format := plain_format;
     toString_large := fun _ => ""; clock_valid := valid |}.

Definition noon : Env := utc_at (march_1st + 12 * hour) eq_refl.

Definition eur_3000 : State :=
  {| balance := Some "3000"; srcCurrency := "EUR"; dstCurrency := "EUR";
     paydate := "2024-03-10"; useConversion := false;
     provider := "frankfurter"; apiKey := ""; lastRate := None;
     cachedCurrencies := None; lastPerDay := None |}.

(** The rate 1.1 as a response body carries it: the binary64 value nearest
    to 1.1. *)
Definition rate_1_1 : JS.number := JS.Number_of_string "1.1".

Definition rate_11 (t : Z) (from to : string) : RateRecord :=
  {| value := rate_1_1; rprovider := "frankfurter"; timestamp := t;
     from := from; to := to; date := None |}.

Definition eur_usd_2200 (r : option RateRecord) : State :=
  {| balance := Some "2200"; srcCurrency := "EUR"; dstCurrency := "USD";
     paydate := "2024-03-10"; useConversion := true;
     provider := "frankfurter"; apiKey := ""; lastRate := r;
     cachedCurrencies := None; lastPerDay := None |}.


Definition with_paydate (s : State) (p : string) : State :=
  {| balance := balance s; srcCurrency := srcCurrency s;
     dstCurrency := dstCurrency s; paydate := p;
     useConversion := useConversion s; provider := provider s;
     apiKey := apiKey s; lastRate := lastRate s;
     cachedCurrencies := cachedCurrencies s; lastPerDay := lastPerDay s |}.


(** [eur_3000] with another provider, a key and a remembered amount. *)
Definition eur_3000_keyed : State :=
  {| balance := Some "3000"; srcCurrency := "EUR"; dstCurrency := "EUR";
     paydate := "2024-03-10"; useConversion := false;
     provider := "exchangerate-host"; apiKey := "k"; lastRate := None;
     cachedCurrencies := Some [("EUR", "Euro")];
     lastPerDay := Some (JS.of_Z 300) |}.

(** A collation for the samples: code units, left to right. *)
Fixpoint compare_code_units (a b : string) : Z :=
  match a, b with
  | EmptyString, EmptyString => 0
  | EmptyString, _ => -1
  | _, EmptyString => 1
  | String x r, String y r' =>
      if JS.code x <? JS.code y then -1
      else if JS.code y <? JS.code x then 1
      else compare_code_units r r'
  end.

Definition catalogue : list (string * string) :=
  [("BRL", "Brazilian Real"); ("AUD", "Australian Dollar");
   ("BGN", "Bulgarian Lev")].

(** A world at noon whose rate endpoint answers [rates], with the React
    state cell holding [s]. *)
Definition world_with (rates : Reply RateJson) (s : State) : World :=
  {| st := s; clock := march_1st + 12 * hour; latency := fun _ => 250;
     GET_currencies := Response true 200 "OK" (Ok catalogue);
     GET_latest := fun _ => rates; localeCompare := compare_code_units;
     trace := [] |}.

Definition usd_rates : RateJson :=
  {| j_rates := Some [("USD", rate_1_1)]; j_result := None;
     j_date := Some "2024-03-01"; j_error := None; j_others := [] |}.

Definition provider_up : Reply RateJson := Response true 200 "OK" (Ok usd_rates).
Definition provider_down : Reply RateJson := Unreachable "Failed to fetch".

(** Ordered by the first, respectively the second, component under the
    collation of the world. *)
Definition by_code (w : World) (x y : string * string) : Prop :=
  localeCompare w (fst x) (fst y) <= 0.
Definition by_name (w : World) (x y : string * string) : Prop :=
  localeCompare w (snd x) (snd y) <= 0.

(** Conversion from EUR to USD with a rate fetched 59 minutes, respectively
    30 hours, before noon. *)
Definition cached_59_minutes : State :=
  eur_usd_2200 (Some (rate_11 (march_1st + 12 * hour - 59 * 60000) "EUR" "USD")).
Definition cached_30_hours : State :=
  eur_usd_2200 (Some (rate_11 (march_1st - 18 * hour) "EUR" "USD")).

(** The arguments [maybeFetchRate] hands to [getRate]. *)
Definition rate_request (state : State) : M Rate :=
  getRate (srcCurrency state) (dstCurrency state) (provider state)
          (apiKey state).

(** Runs a computation symbolically, one case for every test it makes. *)
Ltac run_cases :=
  unfold try_catch, bind, fetch, throw, ret, json_of, console_error,
    console_warn, setState, Date_now_M;
  repeat (cbv beta iota zeta;
          match goal with
          | |- context [match ?x with _ => _ end] =>
              lazymatch x with
              | context [match _ with _ => _ end] => fail
              | _ => destruct x
              end
          end).

(** ** Further vocabulary: requests and provider URLs *)

(** The URLs requested so far, the latest first. *)
Fixpoint requests (t : list Event) : list string :=
  match t with
  | [] => []
  | Fetched url :: r => url :: requests r
  | _ :: r => requests r
  end.

Definition frankfurter_url (from to : string) : string :=
  "https://api.frankfurter.dev/v1/latest?base="
  ++ encodeURIComponent from ++ "&symbols=" ++ encodeURIComponent to.

Definition exchangerate_url (from to apiKey : string) : string :=
  "https://api.exchangerate.host/latest?base="
  ++ encodeURIComponent from ++ "&symbols="
  ++ encodeURIComponent to ++ "&access_key="
  ++ encodeURIComponent apiKey.

(** The request [getRate] sends, if it sends one. *)
Definition rate_url (from to provider apiKey : string) : option string :=
  if String.eqb from to then None
  else if String.eqb provider "frankfurter" then Some (frankfurter_url from to)
  else if String.eqb provider "exchangerate-host" then
    if JS.is_empty apiKey then None
    else Some (exchangerate_url from to apiKey)
  else None.

(** A rate body with an [error] object next to usable rates. *)
Definition usd_rates_with_error : RateJson :=
  {| j_rates := Some [("USD", rate_1_1)]; j_result := None;
     j_date := Some "2024-03-01";
     j_error := Some (Some "Monthly quota reached", Some "usage_limit");
     j_others := [] |}.

(** The rate the sample provider answers with at noon, 250 ms later. *)
Definition rate_at_noon : Rate :=
  {| rate_value := rate_1_1; rate_provider := "frankfurter";
     rate_timestamp := march_1st + 12 * hour + 250;
     rate_date := Some "2024-03-01" |}.

(** ** What [App] renders from the derived calculations *)

(** [displayCurrency]: the label next to the big number. *)
Definition displayCurrency (state : State) : string :=
  if useConversion state
     && negb (String.eqb (srcCurrency state) (dstCurrency state))
     && (match lastRate state with Some _ => true | None => false end)
  then dstCurrency state
  else srcCurrency state.

(** The result card: the error message, the budget (the number shown, its
    currency label, the days left and, after a conversion, the total with
    the rate line), or the invitation to enter a balance and a payday. *)
Inductive Card : Type :=
| ErrorMessage (e : string)
| Budget (displayValue : JS.number) (currency : string) (days : JS.number)
         (total : option (string * string))
| Placeholder.

(** [animatedValue] is the number the animation currently holds, null
    when none is running. *)
Definition result_card (animatedValue : option JS.number) (state : State)
  (d : Derived) : Card :=
  let displayValue :=
    match animatedValue with
    | Some a => Some a
    | None => perDay d
    end in
  if negb (JS.is_empty (error d)) then ErrorMessage (error d)
  else
    match displayValue with
    | Some v =>
        if JS.truthy v && JS.truthy (daysLeft d) then
          Budget v (displayCurrency state) (daysLeft d)
            (match convertedDisplay d with
             | Some c => if JS.is_empty c then None else Some (c, rateLine d)
             | None => None
             end)
        else Placeholder
    | None => Placeholder
    end.

Definition with_balance (s : State) (b : string) : State :=
  {| balance := Some b; srcCurrency := srcCurrency s;
     dstCurrency := dstCurrency s; paydate := paydate s;
     useConversion := useConversion s; provider := provider s;
     apiKey := apiKey s; lastRate := lastRate s;
     cachedCurrencies := cachedCurrencies s; lastPerDay := lastPerDay s |}.

(** ** The balance field of [App] *)

Definition is_digit (c : ascii) : bool := Date.in_range 48 (JS.code c) 57.
Definition is_dot (c : ascii) : bool := JS.code c =? 46.
Definition digit_or_dot (c : ascii) : bool := is_digit c || is_dot c.

Fixpoint all_chars (p : ascii -> bool) (s : string) : bool :=
  match s with
  | EmptyString => true
  | String c r => p c && all_chars p r
  end.


(** [s.replace(/[^\d.]/g, '')] *)
Fixpoint keep_digits_and_dots (s : string) : string :=
  match s with
  | EmptyString => EmptyString
  | String c r =>
      if digit_or_dot c then String c (keep_digits_and_dots r)
      else keep_digits_and_dots r
  end.

Fixpoint has_dot (s : string) : bool :=
  match s with
  | EmptyString => false
  | String c r => is_dot c || has_dot r
  end.

Fixpoint remove_last_dot (s : string) : string :=
  match s with
  | EmptyString => EmptyString
  | String c r =>
      if is_dot c && negb (has_dot r) then r
      else String c (remove_last_dot r)
  end.

(** The second [replace] of [handleBalanceChange], whose pattern is a
    group (a dot, then any characters, greedily) followed by a dot, and
    whose replacement is the group.  On a string without line terminators
    the one match runs from the first dot to the last one, and is replaced
    by itself without that last dot. *)
Fixpoint drop_closing_dot (s : string) : string :=
  match s with
  | EmptyString => EmptyString
  | String c r =>
      if is_dot c then
        (if has_dot r then String c (remove_last_dot r) else s)
      else String c (drop_closing_dot r)
  end.

(** [handleBalanceChange]: the text handed to [onChange('balance', _)]. *)
Definition handleBalanceChange (value : string) : string :=
  drop_closing_dot (keep_digits_and_dots value).

(** [s.split('.')]; the result is never empty. *)
Fixpoint split_dots (s : string) : list string :=
  match s with
  | EmptyString => [EmptyString]
  | String c r =>
      if is_dot c then EmptyString :: split_dots r
      else match split_dots r with
           | h :: t => String c h :: t
           | [] => [String c EmptyString]
           end
  end.

(** [parts.join('.')] *)
Fixpoint join_dots (parts : list string) : string :=
  match parts with
  | [] => EmptyString
  | [p] => p
  | p :: r => p ++ "." ++ join_dots r
  end.

(** [s.replace(/\B(?=(\d{3})+(?!\d))/g, ',')] on a string of digits: a
    comma goes before every position that is followed by a positive
    multiple of three digits, except the start. *)
Fixpoint group_thousands (s : string) : string :=
  match s with
  | EmptyString => EmptyString
  | String c r =>
      String c
        (if negb (Nat.eqb (String.length r) 0)
            && Nat.eqb (String.length r mod 3) 0
         then String "," (group_thousands r)
         else group_thousands r)
  end.

(** [formatNumberWithCommas] applied to a string. *)
Definition formatNumberWithCommas (value : string) : string :=
  if JS.is_empty value then ""
  else
    let cleaned := keep_digits_and_dots value in
    match split_dots cleaned with
    | [] => ""
    | p0 :: rest =>
        join_dots
          (group_thousands p0
           :: match rest with
              | p1 :: more =>
                  (if JS.is_empty p1 then p1 else substring 0 2 p1) :: more
              | [] => []
              end)
    end.

(** [handleBalanceBlur] and [handleBalanceFocus]: the text handed to
    [onChange('balance', _)]. *)
Definition handleBalanceBlur (value : string) : string :=
  formatNumberWithCommas (JS.remove_commas value).

Definition handleBalanceFocus (value : string) : string :=
  JS.remove_commas value.

(** What [formatNumberWithCommas] does to the parts after the first: the
    second, if it is not empty, is cut to two characters. *)
Definition cut_second (rest : list string) : list string :=
  match rest with
  | p1 :: more => (if JS.is_empty p1 then p1 else substring 0 2 p1) :: more
  | [] => []
  end.

(** ** The currency picker of [App] *)

(** The two cells of component state that [loadCurrencies] writes. *)
Record Picker : Type := {
  currencies : list (string * string);
  currenciesLoading : bool
}.

(** [{ ...s, cachedCurrencies: l }] *)
Definition set_cachedCurrencies (s : State) (l : list (string * string))
  : State :=
  {| balance := balance s; srcCurrency := srcCurrency s;
     dstCurrency := dstCurrency s; paydate := paydate s;
     useConversion := useConversion s; provider := provider s;
     apiKey := apiKey s; lastRate := lastRate s;
     cachedCurrencies := Some l; lastPerDay := lastPerDay s |}.

(** [state.cachedCurrencies && state.cachedCurrencies.length > 0], and the
    list when that holds. *)
Definition usable_cache (state : State) : option (list (string * string)) :=
  match cachedCurrencies state with
  | Some (e :: l) => Some (e :: l)
  | _ => None
  end.

Definition setCurrencies (ui : Picker) (l : list (string * string)) : Picker :=
  {| currencies := l; currenciesLoading := currenciesLoading ui |}.
Definition setCurrenciesLoading (ui : Picker) (b : bool) : Picker :=
  {| currencies := currencies ui; currenciesLoading := b |}.

(** [loadCurrencies] of the effect that runs when [isOnline] changes; the
    closure captures [isOnline] and [state]. *)
Definition loadCurrencies (isOnline : bool) (state : State) (ui : Picker)
  (w : World) : Picker * World :=
  let ui :=
    match usable_cache state with
    | Some l => setCurrenciesLoading (setCurrencies ui l) false
    | None => ui
    end in
  let '(ui, w) :=
    if isOnline then
      match listCurrencies w with
      | (Ok freshCurrencies, w1) =>
          (setCurrencies ui freshCurrencies,
           with_st w1 (set_cachedCurrencies (st w1) freshCurrencies))
      | (Throw error, w1) =>
          (match usable_cache state with
           | Some l => setCurrencies ui l
           | None => ui
           end,
           emit w1 (ConsoleError "Failed to load currencies:" error))
      end
    else (ui, w) in
  (setCurrenciesLoading ui false, w).

Definition loading : Picker := {| currencies := []; currenciesLoading := true |}.

Definition world_without_catalogue (s : State) : World :=
  {| st := s; clock := march_1st + 12 * hour; latency := fun _ => 250;
     GET_currencies := Response false 503 "Service Unavailable" (Throw "");
     GET_latest := fun _ => provider_down;
     localeCompare := compare_code_units; trace := [] |}.

(** ** The default payday of [App] *)

(** What the local getters [getFullYear], [getMonth] (from 0) and
    [getDate] of a Date return. *)
Record LocalDate : Type := {
  getFullYear : Z;
  getMonth : Z;
  getDate : Z
}.

(** [String(n)] for an integer. *)
Definition String_of_int (z : Z) : string :=
  if z <? 0 then "-" ++ JS.string_of_Z (- z) else JS.string_of_Z z.

(** [s.padStart(2, '0')] *)
Definition padStart2 (s : string) : string :=
  match String.length s with
  | O => "00"
  | S O => "0" ++ s
  | _ => s
  end.

(** [new Date(y, m, 15, 23, 59, 59)] as its local getters read it back: a
    year from 0 to 99 counts from 1900, and a month beyond December
    carries into the year.  The date is taken to exist in local time and
    to lie within the range of Date. *)
Definition fifteenth_of (y m : Z) : LocalDate :=
  let yr := if Date.in_range 0 y 99 then 1900 + y else y in
  {| getFullYear := yr + m / 12; getMonth := m mod 12; getDate := 15 |}.

(** [nextMonthFifteenthISO], from the local reading of [new Date()]. *)
Definition nextMonthFifteenthISO (now : LocalDate) : string :=
  let y := getFullYear now in
  let m := getMonth now in
  let d := getDate now in
  let targetMonth := if d <? 15 then m else m + 1 in
  let d15next := fifteenth_of y targetMonth in
  let yyyy := getFullYear d15next in
  let mm := padStart2 (String_of_int (getMonth d15next + 1)) in
  let dd := padStart2 (String_of_int (getDate d15next)) in
  String_of_int yyyy ++ "-" ++ mm ++ "-" ++ dd.

(** The initialiser of the [state] cell, applied to the merge of the
    defaults with what storage holds. *)
Definition initial_state (merged : State) (now : LocalDate) : State :=
  if JS.is_empty (paydate merged)
  then with_paydate merged (nextMonthFifteenthISO now)
  else merged.

(** The year and month (from 1) whose 15th is the default payday. *)
Definition default_month (now : LocalDate) : Z * Z :=
  if getDate now <? 15 then (getFullYear now, getMonth now + 1)
  else if getMonth now =? 11 then (getFullYear now + 1, 1)
  else (getFullYear now, getMonth now + 2).

(** The local time of a reading [now] at [tod] milliseconds into the day. *)
Definition local_time (now : LocalDate) (tod : Z) : Z :=
  Date.days_from_civil (getFullYear now) (getMonth now + 1) (getDate now)
  * Date.msPerDay + tod.

(** A year that prints as four digits which read back as the year. *)
Definition four_digit_year (y : Z) : bool :=
  match JS.string_of_Z y with
  | String a (String b (String c (String d EmptyString))) =>
      is_digit a && is_digit b && is_digit c && is_digit d
      && (1000 * (JS.code a - 48) + 100 * (JS.code b - 48)
          + 10 * (JS.code c - 48) + (JS.code d - 48) =? y)
  | _ => false
  end.

Definition years_1000_to_9999 : list Z :=
  map (fun i => 1000 + Z.of_nat i) (seq 0 (Z.to_nat 9000)).

Definition march_14th_evening : LocalDate :=
  {| getFullYear := 2024; getMonth := 2; getDate := 14 |}.
Definition december_15th : LocalDate :=
  {| getFullYear := 2024; getMonth := 11; getDate := 15 |}.

(** ** [lib/storage.js]

    A JavaScript object is the list of its properties, each name once;
    what the code does with an object is read through [lookup].  The text
    kept in [localStorage] goes through [JSON.stringify] and [JSON.parse],
    which belong to the surroundings. *)

#[local] Unset Elimination Schemes.
Inductive json : Type :=
| JNull
| JBool (b : bool)
| JNum (n : JS.number)
| JStr (s : string)
| JArr (l : list json)
| JObj (o : list (string * json)).
#[local] Set Elimination Schemes.

Definition object : Type := list (string * json).

Fixpoint drop_key (k : string) (o : object) : object :=
  match o with
  | [] => []
  | (k', v) :: r =>
      if String.eqb k' k then drop_key k r else (k', v) :: drop_key k r
  end.

(** [{ ...o, k: v }] *)
Definition put (k : string) (v : json) (o : object) : object :=
  (k, v) :: drop_key k o.

Definition truthy_json (j : json) : bool :=
  match j with
  | JNull => false
  | JBool b => b
  | JNum n => JS.truthy n
  | JStr s => negb (JS.is_empty s)
  | JArr _ | JObj _ => true
  end.

Fixpoint indexed {A} (f : A -> json) (i : Z) (l : list A) : object :=
  match l with
  | [] => []
  | x :: r => (String_of_int i, f x) :: indexed f (i + 1) r
  end.

(** The properties that [{ ...j }] copies from a value. *)
Definition own_props (j : json) : object :=
  match j with
  | JObj o => o
  | JArr l => indexed (fun x => x) 0 l
  | JStr s => indexed (fun c => JStr (String c EmptyString)) 0
                (list_ascii_of_string s)
  | _ => []
  end.

(** [j.k] for one of the names the code reads (version, cachedCurrencies,
    useConversion), which only an object can have; [j] is not null. *)
Definition field (j : json) (k : string) : option json :=
  match j with
  | JObj o => lookup k o
  | _ => None
  end.

(** [j.k || dflt] *)
Definition field_or (j : json) (k : string) (dflt : json) : json :=
  match field j k with
  | Some v => if truthy_json v then v else dflt
  | None => dflt
  end.

Inductive DiskEvent : Type :=
| Warned (label error_name : string)
| Errored (label error_name : string).

(** [localStorage] and what the module reads besides it. *)
Record Disk : Type := {
  (** [localStorage.getItem(KEY)] *)
  item : option string;
  (** the error every access to [localStorage] throws, if it is blocked *)
  denied : option string;
  (** the error [setItem] throws for a text that does not fit *)
  quota : string -> option string;
  (** [JSON.parse]; [None] when it throws its SyntaxError *)
  JSON_parse : string -> option json;
  JSON_stringify : object -> string;
  disk_now : Z;
  (** console lines so far, the latest first *)
  disk_log : list DiskEvent
}.

Definition with_item (d : Disk) (i : option string) : Disk :=
  {| item := i; denied := denied d; quota := quota d;
     JSON_parse := JSON_parse d; JSON_stringify := JSON_stringify d;
     disk_now := disk_now d; disk_log := disk_log d |}.

Definition logged (d : Disk) (ev : DiskEvent) : Disk :=
  {| item := item d; denied := denied d; quota := quota d;
     JSON_parse := JSON_parse d; JSON_stringify := JSON_stringify d;
     disk_now := disk_now d; disk_log := ev :: disk_log d |}.

(** [localStorage.setItem(KEY, text)]: the disk after it, or the name of
    the error it throws. *)
Definition setItem (d : Disk) (text : string) : Disk + string :=
  match denied d with
  | Some e => inr e
  | None =>
      match quota d text with
      | Some e => inr e
      | None => inl (with_item d (Some text))
      end
  end.

Definition essential_keys : list string :=
  ["balance"; "srcCurrency"; "dstCurrency"; "paydate"; "useConversion";
   "provider"; "apiKey"].

(** The object literal [essential]; a property whose value is undefined
    is not written by [JSON.stringify]. *)
Fixpoint pick (ks : list string) (o : object) : object :=
  match ks with
  | [] => []
  | k :: r =>
      match lookup k o with
      | Some v => (k, v) :: pick r o
      | None => pick r o
      end
  end.

Definition dataToSave (obj : object) (now : Z) : object :=
  put "lastSaved" (JNum (JS.of_Z now)) (put "version" (JStr "v2") obj).

Definition essential (obj : object) : object :=
  (pick essential_keys obj ++ [("version", JStr "v2")])%list.

Definition saveState (obj : object) (d : Disk) : Disk :=
  match setItem d (JSON_stringify d (dataToSave obj (disk_now d))) with
  | inl d' => d'
  | inr error =>
      let d := logged d (Warned "Storage failed:" error) in
      if String.eqb error "QuotaExceededError" then
        match setItem d (JSON_stringify d (essential obj)) with
        | inl d' => d'
        | inr retryError =>
            logged d (Errored "Failed to save even essential data:" retryError)
        end
      else d
  end.

Definition load_failed (d : Disk) (error : string) : object * Disk :=
  ([], logged d (Warned "Failed to load state from localStorage:" error)).

Definition migrated (parsed : json) : object :=
  put "useConversion" (field_or parsed "useConversion" (JBool false))
    (put "cachedCurrencies" (field_or parsed "cachedCurrencies" JNull)
       (put "version" (JStr "v2") (own_props parsed))).

(** [v === 'v2'] *)
Definition is_v2 (v : option json) : bool :=
  match v with
  | Some (JStr s) => String.eqb s "v2"
  | _ => false
  end.

Definition loadState (d : Disk) : object * Disk :=
  match denied d with
  | Some e => load_failed d e
  | None =>
      match item d with
      | None => ([], d)
      | Some raw =>
          if JS.is_empty raw then ([], d)
          else
            match JSON_parse d raw with
            | None => load_failed d "SyntaxError"
            | Some JNull => load_failed d "TypeError"
            | Some parsed =>
                if is_v2 (field parsed "version") then (own_props parsed, d)
                else (migrated parsed, saveState (migrated parsed) d)
            end
      end
  end.

Definition clearState (d : Disk) : bool * Disk :=
  match denied d with
  | Some e => (false, logged d (Warned "Failed to clear state:" e))
  | None => (true, with_item d None)
  end.

(** *** A sample disk *)

Definition saved_v1 : object :=
  [("balance", JStr "1,200"); ("paydate", JStr "2024-03-15");
   ("useConversion", JBool true)].

(** A disk whose codec knows one text, "saved", standing for [o]. *)
Definition has_key (k : string) (ks : list string) : bool :=
  existsb (fun k' => String.eqb k' k) ks.

(** A disk with room for the essential fields only: an object with a
    [lastSaved] property prints as "full", which does not fit, and any
    other as "saved", which stands for [o]. *)
Definition tight_disk (o : object) : Disk :=
  {| item := None; denied := None;
     quota := fun t => if String.eqb t "full" then Some "QuotaExceededError"
                       else None;
     JSON_parse := fun t => if String.eqb t "saved" then Some (JObj o) else None;
     JSON_stringify := fun x => match lookup "lastSaved" x with
                                | Some _ => "full"
                                | None => "saved"
                                end;
     disk_now := march_1st; disk_log := [] |}.

Definition disk_of (o : object) (i : option string) (limit : option string)
  : Disk :=
  {| item := i; denied := None; quota := fun _ => limit;
     JSON_parse := fun t => if String.eqb t "saved" then Some (JObj o) else None;
     JSON_stringify := fun _ => "saved";
     disk_now := march_1st; disk_log := [] |}.

(** ** The number animation *)

(** The effect that follows [perDay] (App.jsx, "Animate number changes").
    It reads [state.lastPerDay] and, when the new value differs from it by
    more than 0.01, counts from the floor of the old value to the floor of
    the new one within a second, one frame per call of [animate]; otherwise
    it shows the new value at once.  The arithmetic it needs beyond that of
    the derived calculations; every sum is rounded to binary64 as the
    others are: *)

Definition add (a b : JS.number) : JS.number :=
  match a, b with
  | JS.NaN, _ | _, JS.NaN => JS.NaN
  | JS.PInf, JS.NInf | JS.NInf, JS.PInf => JS.NaN
  | JS.PInf, _ | _, JS.PInf => JS.PInf
  | JS.NInf, _ | _, JS.NInf => JS.NInf
  | JS.Fin x, JS.Fin y => JS.binary64 (x + y)
  end.

Definition Math_abs (a : JS.number) : JS.number :=
  match a with
  | JS.NaN => JS.NaN
  | JS.PInf | JS.NInf => JS.PInf
  | JS.Fin q => JS.Fin (Qabs q)
  end.

Definition Math_min (a b : JS.number) : JS.number :=
  match a, b with
  | JS.NaN, _ | _, JS.NaN => JS.NaN
  | _, _ => if JS.ltb b a then b else a
  end.

(** [a === b] on numbers: NaN is not equal to itself. *)
Definition strict_eq (a b : JS.number) : bool :=
  match a, b with
  | JS.PInf, JS.PInf | JS.NInf, JS.NInf => true
  | JS.Fin x, JS.Fin y => Qeq_bool x y
  | _, _ => false
  end.

(** What the animation writes to: the [animatedValue] cell, the state, and
    the record of every value handed to [setAnimatedValue], latest first. *)
Record Screen : Type := {
  animatedValue : option JS.number;
  screen_state : State;
  frames : list (option JS.number)
}.

Definition setAnimatedValue (u : Screen) (v : option JS.number) : Screen :=
  {| animatedValue := v; screen_state := screen_state u;
     frames := v :: frames u |}.

Definition set_lastPerDay (s : State) (v : JS.number) : State :=
  {| balance := balance s; srcCurrency := srcCurrency s;
     dstCurrency := dstCurrency s; paydate := paydate s;
     useConversion := useConversion s; provider := provider s;
     apiKey := apiKey s; lastRate := lastRate s;
     cachedCurrencies := cachedCurrencies s; lastPerDay := Some v |}.

(** [setState(s => ({ ...s, lastPerDay: v }))] *)
Definition keep_lastPerDay (u : Screen) (v : JS.number) : Screen :=
  {| animatedValue := animatedValue u;
     screen_state := set_lastPerDay (screen_state u) v;
     frames := frames u |}.

Definition duration : JS.number := JS.of_Z 1000.

(** [Math.min(elapsed / duration, 1)] for [elapsed = Date.now() - startTime]. *)
Definition progress_at (startTime now : Z) : JS.number :=
  let elapsed := JS.sub (JS.of_Z now) (JS.of_Z startTime) in
  Math_min (JS.div elapsed duration) (JS.of_Z 1).

(** The numeric literal [0.01]. *)
Definition one_hundredth : JS.number := JS.binary64 (1 # 100).

(** [lastValue !== perDay && Math.abs(lastValue - perDay) > 0.01] *)
Definition changed (lastValue perDay : JS.number) : bool :=
  negb (strict_eq lastValue perDay)
  && JS.gtb (Math_abs (JS.sub lastValue perDay)) one_hundredth.

Section Animation.

(** [Math.pow]: ECMAScript leaves its result to the engine ("an
    implementation-approximated Number value"), so the engine's function
    is a parameter of the animation. *)
Variable Math_pow : JS.number -> JS.number -> JS.number.

(** Ease out cubic. *)
Definition easeProgress (progress : JS.number) : JS.number :=
  JS.sub (JS.of_Z 1) (Math_pow (JS.sub (JS.of_Z 1) progress) (JS.of_Z 3)).

Definition currentValue (startValue endValue progress : JS.number)
  : JS.number :=
  JS.Math_floor
    (add startValue
       (JS.mul (JS.sub endValue startValue) (easeProgress progress))).

(** [animate]: [ticks] are the readings of [Date.now()] in its successive
    calls, the first made at once and each further one by
    [requestAnimationFrame]; when the list ends no further frame has
    come. *)
Fixpoint animate (startValue endValue : JS.number) (startTime : Z)
  (ticks : list Z) (u : Screen) : Screen :=
  match ticks with
  | [] => u
  | now :: later =>
      let progress := progress_at startTime now in
      let u := setAnimatedValue u
                 (Some (currentValue startValue endValue progress)) in
      if JS.ltb progress (JS.of_Z 1)
      then animate startValue endValue startTime later u
      else keep_lastPerDay (setAnimatedValue u None) endValue
  end.

(** One run of the effect for the value [perDay] of the derived
    calculations; [startTime] is the reading of [Date.now()] it takes
    before the first frame. *)
Definition animation_effect (perDay : option JS.number) (startTime : Z)
  (ticks : list Z) (u : Screen) : Screen :=
  match perDay with
  | None => u
  | Some p =>
      match lastPerDay (screen_state u) with
      | Some lastValue =>
          if changed lastValue p
          then animate (JS.Math_floor lastValue) (JS.Math_floor p)
                 startTime ticks u
          else setAnimatedValue u (Some p)
      | None => keep_lastPerDay (setAnimatedValue u (Some p)) p
      end
  end.

End Animation.

(** What the animation needs of the engine's [Math.pow]: the cube of 0 is
    0, as ECMAScript requires, and the cube of a number from 0 to 1 is a
    number from 0 to 1. *)
Definition cube_in_unit (Math_pow : JS.number -> JS.number -> JS.number)
  : Prop :=
  Math_pow (JS.of_Z 0) (JS.of_Z 3) = JS.of_Z 0
  /\ forall x, (0 <= x)%Q -> (x <= 1)%Q ->
       exists c, Math_pow (JS.Fin x) (JS.of_Z 3) = JS.Fin c
                 /\ (0 <= c)%Q /\ (c <= 1)%Q.

(** A sample engine: powers with an exponent that is a whole number from 0
    to 16, correctly rounded. *)
Definition pow_rounded (a b : JS.number) : JS.number :=
  match a, b with
  | JS.Fin x, JS.Fin y =>
      if Qeq_bool y (inject_Z (Qfloor y)) && (0 <=? Qfloor y) && (Qfloor y <=? 16)
      then JS.binary64 (Qpower x (Qfloor y))
      else JS.NaN
  | _, _ => JS.NaN
  end.

(** A screen that has shown nothing yet. *)
Definition screen_of (s : State) : Screen :=
  {| animatedValue := None; screen_state := s; frames := [] |}.

(** A whole number of 310 digits: a one followed by 309 zeros. *)
Definition digits_310 : string :=
  "1" ++ String.concat "" (List.repeat "0" 309).

(** * Properties *)

(** ** Arithmetic of binary64 *)

Lemma pow2_pos e : (0 < JS.pow2 e)%Q.
Proof. apply Qpower_0_lt. reflexivity. Qed.

Lemma pow2_add a b : (JS.pow2 (a + b) == JS.pow2 a * JS.pow2 b)%Q.
Proof. apply Qpower_plus. discriminate. Qed.

Lemma pow2_le a b : a <= b -> (JS.pow2 a <= JS.pow2 b)%Q.
Proof. intros H. apply Qpower_le_compat_l; [exact H | discriminate]. Qed.

Lemma pow2_lt a b : a < b -> (JS.pow2 a < JS.pow2 b)%Q.
Proof. intros H. apply Qpower_lt_compat_l; [exact H | reflexivity]. Qed.

Lemma pow2_lt_inv a b : (JS.pow2 a < JS.pow2 b)%Q -> a < b.
Proof. intros H. apply (Qpower_lt_compat_l_inv 2); [exact H | reflexivity]. Qed.

Lemma pow2_Z n : 0 <= n -> (JS.pow2 n == inject_Z (2 ^ n))%Q.
Proof. intros H. symmetry. apply (Zpower_Qpower 2 n H). Qed.

Lemma pow2_succ e : (JS.pow2 (e + 1) == 2 * JS.pow2 e)%Q.
Proof. rewrite pow2_add. change (JS.pow2 1) with 2%Q. ring. Qed.

Lemma ilog2_bounds (q : Q) :
  (0 < q)%Q ->
  let k := Z.log2 (Qnum q) - Z.log2 (Zpos (Qden q)) in
  (JS.pow2 (k - 1) < q)%Q /\ (q < JS.pow2 (k + 1))%Q.
Proof.
  intros Hq k. destruct q as [n d]. cbn [Qnum Qden] in *.
  assert (Hn : 0 < n) by (unfold Qlt in Hq; simpl in Hq; lia).
  set (a := Z.log2 n) in *. set (b := Z.log2 (Zpos d)) in *.
  destruct (Z.log2_spec n Hn) as [Ha1 Ha2]. fold a in Ha1, Ha2.
  destruct (Z.log2_spec (Zpos d) ltac:(lia)) as [Hb1 Hb2]. fold b in Hb1, Hb2.
  assert (Ha0 : 0 <= a) by apply Z.log2_nonneg.
  assert (Hb0 : 0 <= b) by apply Z.log2_nonneg.
  assert (HA := pow2_Z a Ha0). assert (HB := pow2_Z b Hb0).
  assert (HA' := pow2_succ a). assert (HB' := pow2_succ b).
  rewrite Z.pow_succ_r in Ha2, Hb2 by assumption.
  assert (Hqd : (n # d == inject_Z n / inject_Z (Zpos d))%Q) by apply Qmake_Qdiv.
  assert (Hd : (0 < inject_Z (Zpos d))%Q) by reflexivity.
  rewrite Zle_Qle in Ha1, Hb1. rewrite Zlt_Qlt in Ha2, Hb2.
  rewrite inject_Z_mult in Ha2, Hb2.
  rewrite <- HA in Ha1, Ha2. rewrite <- HB in Hb1, Hb2.
  change (inject_Z 2) with 2%Q in *.
  assert (Hk1 : (JS.pow2 (k - 1) * (2 * JS.pow2 b) == JS.pow2 a)%Q).
  { rewrite <- HB', <- pow2_add. subst k. replace (a - b - 1 + (b + 1)) with a by lia. reflexivity. }
  assert (Hk2 : (JS.pow2 (k + 1) * JS.pow2 b == 2 * JS.pow2 a)%Q).
  { rewrite <- HA', <- pow2_add. subst k. replace (a - b + 1 + b) with (a + 1) by lia. reflexivity. }
  pose proof (pow2_pos b) as Hpb. pose proof (pow2_pos (k - 1)) as Hpk1.
  pose proof (pow2_pos (k + 1)) as Hpk2.
  rewrite Hqd.
  split.
  - apply Qlt_shift_div_l; [exact Hd |]. nra.
  - apply Qlt_shift_div_r; [exact Hd |]. nra.
Qed.

Lemma ilog2_spec (q : Q) :
  (0 < q)%Q -> (JS.pow2 (JS.ilog2 q) <= q)%Q /\ (q < JS.pow2 (JS.ilog2 q + 1))%Q.
Proof.
  intros Hq. destruct (ilog2_bounds q Hq) as [Hlo Hhi]. unfold JS.ilog2.
  set (k := Z.log2 (Qnum q) - Z.log2 (Zpos (Qden q))) in *.
  destruct (Qle_bool (JS.pow2 k) q) eqn:E.
  - apply Qle_bool_iff in E. split; assumption.
  - assert (Hlt : (q < JS.pow2 k)%Q).
    { apply Qnot_le_lt. intros H. apply Qle_bool_iff in H. congruence. }
    replace (k - 1 + 1) with k by lia.
    split; [now apply Qlt_le_weak | exact Hlt].
Qed.

Lemma ilog2_unique (q : Q) (k : Z) :
  (JS.pow2 k <= q)%Q -> (q < JS.pow2 (k + 1))%Q -> JS.ilog2 q = k.
Proof.
  intros H1 H2.
  assert (Hq : (0 < q)%Q) by (eapply Qlt_le_trans; [apply pow2_pos | exact H1]).
  destruct (ilog2_spec q Hq) as [S1 S2].
  assert (k < JS.ilog2 q + 1).
  { apply pow2_lt_inv. eapply Qle_lt_trans; eassumption. }
  assert (JS.ilog2 q < k + 1).
  { apply pow2_lt_inv. eapply Qle_lt_trans; eassumption. }
  lia.
Qed.

Lemma ilog2_comp (p q : Q) : (0 < p)%Q -> (p == q)%Q -> JS.ilog2 p = JS.ilog2 q.
Proof.
  intros Hp H. destruct (ilog2_spec p Hp) as [S1 S2].
  symmetry. apply ilog2_unique; rewrite <- H; assumption.
Qed.

Lemma ilog2_mono (p q : Q) : (0 < p)%Q -> (p <= q)%Q -> JS.ilog2 p <= JS.ilog2 q.
Proof.
  intros Hp H.
  assert (Hq : (0 < q)%Q) by (eapply Qlt_le_trans; eassumption).
  destruct (ilog2_spec p Hp) as [S1 _]. destruct (ilog2_spec q Hq) as [_ T2].
  assert (JS.ilog2 p < JS.ilog2 q + 1); [| lia].
  apply pow2_lt_inv. eapply Qle_lt_trans; [exact S1 |].
  eapply Qle_lt_trans; eassumption.
Qed.

(** Rounding to the JS.nearest integer, ties to even *)

Lemma round_half_even_cases (x : Q) :
  let f := Qfloor x in
  (inject_Z f <= x)%Q /\ (x < inject_Z f + 1)%Q
  /\ ((JS.round_half_even x = f /\ (x - inject_Z f <= 1 # 2)%Q
       /\ ((x - inject_Z f == 1 # 2)%Q -> Z.even f = true))
      \/ (JS.round_half_even x = f + 1 /\ (1 # 2 <= x - inject_Z f)%Q
          /\ ((x - inject_Z f == 1 # 2)%Q -> Z.even f = false))).
Proof.
  intros f. pose proof (Qfloor_le x) as H1. pose proof (Qlt_floor x) as H2.
  fold f in H1, H2. rewrite inject_Z_plus in H2. change (inject_Z 1) with 1%Q in H2.
  split; [exact H1 |]. split; [exact H2 |].
  unfold JS.round_half_even. fold f.
  destruct (Qcompare_spec (x - inject_Z f) (1 # 2)) as [E | L | G].
  - destruct (Z.even f) eqn:Ev.
    + left. split; [reflexivity |]. split; [rewrite E; apply Qle_refl | intros _; reflexivity].
    + right. split; [reflexivity |]. split; [rewrite E; apply Qle_refl | intros _; reflexivity].
  - left. split; [reflexivity |]. split; [now apply Qlt_le_weak |].
    intros E. rewrite E in L. discriminate L.
  - right. split; [reflexivity |]. split; [now apply Qlt_le_weak |].
    intros E. rewrite E in G. discriminate G.
Qed.

Lemma round_half_even_error (x : Q) :
  (x - (1 # 2) <= inject_Z (JS.round_half_even x))%Q
  /\ (inject_Z (JS.round_half_even x) <= x + (1 # 2))%Q.
Proof.
  destruct (round_half_even_cases x) as (H1 & H2 & [(E & H & _) | (E & H & _)]);
    rewrite E; [| rewrite inject_Z_plus; change (inject_Z 1) with 1%Q]; split; lra.
Qed.

Lemma round_half_even_mono (x y : Q) :
  (x <= y)%Q -> JS.round_half_even x <= JS.round_half_even y.
Proof.
  intros Hxy. pose proof (Qfloor_resp_le x y Hxy) as Hf.
  destruct (round_half_even_cases x) as (X1 & X2 & HX).
  destruct (round_half_even_cases y) as (Y1 & Y2 & HY).
  destruct (Z.eq_dec (Qfloor x) (Qfloor y)) as [Ef | Nf].
  - rewrite Ef in *.
    destruct HX as [(EX & _) | (EX & HX1 & HX2)];
      destruct HY as [(EY & HY1 & HY2) | (EY & _)]; rewrite EX, EY; try lia.
    assert (Ex : (x - inject_Z (Qfloor y) == 1 # 2)%Q) by lra.
    assert (Ey : (y - inject_Z (Qfloor y) == 1 # 2)%Q) by lra.
    rewrite (HX2 Ex) in HY2. specialize (HY2 Ey). discriminate HY2.
  - destruct HX as [(EX & _) | (EX & _)];
      destruct HY as [(EY & _) | (EY & _)]; rewrite EX, EY; lia.
Qed.

Lemma round_half_even_Z (z : Z) : JS.round_half_even (inject_Z z) = z.
Proof.
  unfold JS.round_half_even. rewrite Qfloor_Z.
  replace (Qcompare (inject_Z z - inject_Z z) (1 # 2)) with Lt; [reflexivity |].
  symmetry. apply (proj1 (Qlt_alt _ _)). lra.
Qed.

Lemma round_half_even_comp (x y : Q) :
  (x == y)%Q -> JS.round_half_even x = JS.round_half_even y.
Proof.
  intros H. apply Z.le_antisymm; apply round_half_even_mono; rewrite H; apply Qle_refl.
Qed.

(** The JS.nearest JS.binary64 magnitude *)

Lemma exponent_comp (a b : Q) : (0 < a)%Q -> (a == b)%Q -> JS.exponent a = JS.exponent b.
Proof. intros Ha H. unfold JS.exponent. now rewrite (ilog2_comp a b Ha H). Qed.

Lemma nearest_comp (a b : Q) : (0 < a)%Q -> (a == b)%Q -> (JS.nearest a == JS.nearest b)%Q.
Proof.
  intros Ha H. unfold JS.nearest, JS.significand.
  rewrite (exponent_comp a b Ha H).
  rewrite (round_half_even_comp (a / JS.pow2 (JS.exponent b)) (b / JS.pow2 (JS.exponent b)));
    [reflexivity | now rewrite H].
Qed.

Lemma exponent_min (a : Q) : -1074 <= JS.exponent a.
Proof. unfold JS.exponent. lia. Qed.

Lemma scaled_eq (a : Q) (e : Z) : (a / JS.pow2 e * JS.pow2 e == a)%Q.
Proof.
  rewrite Qmult_comm. apply Qmult_div_r.
  intros H. pose proof (pow2_pos e) as P. rewrite H in P. discriminate P.
Qed.

Lemma scaled_lt (a : Q) :
  (0 < a)%Q -> (a / JS.pow2 (JS.exponent a) < inject_Z (2 ^ 53))%Q.
Proof.
  intros Ha. destruct (ilog2_spec a Ha) as [_ H].
  apply Qlt_shift_div_r; [apply pow2_pos |].
  rewrite <- (pow2_Z 53) by lia. rewrite <- pow2_add.
  eapply Qlt_le_trans; [exact H |]. apply pow2_le. unfold JS.exponent. lia.
Qed.

Lemma scaled_ge (a : Q) :
  (0 < a)%Q -> -1074 < JS.exponent a ->
  (inject_Z (2 ^ 52) <= a / JS.pow2 (JS.exponent a))%Q.
Proof.
  intros Ha He. destruct (ilog2_spec a Ha) as [H _].
  apply Qle_shift_div_l; [apply pow2_pos |].
  rewrite <- (pow2_Z 52) by lia. rewrite <- pow2_add.
  eapply Qle_trans; [| exact H]. apply pow2_le. unfold JS.exponent in *. lia.
Qed.

Lemma significand_upper (a : Q) : (0 < a)%Q -> JS.significand a <= 2 ^ 53.
Proof.
  intros Ha. unfold JS.significand.
  rewrite <- (round_half_even_Z (2 ^ 53)).
  apply round_half_even_mono, Qlt_le_weak, scaled_lt, Ha.
Qed.

Lemma significand_lower (a : Q) :
  (0 < a)%Q -> -1074 < JS.exponent a -> 2 ^ 52 <= JS.significand a.
Proof.
  intros Ha He. unfold JS.significand.
  rewrite <- (round_half_even_Z (2 ^ 52)).
  apply round_half_even_mono, scaled_ge; assumption.
Qed.

Lemma significand_nonneg (a : Q) : (0 <= a)%Q -> 0 <= JS.significand a.
Proof.
  intros Ha. unfold JS.significand.
  rewrite <- (round_half_even_Z 0).
  apply round_half_even_mono. apply Qle_shift_div_l; [apply pow2_pos |].
  rewrite Qmult_0_l. exact Ha.
Qed.

Lemma nearest_nonneg (a : Q) : (0 <= a)%Q -> (0 <= JS.nearest a)%Q.
Proof.
  intros Ha. unfold JS.nearest. apply Qmult_le_0_compat.
  - change 0%Q with (inject_Z 0). rewrite <- Zle_Qle. now apply significand_nonneg.
  - apply Qlt_le_weak, pow2_pos.
Qed.

Lemma nearest_upper (a : Q) :
  (0 < a)%Q -> (JS.nearest a <= JS.pow2 (JS.exponent a + 53))%Q.
Proof.
  intros Ha. unfold JS.nearest. rewrite Z.add_comm, pow2_add, (pow2_Z 53) by lia.
  apply Qmult_le_compat_r; [| apply Qlt_le_weak, pow2_pos].
  rewrite <- Zle_Qle. now apply significand_upper.
Qed.

Lemma nearest_lower (a : Q) :
  (0 < a)%Q -> -1074 < JS.exponent a -> (JS.pow2 (JS.exponent a + 52) <= JS.nearest a)%Q.
Proof.
  intros Ha He. unfold JS.nearest. rewrite Z.add_comm, pow2_add, (pow2_Z 52) by lia.
  apply Qmult_le_compat_r; [| apply Qlt_le_weak, pow2_pos].
  rewrite <- Zle_Qle. now apply significand_lower.
Qed.

Lemma nearest_error (a : Q) :
  (a - JS.pow2 (JS.exponent a - 1) <= JS.nearest a)%Q
  /\ (JS.nearest a <= a + JS.pow2 (JS.exponent a - 1))%Q.
Proof.
  unfold JS.nearest, JS.significand. set (e := JS.exponent a).
  pose proof (round_half_even_error (a / JS.pow2 e)) as [H1 H2].
  pose proof (scaled_eq a e) as Hs. pose proof (pow2_pos e) as Hp.
  pose proof (pow2_succ (e - 1)) as Hh. replace (e - 1 + 1) with e in Hh by lia.
  set (m := inject_Z (JS.round_half_even (a / JS.pow2 e))) in *.
  set (x := (a / JS.pow2 e)%Q) in *. set (P := JS.pow2 e) in *.
  set (h := JS.pow2 (e - 1)) in *.
  split; nra.
Qed.

Lemma nearest_mono (a b : Q) :
  (0 < a)%Q -> (a <= b)%Q -> (JS.nearest a <= JS.nearest b)%Q.
Proof.
  intros Ha Hab.
  assert (Hb : (0 < b)%Q) by (eapply Qlt_le_trans; eassumption).
  pose proof (ilog2_mono a b Ha Hab) as Hl.
  assert (He : JS.exponent a <= JS.exponent b) by (unfold JS.exponent; lia).
  destruct (Z.eq_dec (JS.exponent a) (JS.exponent b)) as [E | N].
  - unfold JS.nearest, JS.significand. rewrite E.
    apply Qmult_le_compat_r; [| apply Qlt_le_weak, pow2_pos].
    rewrite <- Zle_Qle. apply round_half_even_mono.
    apply Qmult_le_compat_r; [exact Hab |].
    apply Qinv_le_0_compat, Qlt_le_weak, pow2_pos.
  - eapply Qle_trans; [apply nearest_upper, Ha |].
    eapply Qle_trans; [| apply nearest_lower; [exact Hb |]].
    + apply pow2_le. lia.
    + pose proof (exponent_min a). lia.
Qed.

Lemma nearest_Z (z : Z) :
  0 < z <= 2 ^ 53 -> (JS.nearest (inject_Z z) == inject_Z z)%Q.
Proof.
  intros [Hz1 Hz2].
  destruct (Z.eq_dec z (2 ^ 53)) as [-> | Hne]; [vm_compute; reflexivity |].
  destruct (Z.log2_spec z Hz1) as [L1 L2].
  assert (L0 : 0 <= Z.log2 z) by apply Z.log2_nonneg.
  assert (Hk : JS.ilog2 (inject_Z z) = Z.log2 z).
  { apply ilog2_unique.
    - rewrite pow2_Z by assumption. now rewrite <- Zle_Qle.
    - rewrite pow2_Z by lia. rewrite <- Zlt_Qlt. exact L2. }
  assert (L52 : Z.log2 z <= 52).
  { assert (Z.log2 z < 53); [| lia]. apply Z.log2_lt_pow2; lia. }
  unfold JS.nearest, JS.significand, JS.exponent. rewrite Hk.
  rewrite Z.max_l by lia. set (k := Z.log2 z) in *.
  pose proof (pow2_add (k - 52) (52 - k)) as Hinv.
  replace (k - 52 + (52 - k)) with 0 in Hinv by lia.
  change (JS.pow2 0) with 1%Q in Hinv.
  pose proof (pow2_Z (52 - k) ltac:(lia)) as HP'.
  pose proof (pow2_pos (k - 52)) as HP.
  assert (Hs : (inject_Z z / JS.pow2 (k - 52) == inject_Z (z * 2 ^ (52 - k)))%Q).
  { rewrite inject_Z_mult, <- HP'. unfold Qdiv.
    assert (Hn : ~ (JS.pow2 (k - 52) == 0)%Q) by (intros H; rewrite H in HP; discriminate HP).
    assert (Hi : (/ JS.pow2 (k - 52) == JS.pow2 (52 - k))%Q).
    { apply (Qmult_inj_l _ _ (JS.pow2 (k - 52)) Hn).
      rewrite Qmult_inv_r by exact Hn. exact Hinv. }
    rewrite Hi. reflexivity. }
  rewrite (round_half_even_comp _ _ Hs), round_half_even_Z.
  rewrite inject_Z_mult, <- HP'. rewrite <- Qmult_assoc, (Qmult_comm (JS.pow2 (52 - k))), <- Hinv.
  ring.
Qed.

Lemma binary64_zero (q : Q) : (q == 0)%Q -> JS.binary64 q = JS.Fin 0.
Proof.
  intros H. unfold JS.binary64.
  assert (E : Qnum q = 0) by (unfold Qeq in H; simpl in H; lia).
  rewrite E. reflexivity.
Qed.

Lemma binary64_pos (q : Q) :
  (0 < q)%Q ->
  JS.binary64 q = if Qle_bool (JS.pow2 1024) (JS.nearest q) then JS.PInf
               else JS.Fin (Qred (JS.nearest q)).
Proof.
  intros H. destruct q as [n d].
  assert (Hn : 0 < n) by (unfold Qlt in H; simpl in H; lia).
  unfold JS.binary64, JS.Qsgn, JS.inf_of_sign. cbn [Qnum].
  destruct n as [| n | n]; try lia.
  reflexivity.
Qed.

Lemma binary64_neg (q : Q) :
  (q < 0)%Q ->
  JS.binary64 q = if Qle_bool (JS.pow2 1024) (JS.nearest (- q)) then JS.NInf
               else JS.Fin (Qred (- JS.nearest (- q))).
Proof.
  intros H. destruct q as [n d].
  assert (Hn : n < 0) by (unfold Qlt in H; simpl in H; lia).
  unfold JS.binary64, JS.Qsgn, JS.inf_of_sign. cbn [Qnum].
  destruct n as [| n | n]; try lia.
  reflexivity.
Qed.

Lemma binary64_comp (p q : Q) : (p == q)%Q -> JS.binary64 p = JS.binary64 q.
Proof.
  intros H. destruct (Q_dec p 0) as [[Hp | Hp] | Hp].
  - assert (Hq : (q < 0)%Q) by now rewrite <- H.
    rewrite (binary64_neg p Hp), (binary64_neg q Hq).
    assert (Hp' : (0 < - p)%Q) by lra.
    assert (E : (JS.nearest (- p) == JS.nearest (- q))%Q)
      by (apply nearest_comp; [exact Hp' | now rewrite H]).
    assert (B : Qle_bool (JS.pow2 1024) (JS.nearest (- p))
                = Qle_bool (JS.pow2 1024) (JS.nearest (- q))) by (rewrite E; reflexivity).
    assert (R : Qred (- JS.nearest (- p)) = Qred (- JS.nearest (- q)))
      by (apply Qred_complete; rewrite E; reflexivity).
    rewrite B, R. reflexivity.
  - assert (Hq : (0 < q)%Q) by now rewrite <- H.
    rewrite (binary64_pos p Hp), (binary64_pos q Hq).
    assert (E : (JS.nearest p == JS.nearest q)%Q) by (apply nearest_comp; assumption).
    assert (B : Qle_bool (JS.pow2 1024) (JS.nearest p)
                = Qle_bool (JS.pow2 1024) (JS.nearest q)) by (rewrite E; reflexivity).
    assert (R : Qred (JS.nearest p) = Qred (JS.nearest q)) by (apply Qred_complete; exact E).
    rewrite B, R. reflexivity.
  - rewrite (binary64_zero p Hp). symmetry. apply binary64_zero. now rewrite <- H.
Qed.

Lemma Qle_bool_false (x y : Q) : Qle_bool x y = false <-> (y < x)%Q.
Proof.
  split; intros H.
  - apply Qnot_le_lt. intros L. apply Qle_bool_iff in L. congruence.
  - destruct (Qle_bool x y) eqn:E; [| reflexivity].
    apply Qle_bool_iff in E. exfalso. apply (Qlt_not_le _ _ H E).
Qed.

Lemma binary64_nonneg (q : Q) :
  (0 <= q)%Q -> JS.leb (JS.Fin 0) (JS.binary64 q) = true.
Proof.
  intros H. destruct (Qle_lt_or_eq _ _ H) as [Hp | Hz].
  - rewrite (binary64_pos q Hp). destruct (Qle_bool _ _); [reflexivity |].
    cbn [JS.leb]. apply Qle_bool_iff. rewrite Qred_correct. apply nearest_nonneg, H.
  - rewrite (binary64_zero q); [reflexivity | now symmetry].
Qed.

Lemma binary64_nonpos (q : Q) :
  (q <= 0)%Q -> JS.leb (JS.binary64 q) (JS.Fin 0) = true.
Proof.
  intros H. destruct (Qle_lt_or_eq _ _ H) as [Hp | Hz].
  - rewrite (binary64_neg q Hp). destruct (Qle_bool _ _); [reflexivity |].
    cbn [JS.leb]. apply Qle_bool_iff. rewrite Qred_correct.
    assert (0 <= JS.nearest (- q))%Q by (apply nearest_nonneg; lra). lra.
  - rewrite (binary64_zero q Hz). reflexivity.
Qed.

Lemma leb_trans (a b c : JS.number) :
  JS.leb a b = true -> JS.leb b c = true -> JS.leb a c = true.
Proof.
  destruct a, b, c; cbn; try congruence.
  intros H1 H2. apply Qle_bool_iff in H1, H2. apply Qle_bool_iff.
  eapply Qle_trans; eassumption.
Qed.

Lemma binary64_mono (p q : Q) :
  (p <= q)%Q -> JS.leb (JS.binary64 p) (JS.binary64 q) = true.
Proof.
  intros H. destruct (Q_dec p 0) as [[Hp | Hp] | Hp].
  - destruct (Qlt_le_dec q 0) as [Hq | Hq].
    + rewrite (binary64_neg p Hp), (binary64_neg q Hq).
      assert (Hm : (JS.nearest (- q) <= JS.nearest (- p))%Q) by (apply nearest_mono; lra).
      destruct (Qle_bool (JS.pow2 1024) (JS.nearest (- p))) eqn:Bp;
        [destruct (Qle_bool (JS.pow2 1024) (JS.nearest (- q))); reflexivity |].
      destruct (Qle_bool (JS.pow2 1024) (JS.nearest (- q))) eqn:Bq.
      * apply Qle_bool_iff in Bq. apply Qle_bool_false in Bp. lra.
      * cbn [JS.leb]. apply Qle_bool_iff. rewrite !Qred_correct. lra.
    + eapply leb_trans; [apply binary64_nonpos | apply binary64_nonneg]; lra.
  - assert (Hq : (0 < q)%Q) by lra.
    rewrite (binary64_pos p Hp), (binary64_pos q Hq).
    assert (Hm : (JS.nearest p <= JS.nearest q)%Q) by (apply nearest_mono; assumption).
    destruct (Qle_bool (JS.pow2 1024) (JS.nearest q)) eqn:Bq;
      [destruct (Qle_bool (JS.pow2 1024) (JS.nearest p)); reflexivity |].
    destruct (Qle_bool (JS.pow2 1024) (JS.nearest p)) eqn:Bp.
    + apply Qle_bool_iff in Bp. apply Qle_bool_false in Bq. lra.
    + cbn [JS.leb]. apply Qle_bool_iff. rewrite !Qred_correct. exact Hm.
  - rewrite (binary64_zero p Hp). apply binary64_nonneg. lra.
Qed.

Lemma Qred_inject_Z (z : Z) : Qred (inject_Z z) = inject_Z z.
Proof.
  unfold Qred, inject_Z.
  pose proof (Z.ggcd_gcd z 1) as G. pose proof (Z.ggcd_correct_divisors z 1) as D.
  destruct (Z.ggcd z 1) as [g [a b]]. cbn in *.
  rewrite Z.gcd_1_r in G. subst g. destruct D as [D1 D2].
  rewrite Z.mul_1_l in D1, D2. subst a b. reflexivity.
Qed.

Lemma pow2_1024_above (z : Z) : z <= 2 ^ 53 -> (inject_Z z < JS.pow2 1024)%Q.
Proof.
  intros H. rewrite pow2_Z by lia. rewrite <- Zlt_Qlt.
  eapply Z.le_lt_trans; [exact H |]. apply Z.pow_lt_mono_r; lia.
Qed.

Lemma binary64_Z (z : Z) : Z.abs z <= 2 ^ 53 -> JS.binary64 (inject_Z z) = JS.of_Z z.
Proof.
  intros Hz. unfold JS.of_Z.
  destruct (Z.lt_trichotomy z 0) as [Hn | [-> | Hp]].
  - assert (Hq : (inject_Z z < 0)%Q) by (change 0%Q with (inject_Z 0); now rewrite <- Zlt_Qlt).
    rewrite (binary64_neg _ Hq).
    assert (E : (JS.nearest (- inject_Z z) == inject_Z (- z))%Q).
    { rewrite <- inject_Z_opp. apply nearest_Z. lia. }
    assert (B : Qle_bool (JS.pow2 1024) (JS.nearest (- inject_Z z)) = false).
    { apply Qle_bool_false. rewrite E. apply pow2_1024_above. lia. }
    rewrite B. f_equal.
    assert (R : Qred (- JS.nearest (- inject_Z z)) = Qred (inject_Z z))
      by (apply Qred_complete; rewrite E, inject_Z_opp; ring).
    rewrite R. apply Qred_inject_Z.
  - reflexivity.
  - assert (Hq : (0 < inject_Z z)%Q) by (change 0%Q with (inject_Z 0); now rewrite <- Zlt_Qlt).
    rewrite (binary64_pos _ Hq).
    assert (E : (JS.nearest (inject_Z z) == inject_Z z)%Q) by (apply nearest_Z; lia).
    assert (B : Qle_bool (JS.pow2 1024) (JS.nearest (inject_Z z)) = false).
    { apply Qle_bool_false. rewrite E. apply pow2_1024_above. lia. }
    rewrite B. f_equal. rewrite (Qred_complete _ _ E). apply Qred_inject_Z.
Qed.


(** ** Sanity checks of the number and date models *)

Example Number_3000 : JS.Number_of_string "3000" = JS.of_Z 3000.
Proof. reflexivity. Qed.
Example Number_dec : JS.Number_of_string " 12.50 " = JS.Fin (25 # 2).
Proof. reflexivity. Qed.
Example Number_exp :
  JS.Number_of_string "-1.5e-2"
  = JS.Fin (-1080863910568919 # 72057594037927936).
Proof. vm_compute. reflexivity. Qed.
Example Number_bad : JS.Number_of_string "1.2.3" = JS.NaN.
Proof. reflexivity. Qed.
Example Number_dot : JS.Number_of_string "." = JS.NaN.
Proof. reflexivity. Qed.
Example Number_hex : JS.Number_of_string "0x1F" = JS.of_Z 31.
Proof. reflexivity. Qed.
Example toFixed_rate : JS.toFixed (fun _ => ""%string) 4 (rate_1_1) = "1.1000"%string.
Proof. reflexivity. Qed.
Example toFixed_small : JS.toFixed (fun _ => ""%string) 4 (JS.Fin (-1 # 100000)) = "-0.0000"%string.
Proof. reflexivity. Qed.
Example toFixed_round : JS.toFixed (fun _ => ""%string) 2 (JS.Fin (1995 # 1000)) = "2.00"%string.
Proof. reflexivity. Qed.
Example parse_march_10 :
  Date.parse (fun _ => 0) false "2024-03-10T23:59:59" = JS.of_Z 1710115199000.
Proof. reflexivity. Qed.
Example parse_month_13 :
  Date.parse (fun _ => 0) true "2024-13-45T23:59:59" = JS.NaN.
Proof. reflexivity. Qed.
Example Number_blank : JS.Number_of_string "  " = JS.of_Z 0.
Proof. reflexivity. Qed.
Example Number_inf : JS.Number_of_string "-Infinity" = JS.NInf.
Proof. reflexivity. Qed.
Example balance_grouped :
  parsed_balance (with_paydate
    {| balance := Some "1,234,567.5"; srcCurrency := "EUR"; dstCurrency := "USD";
       paydate := ""; useConversion := false; provider := "frankfurter";
       apiKey := ""; lastRate := None; cachedCurrencies := None;
       lastPerDay := None |} "2024-03-10") = JS.Fin (2469135 # 2).
Proof. reflexivity. Qed.
Example parse_offset :
  Date.parse (fun _ => hour) false "1970-01-01T23:59:59" = JS.of_Z 82799000.
Proof. reflexivity. Qed.

(** A value below [2^(k+1)] in magnitude is rounded by at most
    [2^(k-53)], and not to an infinity. *)
Lemma binary64_within (x : Q) (k : Z) :
  -1022 <= k < 1023 ->
  (Qabs x < JS.pow2 (k + 1))%Q ->
  exists r, JS.binary64 x = JS.Fin r
            /\ (x - JS.pow2 (k - 53) <= r)%Q /\ (r <= x + JS.pow2 (k - 53))%Q.
Proof.
  intros Hk Hx.
  assert (Hstep : forall a, (0 < a)%Q -> (a < JS.pow2 (k + 1))%Q ->
            Qle_bool (JS.pow2 1024) (JS.nearest a) = false
            /\ (a - JS.pow2 (k - 53) <= JS.nearest a)%Q
            /\ (JS.nearest a <= a + JS.pow2 (k - 53))%Q).
  { intros a Ha Hlt.
    destruct (ilog2_spec a Ha) as [S1 _].
    assert (Hl : JS.ilog2 a < k + 1).
    { apply pow2_lt_inv. eapply Qle_lt_trans; eassumption. }
    assert (He : JS.exponent a <= k - 52) by (unfold JS.exponent; lia).
    destruct (nearest_error a) as [E1 E2].
    pose proof (pow2_le (JS.exponent a - 1) (k - 53) ltac:(lia)) as Hp.
    split; [| split; lra].
    apply Qle_bool_false.
    eapply Qle_lt_trans; [apply nearest_upper, Ha |].
    apply pow2_lt. lia. }
  destruct (Q_dec x 0) as [[Hn | Hp] | Hz].
  - rewrite (binary64_neg x Hn).
    rewrite Qabs_neg in Hx by lra.
    destruct (Hstep (- x)%Q ltac:(lra) Hx) as (B & E1 & E2).
    rewrite B. eexists. split; [reflexivity |].
    rewrite Qred_correct. split; lra.
  - rewrite (binary64_pos x Hp).
    rewrite Qabs_pos in Hx by lra.
    destruct (Hstep x Hp Hx) as (B & E1 & E2).
    rewrite B. eexists. split; [reflexivity |].
    rewrite Qred_correct. split; assumption.
  - rewrite (binary64_zero x Hz). exists 0%Q. split; [reflexivity |].
    pose proof (pow2_pos (k - 53)). rewrite Hz. split; lra.
Qed.

Lemma Qceiling_unique (r : Q) (c : Z) :
  (inject_Z c - 1 < r)%Q -> (r <= inject_Z c)%Q -> Qceiling r = c.
Proof.
  intros H1 H2.
  pose proof (Qceiling_resp_le _ _ H2) as Hu. rewrite Qceiling_Z in Hu.
  pose proof (Qle_ceiling r) as Hl.
  assert (Hc : (inject_Z (c - 1) < inject_Z (Qceiling r))%Q).
  { unfold Z.sub. rewrite inject_Z_plus, inject_Z_opp.
    change (inject_Z 1) with 1%Q. lra. }
  rewrite <- Zlt_Qlt in Hc. lia.
Qed.

Lemma Qfloor_unique (r : Q) (f : Z) :
  (inject_Z f <= r)%Q -> (r < inject_Z f + 1)%Q -> Qfloor r = f.
Proof.
  intros H1 H2.
  pose proof (Qfloor_resp_le _ _ H1) as Hl. rewrite Qfloor_Z in Hl.
  pose proof (Qfloor_le r) as Hu.
  assert (Hc : (inject_Z (Qfloor r) < inject_Z (f + 1))%Q).
  { rewrite inject_Z_plus. change (inject_Z 1) with 1%Q. lra. }
  rewrite <- Zlt_Qlt in Hc. lia.
Qed.

Lemma sub_of_Z (a b : Z) :
  Z.abs (a - b) <= 2 ^ 53 -> JS.sub (JS.of_Z a) (JS.of_Z b) = JS.of_Z (a - b).
Proof.
  intros H. unfold JS.of_Z at 1 2. cbn [JS.sub].
  rewrite <- (binary64_Z (a - b) H). apply binary64_comp.
  unfold Z.sub. rewrite inject_Z_plus, inject_Z_opp. reflexivity.
Qed.

(** ** Arithmetic of the day count *)

Lemma Qceiling_ratio (a : Z) (x : Q) :
  (x == inject_Z a / inject_Z day)%Q -> Qceiling x = - ((- a) / day).
Proof.
  intros H. rewrite H. unfold Qceiling. f_equal.
  assert (E : (- (inject_Z a / inject_Z day) == Qmake (- a) 86400000)%Q).
  { unfold Qeq, Qdiv, Qmult, Qinv, Qopp, inject_Z, day. simpl. lia. }
  rewrite E. reflexivity.
Qed.

(** The quotient of a whole number of milliseconds by the length of the day
    is rounded by less than the 86400000th of a day that separates it from
    the next whole number of days: its ceiling is the exact one. *)
Lemma ceil_of_days (D : Z) :
  Z.abs D <= 2 ^ 53 ->
  JS.Math_ceil (JS.div (JS.of_Z D) (JS.of_Z day)) = JS.of_Z (- ((- D) / day)).
Proof.
  intros HD. set (c := - ((- D) / day)).
  assert (Hc : Qceiling (inject_Z D / inject_Z day) = c)
    by (apply Qceiling_ratio; reflexivity).
  assert (Hday : 0 < day) by reflexivity.
  assert (Hbounds : (c - 1) * day < D <= c * day).
  { subst c. pose proof (Z.div_mod (- D) day ltac:(lia)).
    pose proof (Z.mod_pos_bound (- D) day Hday). nia. }
  unfold JS.of_Z at 1 2. cbn [JS.div].
  change (Qnum (inject_Z day) =? 0) with false. cbv iota.
  set (x := (inject_Z D / inject_Z day)%Q).
  assert (Hx : (x * inject_Z day == inject_Z D)%Q).
  { subst x. rewrite Qmult_comm. apply Qmult_div_r. discriminate. }
  assert (Hdq : (inject_Z day == 86400000)%Q) by reflexivity.
  destruct Hbounds as [B1 B2].
  assert (B2z := B2).
  assert (B1' : (c - 1) * day + 1 <= D) by lia.
  rewrite Zle_Qle, inject_Z_plus, inject_Z_mult in B1'. unfold Z.sub in B1'.
  rewrite inject_Z_plus, inject_Z_opp in B1'.
  change (inject_Z 1) with 1%Q in B1'.
  rewrite Zlt_Qlt in B1. rewrite Zle_Qle in B2.
  rewrite inject_Z_mult in B1, B2. unfold Z.sub in B1.
  rewrite inject_Z_plus, inject_Z_opp in B1. change (inject_Z 1) with 1%Q in B1.
  rewrite Z.abs_le in HD. destruct HD as [D1 D2].
  rewrite Zle_Qle in D1, D2. rewrite inject_Z_opp in D1.
  assert (P53 : (inject_Z (2 ^ 53) == 9007199254740992)%Q) by reflexivity.
  destruct (Z.eq_dec D (c * day)) as [E | N].
  - (* a whole number of days *)
    assert (Ex : (x == inject_Z c)%Q).
    { subst x. rewrite E, inject_Z_mult. field. discriminate. }
    rewrite (binary64_comp _ _ Ex), binary64_Z.
    + unfold JS.of_Z, JS.Math_ceil. now rewrite Qceiling_Z.
    + rewrite E in D1, D2. rewrite inject_Z_mult in D1, D2.
      apply Z.abs_le. split.
      * rewrite Zle_Qle, inject_Z_opp.
        destruct (Z.le_gt_cases 0 c) as [P | P];
          rewrite ?Zle_Qle, ?Zlt_Qlt in P; change (inject_Z 0) with 0%Q in P; nra.
      * rewrite Zle_Qle.
        destruct (Z.le_gt_cases 0 c) as [P | P];
          rewrite ?Zle_Qle, ?Zlt_Qlt in P; change (inject_Z 0) with 0%Q in P; nra.
  - assert (B2' : D + 1 <= c * day) by (clear - B2z N; lia).
    rewrite Zle_Qle, inject_Z_plus, inject_Z_mult in B2'.
    change (inject_Z 1) with 1%Q in B2'.
    destruct (binary64_within x 26) as (r & Hr & R1 & R2); [lia | |].
    + apply Qabs_Qlt_condition.
      assert (P27 : (JS.pow2 (26 + 1) == 134217728)%Q) by reflexivity.
      rewrite P27. split; nra.
    + rewrite Hr. unfold JS.Math_ceil, JS.of_Z. do 2 f_equal.
      assert (P : (JS.pow2 (26 - 53) == 1 # 134217728)%Q) by reflexivity.
      rewrite P in R1, R2.
      apply Qceiling_unique.
      * rewrite Hdq in Hx, B1'. lra.
      * assert (Hm : JS.leb (JS.binary64 x) (JS.binary64 (inject_Z c)) = true).
        { apply binary64_mono. nra. }
        rewrite Hr, binary64_Z in Hm.
        -- cbn [JS.leb JS.of_Z] in Hm. now apply Qle_bool_iff in Hm.
        -- apply Z.abs_le. split.
           ++ rewrite Zle_Qle, inject_Z_opp. nra.
           ++ rewrite Zle_Qle. nra.
Qed.

Lemma parse_range tz ro s pay :
  Date.parse tz ro s = JS.of_Z pay -> Z.abs pay <= 8640000000000000.
Proof.
  unfold Date.parse.
  destruct (Date.read_date s) as [[[[y m] d] r] |]; [| discriminate].
  destruct (Date.read_time r) as [[[h mi] sec] |]; [| discriminate].
  destruct (_ && _); [| discriminate].
  match goal with |- context [Z.abs ?t <=? _] => destruct (Z.leb_spec (Z.abs t) 8640000000000000) as [H | H] end;
    [| discriminate].
  intros E. unfold JS.of_Z in E. inversion E as [E'].
  lia.
Qed.

Lemma days_until_eq env pd pay :
  Date.parse (LocalTZA env) (rolls_days_over env) (pd ++ "T23:59:59")
  = JS.of_Z pay ->
  days_until env pd = JS.of_Z (ceil_days (new_Date env) pay).
Proof.
  intros H. unfold days_until, ceil_days. rewrite H.
  pose proof (parse_range _ _ _ _ H) as Hpay.
  pose proof (clock_valid env) as Hnow. unfold valid_clock in Hnow.
  apply Z.leb_le in Hnow. change (2 ^ 53 - 8640000000000000) with 367199254740992 in Hnow.
  assert (HD : Z.abs (pay - new_Date env) <= 2 ^ 53).
  { change (2 ^ 53) with 9007199254740992. lia. }
  rewrite (sub_of_Z _ _ HD), (ceil_of_days _ HD).
  replace (- (pay - new_Date env)) with (new_Date env - pay) by lia.
  reflexivity.
Qed.

Lemma ceil_days_future now pay : now < pay -> 1 <= ceil_days now pay.
Proof.
  intros H. unfold ceil_days.
  assert ((now - pay) / day < 0); [| lia].
  apply Z.div_lt_upper_bound; unfold day; lia.
Qed.

Lemma ceil_days_past now pay : pay <= now -> ceil_days now pay <= 0.
Proof.
  intros H. unfold ceil_days.
  assert (0 <= (now - pay) / day); [| lia].
  apply Z.div_pos; unfold day; lia.
Qed.

Lemma leb_of_Z a b : JS.leb (JS.of_Z a) (JS.of_Z b) = (a <=? b).
Proof.
  unfold JS.leb, JS.of_Z.
  destruct (Z.leb_spec a b) as [H | H].
  - apply Qle_bool_iff. rewrite <- Zle_Qle. exact H.
  - destruct (Qle_bool (inject_Z a) (inject_Z b)) eqn:E; [| reflexivity].
    apply Qle_bool_iff in E. rewrite <- Zle_Qle in E. lia.
Qed.

Lemma positive_truthy n : positive n -> JS.truthy n = true.
Proof.
  unfold positive, JS.ltb, JS.of_Z.
  destruct n as [| | | q]; try congruence; try reflexivity.
  destruct (Qcompare_spec (inject_Z 0) q) as [E | L | G]; try congruence.
  intros _. unfold Qlt in L. simpl in L. unfold JS.truthy.
  destruct (Z.eqb_spec (Qnum q) 0); [lia | reflexivity].
Qed.


Lemma binary64_number q : JS.binary64 q <> JS.NaN.
Proof.
  unfold JS.binary64, JS.inf_of_sign.
  destruct (Qnum q =? 0); [discriminate |].
  destruct (Qle_bool _ _); [| discriminate].
  destruct (JS.Qsgn q <? 0); discriminate.
Qed.


(** ** The three ways out of the derived calculations *)

Lemma no_date_in_time_alone tz ro :
  Date.parse tz ro ("" ++ "T23:59:59") = JS.NaN.
Proof. reflexivity. Qed.

(** The derived calculations, without the console. *)
Lemma compute_eq env state :
  compute env state =
    let out := out0 in
    let balance := parsed_balance state in
    if negb (JS.truthy balance) || JS.is_empty (paydate state) then out
    else
      let days := days_until env (paydate state) in
      if JS.leb days (JS.of_Z 0) then set_error out "Choose a future payday."
      else
        let out := set_daysLeft out days in
        let out := set_amountDisplay out
                     (formatMoney env balance (srcCurrency state)) in
        let originalPerDay := JS.Math_floor (JS.div balance days) in
        match conversion_rate state with
        | Some r =>
            let convertedAmount := JS.mul balance (value r) in
            let convertedPerDay :=
              JS.Math_floor (JS.div convertedAmount days) in
            let out := set_convertedDisplay out
                         (formatMoney env convertedAmount (dstCurrency state)) in
            let out := set_perDay out convertedPerDay in
            let rateAge := Date_now env - timestamp r in
            let isStale := day <? rateAge in
            set_rateLine out
              (rate_text env state r ++ (if isStale then " (cached)" else ""))
        | None => set_perDay out originalPerDay
        end.
Proof.
  unfold compute, compute_io, formatMoney. cbv zeta.
  destruct (negb _ || _); [reflexivity |].
  destruct (JS.leb _ _); [reflexivity |].
  destruct (conversion_rate state); reflexivity.
Qed.

Lemma paydate_given env state pay :
  end_of_day env state = JS.of_Z pay -> JS.is_empty (paydate state) = false.
Proof.
  unfold end_of_day. destruct (paydate state); [| reflexivity].
  rewrite no_date_in_time_alone. discriminate.
Qed.

(** Not enough input yet. *)
Lemma compute_neutral env state :
  JS.truthy (parsed_balance state) = false \/ paydate state = "" ->
  compute env state = out0.
Proof.
  intros [H | H]; rewrite compute_eq; cbv zeta.
  - rewrite H. reflexivity.
  - rewrite H. rewrite orb_true_r. reflexivity.
Qed.

(** The payday is over. *)
Lemma compute_past env state pay :
  JS.truthy (parsed_balance state) = true ->
  end_of_day env state = JS.of_Z pay ->
  pay <= new_Date env ->
  compute env state = set_error out0 "Choose a future payday.".
Proof.
  intros Hb Hp Hle. rewrite compute_eq. cbv zeta.
  rewrite Hb, (paydate_given _ _ _ Hp). cbn [negb orb].
  rewrite (days_until_eq _ _ _ Hp), leb_of_Z.
  pose proof (ceil_days_past _ _ Hle).
  destruct (Z.leb_spec (ceil_days (new_Date env) pay) 0); [reflexivity | lia].
Qed.

(** The payday is ahead. *)
Lemma compute_future env state pay :
  JS.truthy (parsed_balance state) = true ->
  end_of_day env state = JS.of_Z pay ->
  new_Date env < pay ->
  compute env state =
    let days := JS.of_Z (ceil_days (new_Date env) pay) in
    let b := parsed_balance state in
    let out := set_amountDisplay (set_daysLeft out0 days)
                 (formatMoney env b (srcCurrency state)) in
    match conversion_rate state with
    | Some r =>
        set_rateLine
          (set_perDay
             (set_convertedDisplay out
                (formatMoney env (JS.mul b (value r)) (dstCurrency state)))
             (JS.Math_floor (JS.div (JS.mul b (value r)) days)))
          (rate_text env state r
           ++ (if day <? Date_now env - timestamp r then " (cached)" else ""))
    | None => set_perDay out (JS.Math_floor (JS.div b days))
    end.
Proof.
  intros Hb Hp Hlt. rewrite compute_eq. cbv zeta.
  rewrite Hb, (paydate_given _ _ _ Hp). cbn [negb orb].
  rewrite (days_until_eq _ _ _ Hp), leb_of_Z.
  pose proof (ceil_days_future _ _ Hlt).
  destruct (Z.leb_spec (ceil_days (new_Date env) pay) 0); [lia | reflexivity].
Qed.

(** ** The per-day budget in the source currency *)


(** [Math.floor] of a finite number is the whole number at or below it. *)
Lemma floor_is_whole x :
  exists n, JS.Math_floor (JS.Fin x) = JS.of_Z n
            /\ (inject_Z n <= x)%Q /\ (x < inject_Z n + 1)%Q.
Proof.
  exists (Qfloor x). split; [reflexivity |]. split; [apply Qfloor_le |].
  pose proof (Qlt_floor x) as H. rewrite inject_Z_plus in H. exact H.
Qed.




(** ** The per-day budget in the target currency *)

Lemma append_empty (s : string) : s ++ "" = s.
Proof. induction s as [| c r IH]; simpl; [reflexivity | now rewrite IH]. Qed.

Lemma conversion_rate_matched state r :
  useConversion state = true ->
  srcCurrency state <> dstCurrency state ->
  lastRate state = Some r ->
  from r = srcCurrency state ->
  to r = dstCurrency state ->
  conversion_rate state = Some r.
Proof.
  intros Hu Hne Hr Hf Ht. unfold conversion_rate, identity_matched.
  rewrite Hu, Hr, Hf, Ht, !String.eqb_refl.
  apply String.eqb_neq in Hne. rewrite Hne. reflexivity.
Qed.

(** The product and the quotient are rounded to binary64 one after the
    other: 4.35 times 100 is 434.99999999999994, not 435. *)
Example product_is_rounded :
  JS.Math_floor (JS.div (JS.mul (JS.Number_of_string "4.35") (JS.of_Z 100))
                        (JS.of_Z 1))
  = JS.of_Z 434.
Proof. vm_compute. reflexivity. Qed.



(** ** A payday that is over *)

(** C3. With a positive parsed balance and a paydate whose end of day,
    23:59:59 local time, is now or earlier, the day count
    [ceil((end of day - now) / day)] is at most zero, [error] is
    "Choose a future payday." and [perDay] is null; this includes a day
    count of exactly zero, which an end of day within the last 24 hours
    gives. *)
Theorem past_payday_is_an_error env state pay :
  positive (parsed_balance state) ->
  end_of_day env state = JS.of_Z pay ->
  pay <= new_Date env ->
  let d := compute env state in
  days_until env (paydate state) = JS.of_Z (ceil_days (new_Date env) pay)
  /\ ceil_days (new_Date env) pay <= 0
  /\ (new_Date env - day < pay -> ceil_days (new_Date env) pay = 0)
  /\ error d = "Choose a future payday."
  /\ perDay d = None.
Proof.
  intros Hpos Hp Hle d. subst d.
  rewrite (compute_past _ _ _ (positive_truthy _ Hpos) Hp Hle).
  repeat split.
  - apply days_until_eq. exact Hp.
  - apply ceil_days_past. exact Hle.
  - intros Hrecent. unfold ceil_days.
    rewrite Z.div_small; [reflexivity | unfold day in *; lia].
Qed.

Lemma past_payday_is_an_error_witness :
  error (compute (utc_at 1709337599000 eq_refl) (with_paydate eur_3000 "2024-03-01"))
  = "Choose a future payday."
  /\ perDay (compute (utc_at 1709337599000 eq_refl) (with_paydate eur_3000 "2024-03-01"))
     = None.
Proof.
  refine (proj2 (proj2 (proj2
    (past_payday_is_an_error (utc_at 1709337599000 eq_refl)
       (with_paydate eur_3000 "2024-03-01") 1709337599000 _ _ _))));
    reflexivity.
Defined.

(** ** A rate for another pair of currencies *)

Lemma conversion_rate_mismatch state r :
  lastRate state = Some r ->
  (from r, to r) <> (srcCurrency state, dstCurrency state) ->
  conversion_rate state = None.
Proof.
  intros Hr Hne. unfold conversion_rate, identity_matched. rewrite Hr.
  destruct (String.eqb_spec (from r) (srcCurrency state)) as [Ef | Nf];
    destruct (String.eqb_spec (to r) (dstCurrency state)) as [Et | Nt];
    cbn [andb]; try (destruct (_ && _); reflexivity).
  exfalso. apply Hne. congruence.
Qed.

Lemma compute_without_rate env state :
  conversion_rate state = None ->
  compute env state = compute env (clear_lastRate state).
Proof.
  intros H.
  assert (H' : conversion_rate (clear_lastRate state) = None).
  { unfold conversion_rate. cbn. destruct (_ && _); reflexivity. }
  rewrite !compute_eq. cbv zeta. rewrite H, H'. reflexivity.
Qed.

Lemma compute_source_only env state :
  conversion_rate state = None ->
  let d := compute env state in
  convertedDisplay d = None /\ rateLine d = ""
  /\ (forall p, perDay d = Some p ->
        p = JS.Math_floor (JS.div (parsed_balance state) (daysLeft d))).
Proof.
  intros H. rewrite compute_eq. cbv zeta. rewrite H.
  destruct (negb _ || _); [cbn; repeat split; discriminate |].
  destruct (JS.leb _ _); cbn; repeat split; try discriminate.
  intros p Hp. congruence.
Qed.

(** C4. A [lastRate] whose pair (from, to) differs from the current pair of
    currencies is never used, whatever its timestamp: the result is the one
    computed without any rate, [convertedDisplay] stays null, [rateLine]
    stays empty, and a [perDay] that is computed is the floor of the
    balance in the source currency over the days left. *)
Theorem mismatched_rate_is_never_used env state r :
  lastRate state = Some r ->
  (from r, to r) <> (srcCurrency state, dstCurrency state) ->
  let d := compute env state in
  d = compute env (clear_lastRate state)
  /\ convertedDisplay d = None
  /\ rateLine d = ""
  /\ (forall p, perDay d = Some p ->
        p = JS.Math_floor (JS.div (parsed_balance state) (daysLeft d)))
  /\ (forall t, compute env (set_lastRate state (with_timestamp r t)) = d).
Proof.
  intros Hr Hne d. subst d.
  pose proof (conversion_rate_mismatch _ _ Hr Hne) as Hc.
  destruct (compute_source_only env state Hc) as (H1 & H2 & H3).
  repeat split; try assumption.
  - apply compute_without_rate. exact Hc.
  - intros t.
    rewrite (compute_without_rate env state Hc).
    rewrite (compute_without_rate env (set_lastRate state (with_timestamp r t))).
    + reflexivity.
    + apply (conversion_rate_mismatch _ (with_timestamp r t));
        [reflexivity | exact Hne].
Qed.

Lemma mismatched_rate_is_never_used_witness :
  convertedDisplay
    (compute noon
       (eur_usd_2200 (Some (rate_11 (march_1st + 10 * hour) "GBP" "USD"))))
  = None
  /\ perDay
       (compute noon
          (eur_usd_2200 (Some (rate_11 (march_1st + 10 * hour) "GBP" "USD"))))
     = Some (JS.of_Z 220).
Proof.
  destruct (mismatched_rate_is_never_used noon
              (eur_usd_2200 (Some (rate_11 (march_1st + 10 * hour) "GBP" "USD")))
              (rate_11 (march_1st + 10 * hour) "GBP" "USD"))
    as (_ & Hd & _ & _ & _).
  - reflexivity.
  - discriminate.
  - split; [exact Hd | reflexivity].
Defined.

(** ** Not enough input yet *)

(** C7. When the balance is absent, or parses (separators stripped) to
    zero, or when the paydate is empty, the result is the neutral one:
    [perDay] null, [daysLeft] 0 and no error. *)
Theorem neutral_without_input env state :
  balance state = None
  \/ (exists b q, balance state = Some b
                  /\ JS.Number_of_string (JS.remove_commas b) = JS.Fin q
                  /\ (q == 0)%Q)
  \/ paydate state = "" ->
  let d := compute env state in
  d = out0 /\ perDay d = None /\ daysLeft d = JS.of_Z 0 /\ error d = "".
Proof.
  intros H d. subst d.
  assert (E : compute env state = out0).
  { apply compute_neutral.
    destruct H as [H | [(b & q & Hb & Hq & Hz) | H]].
    - left. unfold parsed_balance. rewrite H. reflexivity.
    - left. unfold parsed_balance. rewrite Hb.
      destruct (JS.is_empty (JS.remove_commas b)); [reflexivity |].
      rewrite Hq. unfold JS.truthy.
      unfold Qeq in Hz. simpl in Hz.
      destruct (Z.eqb_spec (Qnum q) 0); [reflexivity | lia].
    - right. exact H. }
  rewrite E. repeat split.
Qed.

Lemma neutral_without_input_witness :
  compute noon
    {| balance := Some "0.00"; srcCurrency := "EUR"; dstCurrency := "USD";
       paydate := "2024-03-10"; useConversion := false;
       provider := "frankfurter"; apiKey := ""; lastRate := None;
       cachedCurrencies := None; lastPerDay := None |} = out0.
Proof.
  refine (proj1 (neutral_without_input noon _ _)).
  right. left. exists "0.00", (0 # 1)%Q. repeat split.
Defined.

(** ** What the derived calculations depend on, and what they leave behind *)














(** ** The outcomes of the derived calculations *)

Lemma parse_cases tz ro s :
  Date.parse tz ro s = JS.NaN \/ exists tv, Date.parse tz ro s = JS.of_Z tv.
Proof.
  unfold Date.parse.
  destruct (Date.read_date s) as [[[[y m] d] r] |]; [| now left].
  destruct (Date.read_time r) as [[[h mi] sec] |]; [| now left].
  destruct (_ && _); [| now left].
  destruct (_ <=? _); [right; eexists; reflexivity | now left].
Qed.

Lemma compute_cases env state :
  let d := compute env state in
  d = out0
  \/ d = set_error out0 "Choose a future payday."
  \/ (JS.leb (days_until env (paydate state)) (JS.of_Z 0) = false
      /\ daysLeft d = days_until env (paydate state)
      /\ error d = ""
      /\ exists amount,
           perDay d = Some (JS.Math_floor
                              (JS.div amount (days_until env (paydate state))))).
Proof.
  rewrite compute_eq. cbv zeta.
  destruct (negb _ || _); [now left |].
  destruct (JS.leb _ _) eqn:E; [right; now left |].
  right; right.
  destruct (conversion_rate state); cbn; repeat split; eexists; reflexivity.
Qed.

(** C10. For a paydate that is empty or a date, as the payday field and the
    default produce it: a non-empty [error] comes with [perDay] null,
    [daysLeft] 0, [convertedDisplay] null and an empty [rateLine]; a
    non-null [perDay] comes with an empty [error] and a [daysLeft] that is
    a whole number of at least 1; and every result is the neutral one, an
    error without [perDay], or a [perDay] without error, never an error
    together with a [perDay]. *)
Theorem derived_outcomes env state :
  paydate state = "" \/ (exists pay, end_of_day env state = JS.of_Z pay) ->
  let d := compute env state in
  (error d <> "" ->
     perDay d = None /\ daysLeft d = JS.of_Z 0
     /\ convertedDisplay d = None /\ rateLine d = "")
  /\ (perDay d <> None ->
        error d = ""
        /\ JS.geb (daysLeft d) (JS.of_Z 1) = true
        /\ exists n, daysLeft d = JS.of_Z n /\ 1 <= n)
  /\ (d = out0
      \/ (error d = "Choose a future payday." /\ perDay d = None)
      \/ (perDay d <> None /\ error d = ""))
  /\ ~ (error d <> "" /\ perDay d <> None).
Proof.
  intros Hdate d. subst d.
  destruct (compute_cases env state)
    as [E | [E | (Hd & Hl & He & amount & Hp)]].
  - rewrite E. cbn. repeat split; try congruence. now left.
    intros [H _]. now apply H.
  - rewrite E. cbn. repeat split; try congruence.
    + right; left. split; reflexivity.
    + intros [_ H]. now apply H.
  - assert (Hdays : exists n, days_until env (paydate state) = JS.of_Z n
                              /\ 1 <= n).
    { destruct Hdate as [Hempty | (pay & Hpay)].
      - exfalso. revert Hp. rewrite compute_eq. cbv zeta.
        rewrite Hempty, orb_true_r. discriminate.
      - rewrite (days_until_eq _ _ _ Hpay) in *.
        rewrite leb_of_Z in Hd. apply Z.leb_gt in Hd.
        eexists. split; [reflexivity | lia]. }
    destruct Hdays as (n & Hn & Hn1).
    split; [congruence |]. split.
    + intros _. split; [exact He |]. rewrite Hl, Hn. split.
      * unfold JS.geb. rewrite leb_of_Z. now apply Z.leb_le.
      * exists n. split; [reflexivity | exact Hn1].
    + split.
      * right; right. split; [congruence | exact He].
      * intros [H _]. now apply H.
Qed.

Lemma derived_outcomes_witness :
  error (compute noon eur_3000) = ""
  /\ JS.geb (daysLeft (compute noon eur_3000)) (JS.of_Z 1) = true.
Proof.
  destruct (derived_outcomes noon eur_3000) as (_ & H & _).
  - right. exists 1710115199000. reflexivity.
  - destruct H as (He & Hd & _).
    + vm_compute. discriminate.
    + split; [exact He | exact Hd].
Defined.

(** ** The rate coordinator *)

Lemma fresh_matched state r now :
  lastRate state = Some r ->
  from r = srcCurrency state ->
  to r = dstCurrency state ->
  now - timestamp r < hour ->
  fresh state now = true.
Proof.
  intros Hr Hf Ht Hage. unfold fresh, identity_matched.
  rewrite Hr, Hf, Ht, !String.eqb_refl.
  apply Z.ltb_lt in Hage. rewrite Hage. reflexivity.
Qed.

(** C5. Offline, with conversion switched off, with equal currencies, or
    with a [lastRate] for the current pair that is less than an hour old,
    [maybeFetchRate] returns at once: the world after it is the world
    before it, so no request went out, nothing was logged and the state is
    what it was. *)
Theorem no_fetch_when_not_needed isOnline state w :
  isOnline = false
  \/ useConversion state = false
  \/ srcCurrency state = dstCurrency state
  \/ (exists r, lastRate state = Some r
                /\ from r = srcCurrency state /\ to r = dstCurrency state
                /\ clock w - timestamp r < hour) ->
  maybeFetchRate isOnline state w = (Ok tt, w)
  /\ st (snd (maybeFetchRate isOnline state w)) = st w
  /\ trace (snd (maybeFetchRate isOnline state w)) = trace w.
Proof.
  intros H.
  assert (E : maybeFetchRate isOnline state w = (Ok tt, w)).
  { unfold maybeFetchRate.
    destruct isOnline; cbn [negb]; [| reflexivity].
    destruct (useConversion state) eqn:Hu; cbn [andb negb]; [| reflexivity].
    destruct (String.eqb_spec (srcCurrency state) (dstCurrency state))
      as [Heq | Hne]; cbn [negb]; [reflexivity |].
    destruct H as [H | [H | [H | (r & Hr & Hf & Ht & Hage)]]];
      try discriminate; try contradiction.
    unfold bind, Date_now_M.
    rewrite (fresh_matched _ _ _ Hr Hf Ht Hage). reflexivity. }
  rewrite E. repeat split.
Qed.

Lemma no_fetch_when_not_needed_witness :
  maybeFetchRate true cached_59_minutes (world_with provider_up cached_59_minutes)
  = (Ok tt, world_with provider_up cached_59_minutes).
Proof.
  refine (proj1 (no_fetch_when_not_needed true _ _ _)).
  right; right; right.
  exists (rate_11 (march_1st + 12 * hour - 59 * 60000) "EUR" "USD").
  repeat split.
Defined.

Example encodeURIComponent_key :
  encodeURIComponent "a b&c=d" = "a%20b%26c%3Dd".
Proof. reflexivity. Qed.

Example getRate_same_currency w :
  getRate "EUR" "EUR" "frankfurter" "" w
  = (Ok {| rate_value := JS.of_Z 1; rate_provider := "frankfurter";
           rate_timestamp := clock w; rate_date := None |}, w).
Proof. reflexivity. Qed.

Example getRate_unknown_provider :
  getRate "EUR" "USD" "ecb" "" (world_with provider_up eur_3000)
  = (Throw "Unknown provider: ecb",
     emit (world_with provider_up eur_3000)
       (ConsoleError "Rate fetch failed:" "Unknown provider: ecb")).
Proof. reflexivity. Qed.

Example maybeFetchRate_refreshes :
  let w' := snd (maybeFetchRate true cached_30_hours
                   (world_with provider_up cached_30_hours)) in
  lastRate (st w')
  = Some {| value := rate_1_1; rprovider := "frankfurter";
            timestamp := march_1st + 12 * hour + 250;
            from := "EUR"; to := "USD"; date := Some "2024-03-01" |}
  /\ trace w'
     = [Fetched "https://api.frankfurter.dev/v1/latest?base=EUR&symbols=USD"].
Proof. split; reflexivity. Qed.

Example maybeFetchRate_provider_down :
  trace (snd (maybeFetchRate true cached_30_hours
                (world_with provider_down cached_30_hours)))
  = [ConsoleWarn "Rate fetch failed:" "Failed to fetch";
     ConsoleError "Rate fetch failed:" "Failed to fetch";
     Fetched "https://api.frankfurter.dev/v1/latest?base=EUR&symbols=USD"].
Proof. reflexivity. Qed.

(** Whenever [getRate] runs for two different currencies it leaves an
    event: a request or a console line. *)
Lemma getRate_leaves_a_trace from to provider apiKey w :
  from <> to ->
  (length (trace w) < length (trace (snd (getRate from to provider apiKey w))))%nat.
Proof.
  intros Hne. unfold getRate.
  apply String.eqb_neq in Hne. rewrite Hne.
  run_cases; cbn; lia.
Qed.

Lemma getRate_keeps_state from to provider apiKey w :
  st (snd (getRate from to provider apiKey w)) = st w.
Proof.
  unfold getRate. run_cases; reflexivity.
Qed.

(** What [maybeFetchRate] does once it has decided to ask for a rate. *)
Lemma maybeFetchRate_asks isOnline state w :
  isOnline = true ->
  useConversion state = true ->
  srcCurrency state <> dstCurrency state ->
  fresh state (clock w) = false ->
  maybeFetchRate isOnline state w =
    match rate_request state w with
    | (Ok r, w1) => (Ok tt, with_st w1 (set_lastRate (st w1) (stamp r (st w1))))
    | (Throw e, w1) => (Ok tt, emit w1 (ConsoleWarn "Rate fetch failed:" e))
    end.
Proof.
  intros Ho Hu Hne Hf. unfold maybeFetchRate, rate_request.
  apply String.eqb_neq in Hne. rewrite Ho, Hu, Hne. cbn [negb andb].
  unfold bind at 1. unfold Date_now_M. rewrite Hf.
  unfold try_catch, bind, setState, console_warn.
  destruct (getRate _ _ _ _ w) as [[r | e] w1]; reflexivity.
Qed.

Lemma maybeFetchRate_cases isOnline state w :
  maybeFetchRate isOnline state w = (Ok tt, w)
  \/ (isOnline = true /\ useConversion state = true
      /\ srcCurrency state <> dstCurrency state
      /\ fresh state (clock w) = false).
Proof.
  unfold maybeFetchRate.
  destruct isOnline; cbn [negb]; [| now left].
  destruct (useConversion state); cbn [andb negb]; [| now left].
  destruct (String.eqb_spec (srcCurrency state) (dstCurrency state));
    cbn [negb]; [now left |].
  unfold bind at 1. unfold Date_now_M.
  destruct (fresh state (clock w)) eqn:Hf; [now left |].
  right. repeat split; assumption.
Qed.

(** C6. [maybeFetchRate] never throws.  When the rate fetch fails, whatever
    the error, the state is what it was, [lastRate] included, and the
    failure is a console warning.  The state changes only when the fetch
    succeeds, and then exactly by [lastRate] becoming the fetched rate:
    its value, provider, timestamp and date are those of the rate that
    [getRate] returned and its pair of currencies is the one the state
    holds at that moment, while every other field of the state stays. *)
Theorem fetch_failure_keeps_the_rate isOnline state w :
  let run := maybeFetchRate isOnline state w in
  let call := rate_request state w in
  fst run = Ok tt
  /\ (forall e, fst call = Throw e ->
        st (snd run) = st w
        /\ (snd run = w
            \/ snd run = emit (snd call) (ConsoleWarn "Rate fetch failed:" e)))
  /\ (st (snd run) = st w
      \/ exists r, fst call = Ok r
                   /\ st (snd run) = set_lastRate (st w) (stamp r (st w)))
  /\ (isOnline = true -> useConversion state = true ->
      srcCurrency state <> dstCurrency state ->
      fresh state (clock w) = false ->
      forall r, fst call = Ok r ->
        lastRate (st (snd run))
        = Some {| value := rate_value r; rprovider := rate_provider r;
                  timestamp := rate_timestamp r;
                  from := srcCurrency (st w); to := dstCurrency (st w);
                  date := rate_date r |}
        /\ st (snd run)
           = {| balance := balance (st w); srcCurrency := srcCurrency (st w);
                dstCurrency := dstCurrency (st w); paydate := paydate (st w);
                useConversion := useConversion (st w);
                provider := provider (st w); apiKey := apiKey (st w);
                lastRate := lastRate (st (snd run));
                cachedCurrencies := cachedCurrencies (st w);
                lastPerDay := lastPerDay (st w) |}
        /\ trace (snd run) = trace (snd call)).
Proof.
  intros run call. subst run call.
  pose proof (getRate_keeps_state (srcCurrency state) (dstCurrency state)
                (provider state) (apiKey state) w) as Hst.
  fold (rate_request state) in Hst.
  assert (Hsuccess :
    isOnline = true -> useConversion state = true ->
    srcCurrency state <> dstCurrency state ->
    fresh state (clock w) = false ->
    forall r, fst (rate_request state w) = Ok r ->
      lastRate (st (snd (maybeFetchRate isOnline state w)))
      = Some {| value := rate_value r; rprovider := rate_provider r;
                timestamp := rate_timestamp r;
                from := srcCurrency (st w); to := dstCurrency (st w);
                date := rate_date r |}
      /\ st (snd (maybeFetchRate isOnline state w))
         = {| balance := balance (st w); srcCurrency := srcCurrency (st w);
              dstCurrency := dstCurrency (st w); paydate := paydate (st w);
              useConversion := useConversion (st w);
              provider := provider (st w); apiKey := apiKey (st w);
              lastRate := lastRate (st (snd (maybeFetchRate isOnline state w)));
              cachedCurrencies := cachedCurrencies (st w);
              lastPerDay := lastPerDay (st w) |}
      /\ trace (snd (maybeFetchRate isOnline state w))
         = trace (snd (rate_request state w))).
  { intros Ho Hu Hne Hf r Hr.
    rewrite (maybeFetchRate_asks _ _ _ Ho Hu Hne Hf).
    destruct (rate_request state w) as [[r' | e] w1];
      cbn [fst snd] in *; [| discriminate].
    inversion Hr; subst r'. cbn [st with_st trace]. rewrite Hst.
    repeat split. }
  destruct (maybeFetchRate_cases isOnline state w)
    as [E | (Ho & Hu & Hne & Hf)].
  - split; [rewrite E; reflexivity |].
    split; [rewrite E; intros e _; split; [reflexivity | now left] |].
    split; [rewrite E; now left | exact Hsuccess].
  - split; [| split; [| split; [| exact Hsuccess]]];
      rewrite (maybeFetchRate_asks _ _ _ Ho Hu Hne Hf);
      destruct (rate_request state w) as [[r | e] w1]; cbn [fst snd] in *.
    + reflexivity.
    + reflexivity.
    + discriminate.
    + intros e' He'. inversion He'; subst e'. cbn.
      split; [exact Hst | now right].
    + rewrite Hst. right. exists r. split; reflexivity.
    + left. exact Hst.
Qed.

Lemma fetch_failure_keeps_the_rate_witness :
  fst (maybeFetchRate true cached_30_hours
         (world_with provider_down cached_30_hours)) = Ok tt
  /\ st (snd (maybeFetchRate true cached_30_hours
                (world_with provider_down cached_30_hours))) = cached_30_hours
  /\ lastRate (st (snd (maybeFetchRate true cached_30_hours
                          (world_with provider_up cached_30_hours))))
     = Some {| value := rate_1_1; rprovider := "frankfurter";
               timestamp := march_1st + 12 * hour + 250;
               from := "EUR"; to := "USD"; date := Some "2024-03-01" |}.
Proof.
  destruct (fetch_failure_keeps_the_rate true cached_30_hours
              (world_with provider_down cached_30_hours))
    as (Hok & Hfail & _).
  split; [exact Hok |].
  split; [exact (proj1 (Hfail "Failed to fetch" eq_refl)) |].
  destruct (fetch_failure_keeps_the_rate true cached_30_hours
              (world_with provider_up cached_30_hours))
    as (_ & _ & _ & Hgood).
  exact (proj1 (Hgood eq_refl eq_refl ltac:(discriminate) eq_refl
                  {| rate_value := rate_1_1; rate_provider := "frankfurter";
                     rate_timestamp := march_1st + 12 * hour + 250;
                     rate_date := Some "2024-03-01" |}
                  ltac:(vm_compute; reflexivity))).
Defined.

(** ** The currency catalogue *)

Section SortFacts.
Context {A : Type}.
Variable cmp : A -> A -> Z.
Hypothesis cmp_total : forall a b, cmp a b <= 0 \/ cmp b a <= 0.

Lemma insert_permutation x l : Permutation (x :: l) (insert cmp x l).
Proof.
  induction l as [| y r IH]; simpl; [reflexivity |].
  destruct (cmp y x <=? 0); [| reflexivity].
  transitivity (y :: x :: r); [apply perm_swap | now constructor].
Qed.

Lemma insert_head z x l :
  before cmp z x -> HdRel (before cmp) z l -> HdRel (before cmp) z (insert cmp x l).
Proof.
  intros Hzx Hz. destruct l as [| y r]; simpl; [now constructor |].
  inversion Hz; subst.
  destruct (cmp y x <=? 0); now constructor.
Qed.

Lemma insert_sorted x l :
  Sorted (before cmp) l -> Sorted (before cmp) (insert cmp x l).
Proof.
  induction 1 as [| y r Hs IH Hy]; simpl; [repeat constructor |].
  destruct (Z.leb_spec (cmp y x) 0) as [Hle | Hgt].
  - constructor; [exact IH | now apply insert_head].
  - constructor; [now constructor |].
    constructor. unfold before. destruct (cmp_total x y); lia.
Qed.

Lemma fold_insert_sorted l : forall acc,
  Sorted (before cmp) acc ->
  Sorted (before cmp) (fold_left (fun acc x => insert cmp x acc) l acc).
Proof.
  induction l as [| x r IH]; intros acc Hacc; simpl; [exact Hacc |].
  apply IH, insert_sorted, Hacc.
Qed.

Lemma fold_insert_permutation l : forall acc,
  Permutation (l ++ acc) (fold_left (fun acc x => insert cmp x acc) l acc).
Proof.
  induction l as [| x r IH]; intros acc; simpl; [reflexivity |].
  rewrite <- IH. rewrite <- insert_permutation.
  apply Permutation_middle.
Qed.

Lemma sort_sorted l : Sorted (before cmp) (sort cmp l).
Proof. apply fold_insert_sorted. constructor. Qed.

Lemma sort_permutation l : Permutation l (sort cmp l).
Proof.
  unfold sort. rewrite <- fold_insert_permutation, app_nil_r. reflexivity.
Qed.
End SortFacts.

Lemma compare_code_units_total a : forall b,
  compare_code_units a b <= 0 \/ compare_code_units b a <= 0.
Proof.
  induction a as [| x r IH]; intros [| y r']; simpl; try lia.
  destruct (Z.ltb_spec (JS.code x) (JS.code y));
    destruct (Z.ltb_spec (JS.code y) (JS.code x)); try lia.
  apply IH.
Qed.

(** C9 (counterexample). For a catalogue with BRL, AUD and BGN the result
    is ordered AUD, BGN, BRL: "Bulgarian Lev" comes before "Brazilian
    Real", so the list is not sorted by name. *)
Lemma currencies_not_sorted_by_name :
  exists l,
    fst (listCurrencies (world_with provider_up eur_3000)) = Ok l
    /\ ~ Sorted (by_name (world_with provider_up eur_3000)) l.
Proof.
  eexists. split; [reflexivity |].
  intros H. inversion H as [| x l1 H1 _]; subst.
  inversion H1 as [| y l2 _ Hhd]; subst.
  inversion Hhd as [| z l3 Hle]; subst.
  vm_compute in Hle. apply Hle. reflexivity.
Qed.

(** C9 (amended). Under a collation that orders any two strings,
    [listCurrencies] resolves to the entries (code, name) of the response,
    rearranged so that the codes are in order; it rejects with the error of
    the request when the provider cannot be reached, with "Failed to fetch
    currencies" when the response is not a success, and with the parse
    error when the body is not JSON. *)
Theorem currencies_sorted_by_code w :
  (forall a b, localeCompare w a b <= 0 \/ localeCompare w b a <= 0) ->
  match GET_currencies w with
  | Response true _ _ (Ok json) =>
      exists l, fst (listCurrencies w) = Ok l
                /\ Permutation json l /\ Sorted (by_code w) l
  | Response true _ _ (Throw e) => fst (listCurrencies w) = Throw e
  | Response false _ _ _ =>
      fst (listCurrencies w) = Throw "Failed to fetch currencies"
  | Unreachable e => fst (listCurrencies w) = Throw e
  end.
Proof.
  intros Htotal. unfold listCurrencies, try_catch, bind, fetch.
  destruct (GET_currencies w) as [e | [|] status text [json | e]];
    try reflexivity.
  cbn. eexists. split; [reflexivity |]. split.
  - apply sort_permutation.
  - apply (sort_sorted (entry_cmp w)).
    intros a b. apply Htotal.
Qed.

Lemma currencies_sorted_by_code_witness :
  fst (listCurrencies (world_with provider_up eur_3000))
  = Ok [("AUD", "Australian Dollar"); ("BGN", "Bulgarian Lev");
        ("BRL", "Brazilian Real")].
Proof.
  destruct (currencies_sorted_by_code (world_with provider_up eur_3000)
              compare_code_units_total) as (l & Hl & _ & _).
  rewrite Hl. symmetry. exact Hl.
Defined.

(** * Further properties of the code *)

(** ** [getRate] *)

(** X1. [getRate] sends at most one request, and sends one exactly when
    the currencies differ and the provider is frankfurter, or
    exchangerate-host with an API key; for equal currencies, an unknown
    provider or a missing key nothing goes out. *)
Theorem getRate_requests from to provider apiKey w :
  requests (trace (snd (getRate from to provider apiKey w)))
  = match rate_url from to provider apiKey with
    | Some url => url :: requests (trace w)
    | None => requests (trace w)
    end.
Proof.
  unfold getRate, rate_url, frankfurter_url, exchangerate_url.
  run_cases; reflexivity.
Qed.

(** X2. For two different currencies, a rejection of [getRate] is written
    to the console under "Rate fetch failed:" with the very error that is
    rethrown, as the last thing that happens; a resolved rate comes from
    exactly one request, without console output, names the provider asked
    and is stamped with the clock after that request. *)
Theorem getRate_outcome_and_trace from to provider apiKey w :
  from <> to ->
  match getRate from to provider apiKey w with
  | (Throw e, w') =>
      exists t, trace w' = ConsoleError "Rate fetch failed:" e :: t
                /\ (t = trace w \/ exists url, t = Fetched url :: trace w)
  | (Ok r, w') =>
      exists url, trace w' = Fetched url :: trace w
                  /\ rate_timestamp r = clock w + latency w url
                  /\ rate_provider r = provider
                  /\ clock w' = rate_timestamp r
  end.
Proof.
  intros Hne. apply String.eqb_neq in Hne.
  unfold getRate. rewrite Hne.
  run_cases; cbn;
    try (eexists; split; [reflexivity | ]);
    try (left; reflexivity);
    try (right; eexists; reflexivity);
    try (repeat split; reflexivity).
Qed.

Lemma getRate_outcome_and_trace_witness :
  exists t,
    trace (snd (getRate "EUR" "USD" "frankfurter" ""
                  (world_with provider_down eur_3000)))
    = ConsoleError "Rate fetch failed:" "Failed to fetch" :: t.
Proof.
  pose proof (getRate_outcome_and_trace "EUR" "USD" "frankfurter" ""
                (world_with provider_down eur_3000)) as H.
  cbn in H. destruct H as (t & Ht & _); [discriminate |].
  exists t. exact Ht.
Defined.

(** The frankfurter branch of [getRate], one case for every reply. *)
Lemma getRate_frankfurter from to apiKey w :
  from <> to ->
  getRate from to "frankfurter" apiKey w
  = let url := frankfurter_url from to in
    let w1 := elapse (emit w (Fetched url)) (latency w url) in
    let failed e := (Throw e, emit w1 (ConsoleError "Rate fetch failed:" e)) in
    match GET_latest w url with
    | Unreachable e => failed e
    | Response false status text _ => failed (http_error status text)
    | Response true _ _ (Throw e) => failed e
    | Response true _ _ (Ok json) =>
        match j_rates json with
        | None => failed (not_found from to)
        | Some rates =>
            match lookup to rates with
            | None => failed (not_found from to)
            | Some v =>
                (Ok {| rate_value := v; rate_provider := "frankfurter";
                       rate_timestamp := clock w + latency w url;
                       rate_date := j_date json |}, w1)
            end
        end
    end.
Proof.
  intros Hne. apply String.eqb_neq in Hne.
  unfold getRate. rewrite Hne.
  change (String.eqb "frankfurter" "frankfurter") with true.
  cbv beta iota zeta. fold (frankfurter_url from to).
  unfold try_catch, bind, fetch, throw, ret, json_of, console_error,
    Date_now_M.
  cbv beta.
  destruct (GET_latest w (frankfurter_url from to))
    as [e | [|] status text [json | e]]; try reflexivity.
  cbv beta iota.
  destruct (j_rates json) as [rates |]; [| reflexivity].
  destruct (lookup to rates); reflexivity.
Qed.

(** X3. With frankfurter and two different currencies, [getRate] resolves
    exactly when the response is a success whose body lists the target
    currency under [rates]; the rate it resolves to is that number, with
    the date of the body, whatever API key was passed. *)
Theorem frankfurter_rate from to apiKey w r :
  from <> to ->
  fst (getRate from to "frankfurter" apiKey w) = Ok r
  <-> exists status text json rates,
        GET_latest w (frankfurter_url from to)
        = Response true status text (Ok json)
        /\ j_rates json = Some rates
        /\ lookup to rates = Some (rate_value r)
        /\ rate_date r = j_date json
        /\ rate_provider r = "frankfurter"
        /\ rate_timestamp r = clock w + latency w (frankfurter_url from to).
Proof.
  intros Hne.
  rewrite (getRate_frankfurter from to apiKey w Hne). cbv zeta.
  destruct (GET_latest w _) as [e | [|] status text [json | e]] eqn:Hget;
    cbn [fst];
    try (split; [discriminate | intros (? & ? & ? & ? & H & _); discriminate]).
  destruct (j_rates json) as [rates |] eqn:Hr.
  - destruct (lookup to rates) as [v |] eqn:Hv; cbn [fst].
    + split.
      * intros H. inversion H; subst r. cbn.
        exists status, text, json, rates. repeat split; assumption.
      * intros (s' & t' & j' & rs' & H & Hr' & Hv' & Hd & Hp & Ht).
        inversion H; subst. rewrite Hr in Hr'. inversion Hr'; subst.
        rewrite Hv in Hv'. inversion Hv'.
        destruct r as [rv rp rt rd]; cbn in *. congruence.
    + split; [discriminate |].
      intros (s' & t' & j' & rs' & H & Hr' & Hv' & _).
      inversion H; subst. rewrite Hr in Hr'. inversion Hr'; subst. congruence.
  - cbn [fst]. split; [discriminate |].
    intros (s' & t' & j' & rs' & H & Hr' & _).
    inversion H; subst. congruence.
Qed.

Lemma frankfurter_rate_witness :
  exists r,
    fst (getRate "EUR" "USD" "frankfurter" "unused"
           (world_with provider_up eur_3000)) = Ok r
    /\ rate_value r = rate_1_1.
Proof.
  eexists. split.
  - apply (frankfurter_rate "EUR" "USD" "unused"
             (world_with provider_up eur_3000)
             {| rate_value := rate_1_1; rate_provider := "frankfurter";
                rate_timestamp := march_1st + 12 * hour + 250;
                rate_date := Some "2024-03-01" |}).
    + discriminate.
    + exists 200, "OK", usd_rates, [("USD", rate_1_1)].
      repeat split.
  - reflexivity.
Defined.

(** X4. With exchangerate-host, a response body that carries an [error]
    object makes [getRate] reject even when the body also lists the rate:
    the message is the error's [info], else its [type], else "API Error";
    and without an API key [getRate] rejects before any request. *)
Theorem exchangerate_error_wins from to apiKey w :
  from <> to ->
  (apiKey = "" ->
   getRate from to "exchangerate-host" apiKey w
   = (Throw "API key required for exchangerate.host",
      emit w (ConsoleError "Rate fetch failed:"
                "API key required for exchangerate.host")))
  /\ (forall status text json info type,
        apiKey <> "" ->
        GET_latest w (exchangerate_url from to apiKey)
        = Response true status text (Ok json) ->
        j_error json = Some (info, type) ->
        fst (getRate from to "exchangerate-host" apiKey w)
        = Throw (or_text info (or_text type "API Error"))).
Proof.
  intros Hne. apply String.eqb_neq in Hne.
  unfold getRate, exchangerate_url. rewrite Hne.
  change (String.eqb "exchangerate-host" "frankfurter") with false.
  change (String.eqb "exchangerate-host" "exchangerate-host") with true.
  cbv iota. split.
  - intros ->. reflexivity.
  - intros status text json info type Hk Hget Herr.
    destruct apiKey as [| c k]; [congruence |]. cbn [JS.is_empty].
    unfold try_catch, bind, fetch, throw, ret, json_of, console_error.
    rewrite Hget. cbn. rewrite Herr. reflexivity.
Qed.

Lemma exchangerate_error_wins_witness :
  fst (getRate "EUR" "USD" "exchangerate-host" "k"
         (world_with (Response true 200 "OK" (Ok usd_rates_with_error))
            eur_3000))
  = Throw "Monthly quota reached".
Proof.
  refine (proj2 (exchangerate_error_wins "EUR" "USD" "k" _ _)
            200 "OK" usd_rates_with_error
            (Some "Monthly quota reached") (Some "usage_limit") _ _ _).
  - discriminate.
  - discriminate.
  - reflexivity.
  - reflexivity.
Defined.

(** ** [maybeFetchRate] together with [getRate] and the derived calculations *)

Lemma fresh_false state now :
  (forall r, lastRate state = Some r ->
             from r = srcCurrency state -> to r = dstCurrency state ->
             hour <= now - timestamp r) ->
  fresh state now = false.
Proof.
  intros H. unfold fresh, identity_matched.
  destruct (lastRate state) as [r |]; [| reflexivity].
  destruct (String.eqb_spec (from r) (srcCurrency state)) as [Hf | Hf];
    [| reflexivity].
  destruct (String.eqb_spec (to r) (dstCurrency state)) as [Ht | Ht];
    [| reflexivity].
  specialize (H r eq_refl Hf Ht). cbn [andb].
  apply Z.ltb_ge. exact H.
Qed.

(** X5. Online, with conversion switched on between two different
    currencies, [maybeFetchRate] does ask for a rate whenever there is no
    [lastRate], or it is for another pair of currencies (however young),
    or it is an hour old or older: a request or a console line is left
    behind, and the call still resolves. *)
Theorem fetch_when_cache_cannot_serve state w :
  useConversion state = true ->
  srcCurrency state <> dstCurrency state ->
  (forall r, lastRate state = Some r ->
             from r = srcCurrency state -> to r = dstCurrency state ->
             hour <= clock w - timestamp r) ->
  (length (trace w)
   < length (trace (snd (maybeFetchRate true state w))))%nat
  /\ fst (maybeFetchRate true state w) = Ok tt.
Proof.
  intros Hu Hne Hold.
  rewrite (maybeFetchRate_asks true state w eq_refl Hu Hne
             (fresh_false _ _ Hold)).
  pose proof (getRate_leaves_a_trace (srcCurrency state) (dstCurrency state)
                (provider state) (apiKey state) w Hne) as Hlen.
  fold (rate_request state) in Hlen.
  destruct (rate_request state w) as [[r | e] w1]; cbn in *; split;
    try reflexivity; lia.
Qed.

Lemma fetch_when_cache_cannot_serve_witness :
  (length (trace (world_with provider_up
                    (eur_usd_2200
                       (Some (rate_11 (march_1st + 12 * hour) "GBP" "USD")))))
   < length (trace (snd (maybeFetchRate true
                           (eur_usd_2200
                              (Some (rate_11 (march_1st + 12 * hour) "GBP" "USD")))
                           (world_with provider_up
                              (eur_usd_2200
                                 (Some (rate_11 (march_1st + 12 * hour)
                                          "GBP" "USD"))))))))%nat.
Proof.
  refine (proj1 (fetch_when_cache_cannot_serve _ _ _ _ _)).
  - reflexivity.
  - discriminate.
  - intros r Hr Hf _. inversion Hr; subst r. discriminate Hf.
Defined.

Lemma maybeFetchRate_served isOnline state w :
  fresh state (clock w) = true ->
  maybeFetchRate isOnline state w = (Ok tt, w).
Proof.
  intros Hf. unfold maybeFetchRate.
  destruct isOnline; cbn [negb]; [| reflexivity].
  destruct (negb _); [reflexivity |].
  unfold bind, Date_now_M. rewrite Hf. reflexivity.
Qed.

Lemma maybeFetchRate_stores state w r w1 :
  useConversion state = true ->
  srcCurrency state <> dstCurrency state ->
  fresh state (clock w) = false ->
  rate_request state w = (Ok r, w1) ->
  st (snd (maybeFetchRate true state w))
  = set_lastRate (st w) (stamp r (st w)).
Proof.
  intros Hu Hne Hf Hreq.
  rewrite (maybeFetchRate_asks true state w eq_refl Hu Hne Hf), Hreq.
  pose proof (getRate_keeps_state (srcCurrency state) (dstCurrency state)
                (provider state) (apiKey state) w) as Hk.
  fold (rate_request state) in Hk. rewrite Hreq in Hk. cbn in Hk.
  cbn. rewrite Hk. reflexivity.
Qed.

(** X6. After a refresh that succeeded, the state the next render sees
    holds the fetched rate, stamped with the pair of currencies that the
    state cell holds when the rate arrives (the render that asked may be
    an older one), and any call of [maybeFetchRate] from that state within
    an hour of the rate's timestamp does nothing: the cache serves. *)
Theorem refreshed_rate_is_reused state w r w1 :
  useConversion state = true ->
  srcCurrency state <> dstCurrency state ->
  fresh state (clock w) = false ->
  rate_request state w = (Ok r, w1) ->
  let s' := st (snd (maybeFetchRate true state w)) in
  lastRate s'
  = Some {| value := rate_value r; rprovider := rate_provider r;
            timestamp := rate_timestamp r;
            from := srcCurrency (st w); to := dstCurrency (st w);
            date := rate_date r |}
  /\ srcCurrency s' = srcCurrency (st w)
  /\ dstCurrency s' = dstCurrency (st w)
  /\ forall isOnline w2,
       clock w2 - rate_timestamp r < hour ->
       maybeFetchRate isOnline s' w2 = (Ok tt, w2).
Proof.
  intros Hu Hne Hf Hreq s'. subst s'.
  rewrite (maybeFetchRate_stores _ _ _ _ Hu Hne Hf Hreq).
  split; [reflexivity |]. split; [reflexivity |]. split; [reflexivity |].
  intros isOnline w2 Hage. apply maybeFetchRate_served.
  apply (fresh_matched _ (stamp r (st w))); try reflexivity. exact Hage.
Qed.

Lemma refreshed_rate_is_reused_witness :
  maybeFetchRate true
    (st (snd (maybeFetchRate true cached_30_hours
                (world_with provider_up cached_30_hours))))
    (snd (maybeFetchRate true cached_30_hours
            (world_with provider_up cached_30_hours)))
  = (Ok tt,
     snd (maybeFetchRate true cached_30_hours
            (world_with provider_up cached_30_hours))).
Proof.
  refine (proj2 (proj2 (proj2
            (refreshed_rate_is_reused cached_30_hours
               (world_with provider_up cached_30_hours) rate_at_noon
               (snd (rate_request cached_30_hours
                       (world_with provider_up cached_30_hours)))
               _ _ _ _))) true _ _);
    try reflexivity.
  discriminate.
Defined.

(** X7. After a refresh that succeeded, the derived calculations convert
    with the fetched rate.  When the state that the cell holds as the rate
    arrives has conversion switched on between two different currencies, a
    positive balance and a payday ahead, [perDay] is [Math.floor] of that
    balance times the new rate over the days left, product and quotient
    each rounded to binary64: a whole number at most the quotient and less
    than one below it.  [convertedDisplay] is the formatted converted
    amount, and within 24 hours of the rate's timestamp [rateLine] carries
    no "(cached)" tag. *)
Theorem refreshed_rate_is_displayed env state w r w1 pay :
  useConversion state = true ->
  srcCurrency state <> dstCurrency state ->
  fresh state (clock w) = false ->
  rate_request state w = (Ok r, w1) ->
  useConversion (st w) = true ->
  srcCurrency (st w) <> dstCurrency (st w) ->
  positive (parsed_balance (st w)) ->
  end_of_day env (st w) = JS.of_Z pay ->
  new_Date env < pay ->
  let s' := st (snd (maybeFetchRate true state w)) in
  let d := compute env s' in
  let amount := JS.mul (parsed_balance (st w)) (rate_value r) in
  daysLeft d = JS.of_Z (ceil_days (new_Date env) pay)
  /\ (forall b v, parsed_balance (st w) = JS.Fin b -> rate_value r = JS.Fin v ->
        amount = JS.binary64 (b * v))
  /\ perDay d = Some (JS.Math_floor (JS.div amount (daysLeft d)))
  /\ (forall x, JS.div amount (daysLeft d) = JS.Fin x ->
        exists n, perDay d = Some (JS.of_Z n)
                  /\ (inject_Z n <= x)%Q /\ (x < inject_Z n + 1)%Q)
  /\ convertedDisplay d = Some (formatMoney env amount (dstCurrency (st w)))
  /\ (Date_now env - rate_timestamp r <= day ->
      rateLine d = "1 " ++ srcCurrency (st w) ++ " = "
                   ++ JS.toFixed (toString_large env) 4 (rate_value r)
                   ++ " " ++ dstCurrency (st w)).
Proof.
  intros Hu Hne Hf Hreq Hu' Hne' Hpos Hp Hlt s' d amount. subst d amount s'.
  rewrite (maybeFetchRate_stores _ _ _ _ Hu Hne Hf Hreq).
  rewrite (compute_future env (set_lastRate (st w) (stamp r (st w))) pay
             (positive_truthy _ Hpos) Hp Hlt).
  rewrite (conversion_rate_matched (set_lastRate (st w) (stamp r (st w)))
             (stamp r (st w)) Hu' Hne' eq_refl eq_refl eq_refl).
  cbn [daysLeft perDay convertedDisplay rateLine set_rateLine set_perDay
       set_convertedDisplay set_amountDisplay set_daysLeft out0].
  change (parsed_balance (set_lastRate (st w) (stamp r (st w))))
    with (parsed_balance (st w)).
  cbn [value stamp dstCurrency srcCurrency set_lastRate].
  split; [reflexivity |]. split.
  { intros b v Hb Hv. rewrite Hb, Hv. reflexivity. }
  split; [reflexivity |]. split.
  { intros x Hx. rewrite Hx. destruct (floor_is_whole x) as (n & Hn & Hb).
    exists n. rewrite Hn. split; [reflexivity | exact Hb]. }
  split; [reflexivity |].
  intros Hyoung. unfold rate_text. cbn [timestamp stamp value].
  destruct (Z.ltb_spec day (Date_now env - rate_timestamp r)); [lia |].
  rewrite append_empty. reflexivity.
Qed.

Lemma refreshed_rate_is_displayed_witness :
  perDay (compute noon
            (st (snd (maybeFetchRate true cached_30_hours
                        (world_with provider_up cached_30_hours)))))
  = Some (JS.of_Z 242).
Proof.
  refine (proj1 (proj2 (proj2
            (refreshed_rate_is_displayed noon cached_30_hours
               (world_with provider_up cached_30_hours) rate_at_noon
               (snd (rate_request cached_30_hours
                       (world_with provider_up cached_30_hours)))
               1710115199000 _ _ _ _ _ _ _ _ _))));
    try reflexivity; discriminate.
Defined.

(** ** The result card *)

Lemma conversion_rate_given state r :
  conversion_rate state = Some r ->
  useConversion state = true
  /\ srcCurrency state <> dstCurrency state
  /\ lastRate state = Some r
  /\ identity_matched state r = true.
Proof.
  unfold conversion_rate.
  destruct (useConversion state); cbn [andb]; [| discriminate].
  destruct (String.eqb_spec (srcCurrency state) (dstCurrency state));
    cbn [negb]; [discriminate |].
  destruct (lastRate state) as [r' |]; [| discriminate].
  destruct (identity_matched state r') eqn:Hm; [| discriminate].
  intros H. inversion H; subst. repeat split; assumption.
Qed.

Lemma converted_only_with_rate env state :
  convertedDisplay (compute env state) <> None ->
  exists r, conversion_rate state = Some r.
Proof.
  intros H. destruct (conversion_rate state) as [r |] eqn:Hc;
    [now exists r |].
  destruct (compute_source_only env state Hc) as (Hnone & _). contradiction.
Qed.

(** X8. The currency label agrees with a conversion that took place:
    whenever the derived calculations produce a converted total, the
    label is the target currency; and with conversion switched off, equal
    currencies or no [lastRate], the label is the source currency. *)
Theorem label_of_a_converted_budget env state :
  (convertedDisplay (compute env state) <> None ->
   displayCurrency state = dstCurrency state)
  /\ (useConversion state = false
      \/ srcCurrency state = dstCurrency state
      \/ lastRate state = None ->
      displayCurrency state = srcCurrency state).
Proof.
  split.
  - intros H. destruct (converted_only_with_rate _ _ H) as (r & Hr).
    destruct (conversion_rate_given _ _ Hr) as (Hu & Hne & Hl & _).
    unfold displayCurrency. apply String.eqb_neq in Hne.
    rewrite Hu, Hne, Hl. reflexivity.
  - unfold displayCurrency. intros [H | [H | H]].
    + rewrite H. reflexivity.
    + rewrite H, String.eqb_refl, andb_false_r. reflexivity.
    + rewrite H, andb_false_r. reflexivity.
Qed.

Lemma label_of_a_converted_budget_witness :
  displayCurrency (eur_usd_2200 (Some (rate_11 (march_1st + 10 * hour) "EUR" "USD")))
  = "USD"
  /\ displayCurrency eur_3000 = "EUR".
Proof.
  split.
  - refine (proj1 (label_of_a_converted_budget noon _) _).
    vm_compute. discriminate.
  - refine (proj2 (label_of_a_converted_budget noon _) _).
    left. reflexivity.
Defined.

(** X9. The label does not look at which pair the rate is for.  With
    conversion switched on between two different currencies and a
    [lastRate] for another pair, the budget is computed in the source
    currency, without a converted total, yet it is labelled with the
    target currency. *)
Theorem label_ahead_of_the_rate env state r pay :
  useConversion state = true ->
  srcCurrency state <> dstCurrency state ->
  lastRate state = Some r ->
  (from r, to r) <> (srcCurrency state, dstCurrency state) ->
  positive (parsed_balance state) ->
  end_of_day env state = JS.of_Z pay ->
  new_Date env < pay ->
  let d := compute env state in
  let p := JS.Math_floor (JS.div (parsed_balance state) (daysLeft d)) in
  perDay d = Some p
  /\ convertedDisplay d = None
  /\ displayCurrency state = dstCurrency state
  /\ displayCurrency state <> srcCurrency state
  /\ (JS.truthy p = true ->
      result_card None state d = Budget p (dstCurrency state) (daysLeft d) None).
Proof.
  intros Hu Hne Hl Hmis Hpos Hp Hlt d p. subst p d.
  pose proof (conversion_rate_mismatch _ _ Hl Hmis) as Hc.
  rewrite (compute_future _ _ _ (positive_truthy _ Hpos) Hp Hlt), Hc.
  cbn [daysLeft perDay convertedDisplay set_perDay set_amountDisplay
       set_daysLeft out0].
  assert (Hlabel : displayCurrency state = dstCurrency state).
  { unfold displayCurrency. pose proof Hne as Hne'.
    apply String.eqb_neq in Hne'. rewrite Hu, Hne', Hl. reflexivity. }
  split; [reflexivity |]. split; [reflexivity |]. split; [exact Hlabel |].
  split; [rewrite Hlabel; congruence |].
  intros Htruthy. unfold result_card.
  cbn [error perDay daysLeft convertedDisplay set_perDay set_amountDisplay
       set_daysLeft out0 JS.is_empty negb].
  rewrite Htruthy, Hlabel.
  pose proof (ceil_days_future _ _ Hlt) as Hdays.
  assert (Hd : JS.truthy (JS.of_Z (ceil_days (new_Date env) pay)) = true).
  { unfold JS.truthy, JS.of_Z. cbn [Qnum inject_Z].
    destruct (Z.eqb_spec (ceil_days (new_Date env) pay) 0); [lia | reflexivity]. }
  rewrite Hd. reflexivity.
Qed.

Lemma label_ahead_of_the_rate_witness :
  result_card None
    (eur_usd_2200 (Some (rate_11 (march_1st + 10 * hour) "GBP" "USD")))
    (compute noon
       (eur_usd_2200 (Some (rate_11 (march_1st + 10 * hour) "GBP" "USD"))))
  = Budget (JS.of_Z 220) "USD" (JS.of_Z 10) None.
Proof.
  refine (proj2 (proj2 (proj2 (proj2
    (label_ahead_of_the_rate noon
       (eur_usd_2200 (Some (rate_11 (march_1st + 10 * hour) "GBP" "USD")))
       (rate_11 (march_1st + 10 * hour) "GBP" "USD") 1710115199000
       _ _ _ _ _ _ _)))) _);
    try reflexivity; discriminate.
Defined.

Lemma Fin_eq a b : JS.Fin a = JS.Fin b -> a = b.
Proof. intros H. injection H. auto. Qed.

(** A positive binary64 value is a whole number of at most 53 bits times a
    power of two, with 53 bits exactly unless the power is the least. *)
Lemma binary64_form q r :
  JS.binary64 q = JS.Fin r -> (0 < r)%Q ->
  exists m e, (r == inject_Z m * JS.pow2 e)%Q
              /\ 0 < m <= 2 ^ 53 /\ -1074 <= e
              /\ (2 ^ 52 <= m \/ e = -1074).
Proof.
  intros H Hr. destruct (Q_dec q 0) as [[Hn | Hp] | Hz].
  - rewrite (binary64_neg q Hn) in H.
    destruct (Qle_bool _ _); [discriminate |]. apply Fin_eq in H as E.
    assert (0 <= JS.nearest (- q))%Q by (apply nearest_nonneg; lra).
    assert (Er : (r == - JS.nearest (- q))%Q) by (rewrite <- E; apply Qred_correct).
    exfalso. lra.
  - rewrite (binary64_pos q Hp) in H.
    destruct (Qle_bool _ _); [discriminate |]. apply Fin_eq in H as E.
    assert (Er : (r == JS.nearest q)%Q) by (rewrite <- E; apply Qred_correct).
    exists (JS.significand q), (JS.exponent q).
    split; [exact Er |].
    pose proof (significand_upper q Hp) as Hu.
    pose proof (exponent_min q) as He.
    assert (Hm : 0 < JS.significand q).
    { destruct (Z.lt_ge_cases 0 (JS.significand q)) as [P | P]; [exact P |].
      exfalso. rewrite Er in Hr. unfold JS.nearest in Hr.
      pose proof (pow2_pos (JS.exponent q)) as Pp.
      rewrite Zle_Qle in P. change (inject_Z 0) with 0%Q in P. nra. }
    split; [lia |]. split; [exact He |].
    destruct (Z.eq_dec (JS.exponent q) (-1074)) as [E1 | N1]; [now right |].
    left. apply significand_lower; [exact Hp | lia].
  - rewrite (binary64_zero q Hz) in H. apply Fin_eq in H as E.
    exfalso. rewrite <- E in Hr. now apply Qlt_irrefl in Hr.
Qed.

(** A binary64 value below a whole number of at most 27 bits stays away
    from it by at least its own unit in the last place. *)
Lemma below_a_whole_number q r n :
  JS.binary64 q = JS.Fin r -> (0 < r)%Q -> (r < inject_Z n)%Q -> n <= 2 ^ 27 ->
  (r * (1 + (1 # 9007199254740992)) <= inject_Z n)%Q.
Proof.
  intros H Hr Hn Hn27.
  destruct (binary64_form q r H Hr) as (m & e & Er & [Hm1 Hm2] & He & Hnorm).
  pose proof (pow2_pos e) as Pe.
  assert (He0 : e <= 0).
  { destruct Hnorm as [Hm52 | ->]; [| lia].
    assert (JS.pow2 (52 + e) < JS.pow2 27)%Q; [| apply pow2_lt_inv in H0; lia].
    rewrite pow2_add, (pow2_Z 52), (pow2_Z 27) by lia.
    apply Qle_lt_trans with r.
    - rewrite Er. apply Qmult_le_compat_r; [| now apply Qlt_le_weak].
      now rewrite <- Zle_Qle.
    - eapply Qlt_le_trans; [exact Hn |]. now rewrite <- Zle_Qle. }
  pose proof (pow2_add e (- e)) as Hinv. rewrite Z.add_opp_diag_r in Hinv.
  change (JS.pow2 0) with 1%Q in Hinv.
  rewrite (pow2_Z (- e)) in Hinv by lia.
  set (K := 2 ^ (- e)) in *.
  (* r * K is the whole number m, below the whole number n * K *)
  assert (HmN : m + 1 <= n * K).
  { assert (m < n * K); [| lia].
    rewrite Zlt_Qlt, inject_Z_mult.
    assert (E2 : (inject_Z m == r * inject_Z K)%Q).
    { rewrite Er, <- Qmult_assoc, <- Hinv. ring. }
    rewrite E2. apply Qmult_lt_r; [| exact Hn].
    change 0%Q with (inject_Z 0). rewrite <- Zlt_Qlt. subst K.
    apply Z.pow_pos_nonneg; lia. }
  rewrite Zle_Qle, inject_Z_plus, inject_Z_mult in HmN.
  change (inject_Z 1) with 1%Q in HmN.
  assert (Hstep : (r + JS.pow2 e <= inject_Z n)%Q).
  { assert (E3 : (inject_Z n == inject_Z n * inject_Z K * JS.pow2 e)%Q).
    { rewrite <- Qmult_assoc, (Qmult_comm (inject_Z K)), <- Hinv. ring. }
    rewrite E3, Er.
    setoid_replace (inject_Z m * JS.pow2 e + JS.pow2 e)%Q
      with ((inject_Z m + 1) * JS.pow2 e)%Q by ring.
    apply Qmult_le_compat_r; [exact HmN | now apply Qlt_le_weak]. }
  assert (Hulp : (r * (1 # 9007199254740992) <= JS.pow2 e)%Q).
  { rewrite Er. rewrite Zle_Qle in Hm2.
    change (inject_Z (2 ^ 53)) with (9007199254740992 # 1)%Q in Hm2. nra. }
  lra.
Qed.

(** A positive binary64 value divided by a larger whole number of days:
    the quotient is rounded to less than 1, and its floor is 0. *)
Lemma floor_of_fraction q b n :
  JS.binary64 q = JS.Fin b -> (0 < b)%Q -> (b < inject_Z n)%Q -> n <= 2 ^ 27 ->
  JS.Math_floor (JS.div (JS.Fin b) (JS.of_Z n)) = JS.of_Z 0.
Proof.
  intros H Hb Hn Hn27.
  pose proof (below_a_whole_number q b n H Hb Hn Hn27) as Hgap.
  assert (Hn0 : (0 < inject_Z n)%Q) by (eapply Qlt_trans; eassumption).
  unfold JS.of_Z at 1. cbn [JS.div].
  assert (Hnz : (Qnum (inject_Z n) =? 0) = false).
  { apply Z.eqb_neq. unfold Qlt in Hn0. simpl in Hn0. simpl. lia. }
  rewrite Hnz.
  set (x := (b / inject_Z n)%Q).
  assert (Hx : (x * inject_Z n == b)%Q).
  { subst x. rewrite Qmult_comm. apply Qmult_div_r. intros E. rewrite E in Hn0.
    now apply Qlt_irrefl in Hn0. }
  assert (Hx0 : (0 < x)%Q) by (apply Qlt_shift_div_l; [exact Hn0 | lra]).
  assert (Hx1 : (x * (1 + (1 # 9007199254740992)) <= 1)%Q).
  { apply Qmult_le_r with (inject_Z n); [exact Hn0 |].
    setoid_replace (x * (1 + (1 # 9007199254740992)) * inject_Z n)%Q
      with (x * inject_Z n * (1 + (1 # 9007199254740992)))%Q by ring.
    rewrite Hx. lra. }
  destruct (binary64_within x (-1)) as (r & Hr & _ & R2); [lia | |].
  - change (JS.pow2 (-1 + 1)) with 1%Q. apply Qabs_Qlt_condition. lra.
  - pose proof (binary64_nonneg x ltac:(lra)) as R0.
    rewrite Hr in *. cbn [JS.leb] in R0. apply Qle_bool_iff in R0.
    assert (P : (JS.pow2 (-1 - 53) == 1 # 18014398509481984)%Q) by reflexivity.
    rewrite P in R2.
    unfold JS.Math_floor, JS.of_Z. do 2 f_equal.
    apply Qfloor_unique; change (inject_Z 0) with 0%Q; lra.
Qed.

(** Every finite number that [Number(s)] yields is a binary64 value. *)
Lemma Number_of_string_binary64 s b :
  JS.Number_of_string s = JS.Fin b -> exists q, JS.binary64 q = JS.Fin b.
Proof.
  unfold JS.Number_of_string.
  assert (Hradix : forall base r,
            JS.read_radix base r = JS.Fin b -> exists q, JS.binary64 q = JS.Fin b).
  { intros base r. unfold JS.read_radix.
    destruct (JS.read_digits base r 0 0) as [[v n] r'].
    destruct n; [discriminate |]. destruct r'; [eauto | discriminate]. }
  assert (Hdefault : forall t,
            (let '(sg, r) := JS.read_sign t in
             if String.eqb r "Infinity" then JS.inf_of_sign sg
             else match JS.read_decimal r with
                  | Some q => JS.binary64 (if sg <? 0 then Qopp q else q)
                  | None => JS.NaN
                  end) = JS.Fin b -> exists q, JS.binary64 q = JS.Fin b).
  { intros t. destruct (JS.read_sign t) as [sg r].
    destruct (String.eqb r "Infinity").
    - unfold JS.inf_of_sign. destruct (sg <? 0); discriminate.
    - destruct (JS.read_decimal r); [eauto | discriminate]. }
  destruct (JS.trim s) as [| c1 t1].
  - intros H. exists 0%Q. exact H.
  - destruct c1 as [[] [] [] [] [] [] [] []]; try apply Hdefault.
    destruct t1 as [| c2 r]; [apply Hdefault |].
    destruct c2 as [[] [] [] [] [] [] [] []];
      try apply Hdefault; apply Hradix.
Qed.

Lemma parsed_balance_binary64 state b :
  parsed_balance state = JS.Fin b -> exists q, JS.binary64 q = JS.Fin b.
Proof.
  unfold parsed_balance.
  destruct (balance state) as [t |]; [| intros H; exists 0%Q; exact H].
  destruct (JS.is_empty _); [intros H; exists 0%Q; exact H |].
  apply Number_of_string_binary64.
Qed.

(** The day count of a render has at most 27 bits. *)
Lemma ceil_days_small env state pay :
  end_of_day env state = JS.of_Z pay ->
  ceil_days (new_Date env) pay <= 2 ^ 27.
Proof.
  intros Hp. pose proof (parse_range _ _ _ _ Hp) as Hpay.
  pose proof (clock_valid env) as Hnow. unfold valid_clock in Hnow.
  apply Z.leb_le in Hnow.
  change (2 ^ 53 - 8640000000000000) with 367199254740992 in Hnow.
  unfold ceil_days, day. change (2 ^ 27) with 134217728.
  change (24 * 60 * 60 * 1000) with 86400000.
  assert (- 9007199254740992 <= new_Date env - pay) by lia.
  pose proof (Z.div_le_mono (- 9007199254740992) (new_Date env - pay) 86400000
                ltac:(lia) H) as Hd.
  change (-9007199254740992 / 86400000) with (-104249992) in Hd. lia.
Qed.

(** X10. A balance below one unit per day shows no budget.  With a positive
    balance smaller than the number of days left and no conversion, the
    derived calculations give [perDay] 0 without an error, and the card
    shows the invitation to enter a balance and a payday, both while
    the animation holds no value and when it holds that 0. *)
Theorem small_balance_shows_placeholder env state pay b :
  parsed_balance state = JS.Fin b ->
  (0 < b)%Q ->
  (b < inject_Z (ceil_days (new_Date env) pay))%Q ->
  end_of_day env state = JS.of_Z pay ->
  new_Date env < pay ->
  conversion_rate state = None ->
  let d := compute env state in
  error d = "" /\ perDay d = Some (JS.of_Z 0)
  /\ result_card None state d = Placeholder
  /\ result_card (perDay d) state d = Placeholder.
Proof.
  intros Hb Hpos Hsmall Hp Hlt Hc d. subst d.
  assert (Ht : JS.truthy (parsed_balance state) = true).
  { apply positive_truthy. unfold positive. rewrite Hb.
    unfold JS.ltb, JS.of_Z.
    destruct (Qcompare_spec (inject_Z 0) b) as [E | L | G]; try reflexivity.
    - rewrite <- E in Hpos. now apply Qlt_irrefl in Hpos.
    - exfalso. apply (Qlt_irrefl b). eapply Qlt_trans; eassumption. }
  rewrite (compute_future _ _ _ Ht Hp Hlt), Hc, Hb.
  pose proof (ceil_days_future _ _ Hlt) as Hdays.
  assert (Hper : JS.Math_floor (JS.div (JS.Fin b)
                   (JS.of_Z (ceil_days (new_Date env) pay))) = JS.of_Z 0).
  { destruct (parsed_balance_binary64 state b Hb) as (q & Hq).
    apply (floor_of_fraction q); try assumption.
    apply (ceil_days_small env state), Hp. }
  unfold result_card.
  cbn [daysLeft perDay error convertedDisplay set_perDay set_amountDisplay
       set_daysLeft out0 JS.is_empty negb].
  rewrite Hper. repeat split.
Qed.

Lemma small_balance_shows_placeholder_witness :
  result_card None (with_balance eur_3000 "5")
    (compute noon (with_balance eur_3000 "5")) = Placeholder.
Proof.
  refine (proj1 (proj2 (proj2
    (small_balance_shows_placeholder noon (with_balance eur_3000 "5")
       1710115199000 (5 # 1)%Q _ _ _ _ _ _))));
    reflexivity.
Defined.

(** ** The balance field *)

Example handleBalanceChange_typed :
  handleBalanceChange "1a2.5x.7" = "12.57".
Proof. reflexivity. Qed.
Example handleBalanceChange_pasted :
  handleBalanceChange "1.2.3.4" = "1.2.34".
Proof. reflexivity. Qed.
Example formatNumberWithCommas_millions :
  formatNumberWithCommas "1234567.891" = "1,234,567.89".
Proof. reflexivity. Qed.
Example formatNumberWithCommas_hundreds :
  formatNumberWithCommas "123" = "123".
Proof. reflexivity. Qed.
Example formatNumberWithCommas_parts :
  formatNumberWithCommas "1234.5678.9" = "1,234.56.9".
Proof. reflexivity. Qed.
Example handleBalanceBlur_grouped :
  handleBalanceBlur "12,34567" = "1,234,567".
Proof. reflexivity. Qed.

Lemma keep_all s : all_chars digit_or_dot (keep_digits_and_dots s) = true.
Proof.
  induction s as [| c r IH]; simpl; [reflexivity |].
  destruct (digit_or_dot c) eqn:E; [simpl; rewrite E |]; exact IH.
Qed.

Lemma remove_last_dot_all p s :
  all_chars p s = true -> all_chars p (remove_last_dot s) = true.
Proof.
  induction s as [| c r IH]; simpl; [reflexivity |].
  intros H. apply andb_true_iff in H as [Hc Hr].
  destruct (is_dot c && negb (has_dot r)); [exact Hr |].
  simpl. rewrite Hc. apply IH, Hr.
Qed.

Lemma drop_closing_dot_all p s :
  all_chars p s = true -> all_chars p (drop_closing_dot s) = true.
Proof.
  induction s as [| c r IH]; simpl; [reflexivity |].
  intros H. pose proof H as H'. apply andb_true_iff in H as [Hc Hr].
  destruct (is_dot c).
  - destruct (has_dot r); [| exact H'].
    simpl. rewrite Hc. apply remove_last_dot_all, Hr.
  - simpl. rewrite Hc. apply IH, Hr.
Qed.




Lemma keep_app a b :
  keep_digits_and_dots (a ++ b)
  = keep_digits_and_dots a ++ keep_digits_and_dots b.
Proof.
  induction a as [| c r IH]; simpl; [reflexivity |].
  destruct (digit_or_dot c); simpl; now rewrite IH.
Qed.


Lemma typed_balance_plain value :
  all_chars digit_or_dot (handleBalanceChange value) = true.
Proof. apply drop_closing_dot_all, keep_all. Qed.



Lemma digit_code c : is_digit c = true -> 48 <= JS.code c <= 57.
Proof.
  unfold is_digit, Date.in_range. intros H.
  apply andb_true_iff in H as [H1 H2].
  apply Z.leb_le in H1. apply Z.leb_le in H2. lia.
Qed.

Lemma digit_not_dot c : is_digit c = true -> is_dot c = false.
Proof.
  intros H. apply digit_code in H. unfold is_dot.
  destruct (Z.eqb_spec (JS.code c) 46); [lia | reflexivity].
Qed.

Lemma digit_not_comma c : is_digit c = true -> (JS.code c =? 44) = false.
Proof.
  intros H. apply digit_code in H.
  destruct (Z.eqb_spec (JS.code c) 44); [lia | reflexivity].
Qed.

Lemma dot_not_comma c : is_dot c = true -> (JS.code c =? 44) = false.
Proof.
  unfold is_dot. intros H. apply Z.eqb_eq in H.
  destruct (Z.eqb_spec (JS.code c) 44); [lia | reflexivity].
Qed.

Lemma plain_not_comma c : digit_or_dot c = true -> (JS.code c =? 44) = false.
Proof.
  unfold digit_or_dot. intros H. apply orb_true_iff in H as [H | H];
    [now apply digit_not_comma | now apply dot_not_comma].
Qed.

Lemma remove_commas_plain s :
  all_chars digit_or_dot s = true -> JS.remove_commas s = s.
Proof.
  induction s as [| c r IH]; simpl; [reflexivity |].
  intros H. apply andb_true_iff in H as [Hc Hr].
  rewrite (plain_not_comma _ Hc), (IH Hr). reflexivity.
Qed.

Lemma digits_plain s :
  all_chars is_digit s = true -> all_chars digit_or_dot s = true.
Proof.
  induction s as [| c r IH]; simpl; [reflexivity |].
  intros H. apply andb_true_iff in H as [Hc Hr].
  rewrite (IH Hr). unfold digit_or_dot. rewrite Hc. reflexivity.
Qed.

Lemma all_chars_app p a b :
  all_chars p (a ++ b) = all_chars p a && all_chars p b.
Proof.
  induction a as [| c r IH]; simpl; [reflexivity |].
  rewrite IH, andb_assoc. reflexivity.
Qed.

Lemma keep_plain s :
  all_chars digit_or_dot s = true -> keep_digits_and_dots s = s.
Proof.
  induction s as [| c r IH]; simpl; [reflexivity |].
  intros H. apply andb_true_iff in H as [Hc Hr].
  rewrite Hc, (IH Hr). reflexivity.
Qed.

Lemma remove_commas_app a b :
  JS.remove_commas (a ++ b) = JS.remove_commas a ++ JS.remove_commas b.
Proof.
  induction a as [| c r IH]; simpl; [reflexivity |].
  destruct (JS.code c =? 44); simpl; now rewrite IH.
Qed.

Lemma remove_commas_group s :
  JS.remove_commas (group_thousands s) = JS.remove_commas s.
Proof.
  induction s as [| c r IH]; simpl; [reflexivity |].
  destruct (negb _ && _); simpl; rewrite IH; reflexivity.
Qed.

Lemma split_dots_digits s :
  all_chars is_digit s = true -> split_dots s = [s].
Proof.
  induction s as [| c r IH]; simpl; [reflexivity |].
  intros H. apply andb_true_iff in H as [Hc Hr].
  rewrite (digit_not_dot _ Hc), (IH Hr). reflexivity.
Qed.

Lemma split_dots_point a b :
  all_chars is_digit a = true ->
  split_dots (a ++ "." ++ b) = a :: split_dots b.
Proof.
  induction a as [| c r IH]; simpl; [reflexivity |].
  intros H. apply andb_true_iff in H as [Hc Hr].
  rewrite (digit_not_dot _ Hc). simpl in IH. rewrite (IH Hr). reflexivity.
Qed.

Lemma substring_digits s n m :
  all_chars is_digit s = true -> all_chars is_digit (substring n m s) = true.
Proof.
  revert n m. induction s as [| c r IH]; intros n m H.
  - destruct n, m; reflexivity.
  - simpl in H. apply andb_true_iff in H as [Hc Hr].
    destruct n as [| n]; [destruct m as [| m] |]; simpl;
      [reflexivity | rewrite Hc; now apply IH | now apply IH].
Qed.

Lemma substring_all s n :
  (String.length s <= n)%nat -> substring 0 n s = s.
Proof.
  revert n. induction s as [| c r IH]; intros n H.
  - destruct n; reflexivity.
  - destruct n as [| n]; simpl in *; [lia |].
    rewrite IH; [reflexivity | lia].
Qed.

(** [handleBalanceBlur] on a whole number and on a decimal number. *)
Lemma blur_digits int :
  all_chars is_digit int = true ->
  handleBalanceBlur int = group_thousands int.
Proof.
  intros H. unfold handleBalanceBlur, formatNumberWithCommas.
  rewrite (remove_commas_plain _ (digits_plain _ H)).
  destruct int as [| c r]; [reflexivity |]. cbn [JS.is_empty].
  rewrite (keep_plain _ (digits_plain _ H)), (split_dots_digits _ H).
  reflexivity.
Qed.

Lemma blur_decimal int frac :
  all_chars is_digit int = true ->
  all_chars is_digit frac = true ->
  handleBalanceBlur (int ++ "." ++ frac)
  = group_thousands int ++ "." ++ substring 0 2 frac.
Proof.
  intros Hi Hf. unfold handleBalanceBlur, formatNumberWithCommas.
  assert (Hall : all_chars digit_or_dot (int ++ "." ++ frac) = true).
  { rewrite !all_chars_app, (digits_plain _ Hi), (digits_plain _ Hf).
    reflexivity. }
  rewrite (remove_commas_plain _ Hall), (keep_plain _ Hall).
  assert (Hne : JS.is_empty (int ++ "." ++ frac) = false)
    by (destruct int; reflexivity).
  rewrite Hne, (split_dots_point _ _ Hi), (split_dots_digits _ Hf).
  destruct frac as [| c r]; [reflexivity |].
  cbn [JS.is_empty join_dots]. reflexivity.
Qed.

(** X12. Blur, then focus: for a whole number the balance text comes back
    as it was, and for a number with a decimal point it comes back with
    the decimals cut to two, never rounded. *)
Theorem blur_then_focus int frac :
  all_chars is_digit int = true ->
  all_chars is_digit frac = true ->
  handleBalanceFocus (handleBalanceBlur int) = int
  /\ handleBalanceFocus (handleBalanceBlur (int ++ "." ++ frac))
     = int ++ "." ++ substring 0 2 frac.
Proof.
  intros Hi Hf. unfold handleBalanceFocus.
  rewrite (blur_digits _ Hi), (blur_decimal _ _ Hi Hf).
  rewrite !remove_commas_app, remove_commas_group.
  rewrite (remove_commas_plain _ (digits_plain _ Hi)).
  rewrite (remove_commas_plain _ (digits_plain _ (substring_digits _ 0 2 Hf))).
  split; reflexivity.
Qed.

Lemma blur_then_focus_witness :
  handleBalanceFocus (handleBalanceBlur "1234567") = "1234567"
  /\ handleBalanceFocus (handleBalanceBlur ("1234567" ++ "." ++ "899"))
     = "1234567" ++ "." ++ "89".
Proof.
  apply (blur_then_focus "1234567" "899"); reflexivity.
Defined.

Lemma compute_of_balance env state a b :
  parsed_balance (with_balance state a) = parsed_balance (with_balance state b) ->
  compute env (with_balance state a) = compute env (with_balance state b).
Proof.
  intros H. rewrite !compute_eq. cbv zeta. rewrite H. reflexivity.
Qed.

(** X13. Formatting on blur does not change the budget: for a whole
    number, and for a number with at most two decimals, the derived
    calculations give the same result for the grouped text as for the text
    that was typed. *)
Theorem blur_keeps_the_budget env state int frac :
  all_chars is_digit int = true ->
  all_chars is_digit frac = true ->
  (String.length frac <= 2)%nat ->
  compute env (with_balance state (handleBalanceBlur int))
  = compute env (with_balance state int)
  /\ compute env (with_balance state (handleBalanceBlur (int ++ "." ++ frac)))
     = compute env (with_balance state (int ++ "." ++ frac)).
Proof.
  intros Hi Hf Hlen.
  assert (Hall : all_chars digit_or_dot (int ++ "." ++ frac) = true).
  { rewrite !all_chars_app, (digits_plain _ Hi), (digits_plain _ Hf).
    reflexivity. }
  split; apply compute_of_balance; unfold parsed_balance;
    cbn [balance with_balance].
  - rewrite (blur_digits _ Hi), remove_commas_group. reflexivity.
  - rewrite (remove_commas_plain _ Hall).
    rewrite (blur_decimal _ _ Hi Hf), (substring_all _ _ Hlen).
    rewrite (remove_commas_app (group_thousands int)), remove_commas_group.
    rewrite (remove_commas_plain _ (digits_plain _ Hi)).
    rewrite (remove_commas_plain ("." ++ frac));
      [reflexivity | simpl; apply digits_plain, Hf].
Qed.

Lemma blur_keeps_the_budget_witness :
  compute noon (with_balance eur_3000 (handleBalanceBlur ("3000" ++ "." ++ "5")))
  = compute noon (with_balance eur_3000 ("3000" ++ "." ++ "5")).
Proof.
  apply (blur_keeps_the_budget noon eur_3000 "3000" "5"); try reflexivity.
  simpl. lia.
Defined.

Lemma length_app a b :
  String.length (a ++ b) = (String.length a + String.length b)%nat.
Proof. induction a as [| c r IH]; simpl; [reflexivity | now rewrite IH]. Qed.

Lemma group_small s :
  (String.length s <= 3)%nat -> group_thousands s = s.
Proof.
  induction s as [| c r IH]; simpl; [reflexivity |].
  intros H. rewrite IH by lia.
  destruct (String.length r) as [| [| [| n]]]; simpl; try reflexivity. lia.
Qed.

Lemma group_peel a b :
  a <> "" -> String.length b = 3%nat ->
  group_thousands (a ++ b) = group_thousands a ++ "," ++ b.
Proof.
  intros Ha Hb. induction a as [| c a' IH]; [congruence |]. clear Ha.
  cbn [append group_thousands]. rewrite length_app, Hb.
  replace (String.length a' + 3)%nat with (String.length a' + 1 * 3)%nat by lia.
  rewrite Nat.Div0.mod_add.
  destruct a' as [| c' a''].
  - cbn. rewrite (group_small b) by lia. reflexivity.
  - rewrite IH by discriminate.
    cbn [String.length]. cbn [Nat.eqb negb andb Nat.add].
    destruct (Nat.eqb (S (String.length a'') mod 3) 0); reflexivity.
Qed.

Lemma format_digits s :
  all_chars is_digit s = true -> formatNumberWithCommas s = group_thousands s.
Proof.
  intros H. unfold formatNumberWithCommas.
  destruct s as [| c r]; [reflexivity |]. cbn [JS.is_empty].
  rewrite (keep_plain _ (digits_plain _ H)), (split_dots_digits _ H).
  reflexivity.
Qed.

(** X14. Thousands are grouped from the right.  A whole number of up to
    three digits is left as it is, and for a longer one the last three
    digits are set off by a comma from the formatted digits before
    them. *)
Theorem thousands_from_the_right a b :
  all_chars is_digit a = true ->
  all_chars is_digit b = true ->
  ((String.length b <= 3)%nat -> formatNumberWithCommas b = b)
  /\ (a <> "" -> String.length b = 3%nat ->
      formatNumberWithCommas (a ++ b)
      = formatNumberWithCommas a ++ "," ++ b).
Proof.
  intros Ha Hb. split.
  - intros Hlen. rewrite (format_digits _ Hb). apply group_small, Hlen.
  - intros Hne Hlen.
    rewrite (format_digits a Ha), format_digits.
    + apply group_peel; assumption.
    + rewrite all_chars_app, Ha, Hb. reflexivity.
Qed.

Lemma thousands_from_the_right_witness :
  formatNumberWithCommas ("1234" ++ "567")
  = formatNumberWithCommas "1234" ++ "," ++ "567".
Proof.
  apply (thousands_from_the_right "1234" "567"); try reflexivity.
  discriminate.
Defined.

Lemma split_dots_nonempty s : split_dots s <> [].
Proof.
  induction s as [| c r IH]; simpl; [discriminate |].
  destruct (is_dot c); [discriminate |].
  destruct (split_dots r); [contradiction | discriminate].
Qed.

Lemma split_dots_parts s :
  all_chars digit_or_dot s = true ->
  Forall (fun p => all_chars is_digit p = true) (split_dots s).
Proof.
  induction s as [| c r IH]; simpl; [repeat constructor |].
  intros H. apply andb_true_iff in H as [Hc Hr]. specialize (IH Hr).
  destruct (is_dot c) eqn:Ec; [constructor; [reflexivity | exact IH] |].
  destruct (split_dots r) as [| h t]; [repeat constructor |].
  - simpl. unfold digit_or_dot in Hc. rewrite Ec, orb_false_r in Hc.
    rewrite Hc. reflexivity.
  - inversion IH; subst. constructor; [| assumption].
    simpl. unfold digit_or_dot in Hc. rewrite Ec, orb_false_r in Hc.
    rewrite Hc. assumption.
Qed.

Lemma split_join parts :
  Forall (fun p => all_chars is_digit p = true) parts ->
  parts <> [] ->
  split_dots (join_dots parts) = parts.
Proof.
  induction 1 as [| p rest Hp Hrest IH]; [congruence |]. intros _.
  destruct rest as [| q more].
  - simpl. apply split_dots_digits, Hp.
  - change (join_dots (p :: q :: more)) with (p ++ "." ++ join_dots (q :: more)).
    rewrite (split_dots_point _ _ Hp), IH; [reflexivity | discriminate].
Qed.

Lemma join_plain parts :
  Forall (fun p => all_chars is_digit p = true) parts ->
  all_chars digit_or_dot (join_dots parts) = true.
Proof.
  induction 1 as [| p rest Hp Hrest IH]; [reflexivity |].
  destruct rest as [| q more]; [now apply digits_plain |].
  change (join_dots (p :: q :: more)) with (p ++ "." ++ join_dots (q :: more)).
  rewrite !all_chars_app, (digits_plain _ Hp), IH. reflexivity.
Qed.

Lemma keep_group s :
  all_chars is_digit s = true -> keep_digits_and_dots (group_thousands s) = s.
Proof.
  induction s as [| c r IH]; simpl; [reflexivity |].
  intros H. apply andb_true_iff in H as [Hc Hr].
  unfold digit_or_dot at 1. rewrite Hc. cbn [orb].
  destruct (negb _ && _); cbn; rewrite (IH Hr); reflexivity.
Qed.

Lemma keep_join_grouped p rest :
  all_chars is_digit p = true ->
  Forall (fun q => all_chars is_digit q = true) rest ->
  keep_digits_and_dots (join_dots (group_thousands p :: rest))
  = join_dots (p :: rest).
Proof.
  intros Hp Hrest. destruct rest as [| q more].
  - simpl. apply keep_group, Hp.
  - change (join_dots (group_thousands p :: q :: more))
      with (group_thousands p ++ "." ++ join_dots (q :: more)).
    change (join_dots (p :: q :: more)) with (p ++ "." ++ join_dots (q :: more)).
    rewrite !keep_app, (keep_group _ Hp).
    rewrite (keep_plain (join_dots (q :: more)) (join_plain _ Hrest)).
    reflexivity.
Qed.

Lemma substring_twice s : substring 0 2 (substring 0 2 s) = substring 0 2 s.
Proof. destruct s as [| a [| b [| c r]]]; reflexivity. Qed.

Lemma cut_second_twice rest : cut_second (cut_second rest) = cut_second rest.
Proof.
  destruct rest as [| p1 more]; [reflexivity |]. cbn.
  destruct p1 as [| a [| b [| c r]]]; reflexivity.
Qed.

Lemma cut_second_digits rest :
  Forall (fun q => all_chars is_digit q = true) rest ->
  Forall (fun q => all_chars is_digit q = true) (cut_second rest).
Proof.
  intros H. destruct rest as [| p1 more]; [constructor |].
  inversion H; subst. constructor; [| assumption]. cbn.
  destruct (JS.is_empty p1); [assumption | now apply substring_digits].
Qed.

(** The shape of a formatted text. *)
Lemma format_shape value :
  formatNumberWithCommas value = ""
  \/ exists p0 rest,
       all_chars is_digit p0 = true
       /\ Forall (fun q => all_chars is_digit q = true) rest
       /\ formatNumberWithCommas value
          = join_dots (group_thousands p0 :: cut_second rest).
Proof.
  unfold formatNumberWithCommas.
  destruct (JS.is_empty value); [now left |].
  pose proof (split_dots_parts _ (keep_all value)) as Hparts.
  destruct (split_dots (keep_digits_and_dots value)) as [| p0 rest];
    [now left |].
  inversion Hparts; subst. right. exists p0, rest. repeat split; assumption.
Qed.

Lemma format_of_shape p0 rest :
  all_chars is_digit p0 = true ->
  Forall (fun q => all_chars is_digit q = true) rest ->
  formatNumberWithCommas (join_dots (group_thousands p0 :: cut_second rest))
  = join_dots (group_thousands p0 :: cut_second rest).
Proof.
  intros Hp0 Hrest. pose proof (cut_second_digits _ Hrest) as Hcut.
  unfold formatNumberWithCommas.
  destruct (join_dots (group_thousands p0 :: cut_second rest)) eqn:He;
    [reflexivity |].
  cbn [JS.is_empty]. rewrite <- He.
  rewrite (keep_join_grouped _ _ Hp0 Hcut).
  rewrite split_join; [| constructor; assumption | discriminate].
  fold (cut_second (cut_second rest)). rewrite cut_second_twice. reflexivity.
Qed.

(** X15. Formatting is idempotent: formatting a formatted balance again
    changes nothing, for every text. *)
Theorem formatting_twice value :
  formatNumberWithCommas (formatNumberWithCommas value)
  = formatNumberWithCommas value.
Proof.
  destruct (format_shape value) as [E | (p0 & rest & Hp0 & Hrest & E)];
    rewrite E; [reflexivity |].
  apply format_of_shape; assumption.
Qed.

(** ** What a typed balance parses to *)

Lemma digit_in_nonneg base c d : JS.digit_in base c = Some d -> 0 <= d.
Proof.
  unfold JS.digit_in. set (n := JS.code c).
  destruct ((48 <=? n) && (n <=? 57)) eqn:E1.
  - apply andb_true_iff in E1 as [A _]. apply Z.leb_le in A.
    destruct (_ <? base); intros X; inversion X; lia.
  - destruct ((97 <=? n) && (n <=? 102)) eqn:E2.
    + apply andb_true_iff in E2 as [A _]. apply Z.leb_le in A.
      destruct (_ <? base); intros X; inversion X; lia.
    + destruct ((65 <=? n) && (n <=? 70)) eqn:E3.
      * apply andb_true_iff in E3 as [A _]. apply Z.leb_le in A.
        destruct (_ <? base); intros X; inversion X; lia.
      * destruct (_ <? base); intros X; inversion X; lia.
Qed.

Lemma read_digits_nonneg base s : forall acc cnt,
  0 <= base -> 0 <= acc ->
  0 <= fst (fst (JS.read_digits base s acc cnt)).
Proof.
  induction s as [| c r IH]; intros acc cnt Hb Ha; simpl; [exact Ha |].
  destruct (JS.digit_in base c) as [d |] eqn:E; [| exact Ha].
  apply IH; [exact Hb |]. pose proof (digit_in_nonneg _ _ _ E). nia.
Qed.

Lemma scale10_nonneg m e : 0 <= m -> (0 <= JS.scale10 m e)%Q.
Proof.
  intros Hm. unfold JS.scale10.
  destruct (0 <=? e) eqn:He.
  - apply Z.leb_le in He. change 0%Q with (inject_Z 0). rewrite <- Zle_Qle.
    apply Z.mul_nonneg_nonneg; [exact Hm | now apply Z.pow_nonneg].
  - rewrite Qred_correct. unfold Qle. simpl. lia.
Qed.

(** An unsigned decimal literal never denotes a negative number. *)
Lemma read_decimal_nonneg s q : JS.read_decimal s = Some q -> (0 <= q)%Q.
Proof.
  unfold JS.read_decimal.
  pose proof (read_digits_nonneg 10 s 0 0) as H1.
  destruct (JS.read_digits 10 s 0 0) as [[ip n1] r1]. cbn in H1.
  assert (Hip : 0 <= ip) by (apply H1; lia).
  assert (Hplain :
    match n1 with
    | O => None
    | S _ => match JS.read_exponent r1 with
             | Some e => Some (JS.scale10 ip e)
             | None => None
             end
    end = Some q -> (0 <= q)%Q).
  { destruct n1; [discriminate |].
    destruct (JS.read_exponent r1); [| discriminate].
    intros H. inversion H. now apply scale10_nonneg. }
  destruct r1 as [| c r]; [exact Hplain |].
  destruct (Ascii.eqb_spec c "."%char) as [-> | Hc].
  - pose proof (read_digits_nonneg 10 r 0 0) as H2.
    destruct (JS.read_digits 10 r 0 0) as [[fp n2] r2]. cbn in H2.
    destruct (n1 + n2)%nat; [discriminate |].
    destruct (JS.read_exponent r2); [| discriminate].
    intros H. inversion H. apply scale10_nonneg.
    assert (0 <= fp) by (apply H2; lia).
    assert (0 <= 10 ^ Z.of_nat n2) by (apply Z.pow_nonneg; lia). nia.
  - destruct c as [[] [] [] [] [] [] [] []];
      try exact Hplain; congruence.
Qed.

Lemma plain_not_space c : digit_or_dot c = true -> JS.is_space c = false.
Proof.
  unfold digit_or_dot, is_dot, JS.is_space. intros H.
  apply orb_true_iff in H as [H | H].
  - apply digit_code in H.
    destruct (Z.leb_spec 9 (JS.code c)); destruct (Z.leb_spec (JS.code c) 13);
      destruct (Z.eqb_spec (JS.code c) 32); cbn; try reflexivity; lia.
  - apply Z.eqb_eq in H.
    destruct (Z.leb_spec 9 (JS.code c)); destruct (Z.leb_spec (JS.code c) 13);
      destruct (Z.eqb_spec (JS.code c) 32); cbn; try reflexivity; lia.
Qed.

Lemma trim_start_plain s :
  all_chars digit_or_dot s = true -> JS.trim_start s = s.
Proof.
  destruct s as [| c r]; [reflexivity |]. simpl. intros H.
  apply andb_true_iff in H as [Hc _]. rewrite (plain_not_space _ Hc).
  reflexivity.
Qed.

Lemma rev_string_all p s : forall acc,
  all_chars p (JS.rev_string acc s) = all_chars p s && all_chars p acc.
Proof.
  induction s as [| c r IH]; intros acc; simpl; [reflexivity |].
  rewrite IH. simpl. rewrite andb_assoc, (andb_comm (all_chars p r) (p c)).
  reflexivity.
Qed.

Lemma rev_string_twice s : forall a b,
  JS.rev_string a (JS.rev_string b s) = JS.rev_string (s ++ a) b.
Proof.
  induction s as [| c r IH]; intros a b; simpl; [reflexivity |].
  rewrite IH. reflexivity.
Qed.

Lemma trim_plain s : all_chars digit_or_dot s = true -> JS.trim s = s.
Proof.
  intros H. unfold JS.trim.
  rewrite (trim_start_plain _ H), trim_start_plain.
  - rewrite rev_string_twice. simpl. apply append_empty.
  - rewrite rev_string_all, H. reflexivity.
Qed.

(** A text of digits and dots is read as an unsigned decimal literal. *)
Lemma Number_of_plain t :
  all_chars digit_or_dot t = true ->
  JS.Number_of_string t
  = match t with
    | EmptyString => JS.of_Z 0
    | _ => match JS.read_decimal t with
           | Some q => JS.binary64 q
           | None => JS.NaN
           end
    end.
Proof.
  intros H. unfold JS.Number_of_string. rewrite (trim_plain _ H).
  destruct t as [| c1 t1]; [reflexivity |].
  simpl in H. apply andb_true_iff in H as [H1 Ht1].
  destruct c1 as [[] [] [] [] [] [] [] []]; try discriminate H1;
    try reflexivity.
  destruct t1 as [| c2 r]; [reflexivity |].
  simpl in Ht1. apply andb_true_iff in Ht1 as [H2 _].
  destruct c2 as [[] [] [] [] [] [] [] []]; try discriminate H2;
    reflexivity.
Qed.

(** A number rounded from a rational that is zero or more is zero or more,
    or positive infinity. *)
Lemma binary64_nonneg_cases q :
  (0 <= q)%Q ->
  JS.binary64 q = JS.PInf \/ exists r, JS.binary64 q = JS.Fin r /\ (0 <= r)%Q.
Proof.
  intros H. pose proof (binary64_nonneg q H) as L.
  pose proof (binary64_number q) as N.
  destruct (JS.binary64 q) as [| | | r]; [congruence | now left | discriminate |].
  right. exists r. split; [reflexivity |].
  cbn [JS.leb] in L. now apply Qle_bool_iff in L.
Qed.

Example long_balance_is_infinite :
  all_chars is_digit digits_310 = true
  /\ String.length digits_310 = 310%nat
  /\ handleBalanceChange digits_310 = digits_310
  /\ JS.Number_of_string digits_310 = JS.PInf.
Proof. vm_compute. repeat split. Qed.

(** X16. A balance entered through [handleBalanceChange] consists of
    digits and dots only, whatever text was typed or pasted, and never
    parses to a negative number: the derived calculations read it as NaN
    (for a lone dot or several dots), as positive infinity (a text of 310
    digits is beyond the largest binary64 number) or as a finite number
    that is zero or more. *)
Theorem typed_balance_is_not_negative state value :
  let b := parsed_balance (with_balance state (handleBalanceChange value)) in
  all_chars digit_or_dot (handleBalanceChange value) = true
  /\ (b = JS.NaN \/ b = JS.PInf \/ exists q, b = JS.Fin q /\ (0 <= q)%Q)
  /\ parsed_balance (with_balance state (handleBalanceChange digits_310))
     = JS.PInf.
Proof.
  intros b. subst b. unfold parsed_balance. cbn [balance with_balance].
  pose proof (typed_balance_plain value) as Hplain.
  split; [exact Hplain |]. split; [| vm_compute; reflexivity].
  rewrite (remove_commas_plain _ Hplain).
  destruct (JS.is_empty (handleBalanceChange value));
    [right; right; exists (inject_Z 0); split; [reflexivity | apply Qle_refl] |].
  rewrite (Number_of_plain _ Hplain).
  destruct (handleBalanceChange value) as [| c r];
    [right; right; exists (inject_Z 0); split; [reflexivity | apply Qle_refl] |].
  destruct (JS.read_decimal (String c r)) as [q |] eqn:E; [| now left].
  right. apply binary64_nonneg_cases. now apply read_decimal_nonneg in E.
Qed.

(** ** The currency picker *)

Lemma listCurrencies_keeps_state w : st (snd (listCurrencies w)) = st w.
Proof. unfold listCurrencies. run_cases; reflexivity. Qed.

(** X17. Offline, or when [listCurrencies] rejects, the picker keeps what
    it can: it shows the cached catalogue if the state holds a non-empty
    one and otherwise what it showed before, the state is not touched, the
    loading flag ends up false, and offline nothing is requested or
    logged. *)
Theorem catalogue_survives_failure isOnline state ui w :
  isOnline = false \/ (exists e, fst (listCurrencies w) = Throw e) ->
  let ui' := fst (loadCurrencies isOnline state ui w) in
  let w' := snd (loadCurrencies isOnline state ui w) in
  currencies ui' = match usable_cache state with
                   | Some l => l
                   | None => currencies ui
                   end
  /\ currenciesLoading ui' = false
  /\ st w' = st w
  /\ (isOnline = false -> w' = w).
Proof.
  intros H ui' w'. subst ui' w'. unfold loadCurrencies.
  pose proof (listCurrencies_keeps_state w) as Hst.
  destruct isOnline.
  - destruct H as [H | (e & He)]; [discriminate |].
    destruct (listCurrencies w) as [[l | e'] w1]; cbn in *; [discriminate |].
    destruct (usable_cache state); cbn; repeat split; auto; discriminate.
  - destruct (usable_cache state); cbn; repeat split; auto.
Qed.

Lemma catalogue_survives_failure_witness :
  currencies (fst (loadCurrencies true eur_3000_keyed loading
                     (world_without_catalogue eur_3000_keyed)))
  = [("EUR", "Euro")].
Proof.
  refine (proj1 (catalogue_survives_failure true eur_3000_keyed loading
                   (world_without_catalogue eur_3000_keyed) _)).
  right. exists "Failed to fetch currencies". reflexivity.
Defined.

(** X18. Online, when [listCurrencies] resolves, the picker shows the
    fetched catalogue, the state caches exactly that list and is otherwise
    what it was, and the loading flag ends up false. *)
Theorem catalogue_refreshed state ui w l :
  fst (listCurrencies w) = Ok l ->
  let ui' := fst (loadCurrencies true state ui w) in
  let w' := snd (loadCurrencies true state ui w) in
  currencies ui' = l
  /\ currenciesLoading ui' = false
  /\ st w' = set_cachedCurrencies (st w) l
  /\ trace w' = trace (snd (listCurrencies w)).
Proof.
  intros H ui' w'. subst ui' w'. unfold loadCurrencies.
  pose proof (listCurrencies_keeps_state w) as Hst.
  destruct (listCurrencies w) as [[l' | e] w1]; cbn in *; [| discriminate].
  inversion H; subst l'. rewrite Hst.
  destruct (usable_cache state); cbn; repeat split.
Qed.

Lemma catalogue_refreshed_witness :
  currencies (fst (loadCurrencies true eur_3000 loading
                     (world_with provider_up eur_3000)))
  = [("AUD", "Australian Dollar"); ("BGN", "Bulgarian Lev");
     ("BRL", "Brazilian Real")].
Proof.
  refine (proj1 (catalogue_refreshed eur_3000 loading
                   (world_with provider_up eur_3000) _ _)).
  reflexivity.
Defined.

(** ** The default payday *)

Example nextMonthFifteenthISO_before :
  nextMonthFifteenthISO march_14th_evening = "2024-03-15".
Proof. reflexivity. Qed.
Example nextMonthFifteenthISO_december :
  nextMonthFifteenthISO december_15th = "2025-01-15".
Proof. reflexivity. Qed.

Lemma all_years_print_well : forallb four_digit_year years_1000_to_9999 = true.
Proof. vm_compute. reflexivity. Qed.

Lemma year_prints_well y : 1000 <= y <= 9999 -> four_digit_year y = true.
Proof.
  intros H. pose proof all_years_print_well as Hall.
  rewrite forallb_forall in Hall. apply Hall.
  unfold years_1000_to_9999.
  replace y with (1000 + Z.of_nat (Z.to_nat (y - 1000))) by lia.
  apply (in_map (fun i => 1000 + Z.of_nat i)), in_seq. lia.
Qed.

Lemma digit_in_10 c : is_digit c = true -> JS.digit_in 10 c = Some (JS.code c - 48).
Proof.
  intros H. pose proof (digit_code _ H) as Hc. unfold JS.digit_in.
  unfold is_digit, Date.in_range in H. rewrite H.
  destruct (Z.ltb_spec (JS.code c - 48) 10); [reflexivity | lia].
Qed.

Lemma string_app_assoc (a b c : string) : (a ++ b) ++ c = a ++ (b ++ c).
Proof. induction a as [| x r IH]; simpl; [reflexivity | now rewrite IH]. Qed.

(** A year from 1000 to 9999, printed, is read back by the date parser. *)
Lemma read_year_printed y rest :
  1000 <= y <= 9999 ->
  Date.read_year (String_of_int y ++ rest) = Some (y, rest).
Proof.
  intros H. pose proof (year_prints_well y H) as Hy.
  unfold String_of_int. destruct (Z.ltb_spec y 0); [lia |].
  unfold four_digit_year in Hy.
  destruct (JS.string_of_Z y) as [| a [| b [| c [| d [| e r]]]]];
    try discriminate Hy.
  apply andb_true_iff in Hy as [Hy Hval].
  apply andb_true_iff in Hy as [Hy Hd].
  apply andb_true_iff in Hy as [Hy Hc].
  apply andb_true_iff in Hy as [Hy Hb].
  assert (Hsign : Date.read_year (String a (String b (String c (String d rest))))
                  = Date.read_n 4 (String a (String b (String c (String d rest)))) 0).
  { destruct a as [[] [] [] [] [] [] [] []]; try reflexivity; discriminate Hy. }
  cbn [append]. rewrite Hsign. cbn [Date.read_n].
  rewrite (digit_in_10 a Hy), (digit_in_10 b Hb), (digit_in_10 c Hc),
    (digit_in_10 d Hd).
  apply Z.eqb_eq in Hval. do 2 f_equal. lia.
Qed.

Lemma read_default_payday now rest :
  1000 <= getFullYear now <= 9998 ->
  0 <= getMonth now <= 11 ->
  Date.read_date (nextMonthFifteenthISO now ++ rest)
  = Some (fst (default_month now), snd (default_month now), 15, rest).
Proof.
  destruct now as [y m d]. cbn [getFullYear getMonth getDate].
  intros Hy Hm.
  unfold nextMonthFifteenthISO, fifteenth_of, default_month.
  cbn [getFullYear getMonth getDate].
  assert (Hr : Date.in_range 0 y 99 = false).
  { unfold Date.in_range. destruct (Z.leb_spec y 99); [lia |].
    apply andb_false_r. }
  rewrite Hr.
  assert (Hcases : m = 0 \/ m = 1 \/ m = 2 \/ m = 3 \/ m = 4 \/ m = 5 \/ m = 6
                   \/ m = 7 \/ m = 8 \/ m = 9 \/ m = 10 \/ m = 11) by lia.
  destruct (d <? 15);
    repeat (destruct Hcases as [-> | Hcases]); try subst m;
    cbn [Z.eqb Z.add Z.div Z.modulo Z.div_eucl Z.pos_div_eucl Pos.add
         Pos.succ Pos.eqb Z.leb Z.ltb Z.compare Pos.compare Pos.compare_cont
         Z.mul Pos.mul Z.sub Z.opp Z.pos_sub Z.succ_double Z.pred_double
         Z.double Pos.pred_double fst snd];
    rewrite ?Z.add_0_r;
    rewrite string_app_assoc;
    unfold Date.read_date;
    rewrite read_year_printed by lia;
    reflexivity.
Qed.

(** X19. The default payday is the 15th in the form the date parser
    reads: of the current month while today is before the 15th, and from
    the 15th on of the next month, which after December is January of the
    next year. *)
Theorem default_payday_is_a_fifteenth now :
  1000 <= getFullYear now <= 9998 ->
  0 <= getMonth now <= 11 ->
  Date.read_date (nextMonthFifteenthISO now)
  = Some (fst (default_month now), snd (default_month now), 15, "")
  /\ (getDate now < 15 ->
      default_month now = (getFullYear now, getMonth now + 1))
  /\ (15 <= getDate now -> getMonth now < 11 ->
      default_month now = (getFullYear now, getMonth now + 2))
  /\ (15 <= getDate now -> getMonth now = 11 ->
      default_month now = (getFullYear now + 1, 1)).
Proof.
  intros Hy Hm. split.
  - rewrite <- (append_empty (nextMonthFifteenthISO now)).
    apply read_default_payday; assumption.
  - unfold default_month. repeat split.
    + intros H. apply Z.ltb_lt in H. rewrite H. reflexivity.
    + intros Hd Hmo. destruct (Z.ltb_spec (getDate now) 15); [lia |].
      destruct (Z.eqb_spec (getMonth now) 11); [lia | reflexivity].
    + intros Hd Hmo. destruct (Z.ltb_spec (getDate now) 15); [lia |].
      rewrite Hmo. reflexivity.
Qed.

Lemma default_payday_is_a_fifteenth_witness :
  Date.read_date (nextMonthFifteenthISO december_15th) = Some (2025, 1, 15, "").
Proof.
  refine (proj1 (default_payday_is_a_fifteenth december_15th _ _));
    cbn; lia.
Defined.

Lemma days_from_civil_day y m d1 d2 :
  Date.days_from_civil y m d2 = Date.days_from_civil y m d1 + (d2 - d1).
Proof. unfold Date.days_from_civil. cbv zeta. lia. Qed.

Lemma days_from_civil_bounds y m :
  1000 <= y <= 9999 -> 1 <= m <= 12 ->
  -400000 <= Date.days_from_civil y m 15 <= 3000000.
Proof.
  intros Hy Hm. unfold Date.days_from_civil. cbv zeta.
  destruct (m <=? 2); destruct (2 <? m);
    Z.div_mod_to_equations; lia.
Qed.

Lemma next_month_later y m d :
  1 <= m <= 12 -> d <= 31 ->
  Date.days_from_civil y m d + 12
  <= Date.days_from_civil (if m =? 12 then y + 1 else y)
                          (if m =? 12 then 1 else m + 1) 15.
Proof.
  intros Hm Hd.
  assert (Hcases : m = 1 \/ m = 2 \/ m = 3 \/ m = 4 \/ m = 5 \/ m = 6
                   \/ m = 7 \/ m = 8 \/ m = 9 \/ m = 10 \/ m = 11 \/ m = 12)
    by lia.
  repeat (destruct Hcases as [-> | Hcases]); try subst m;
    unfold Date.days_from_civil;
    cbn [Z.eqb Z.leb Z.ltb Z.compare Pos.compare Pos.compare_cont Pos.eqb
         Z.add Pos.add Pos.succ Z.sub Z.opp Z.pos_sub Z.pred_double
         Z.succ_double Z.double Pos.pred_double];
    cbv zeta; Z.div_mod_to_equations; lia.
Qed.

Lemma default_month_range now :
  1000 <= getFullYear now <= 9998 ->
  0 <= getMonth now <= 11 ->
  1000 <= fst (default_month now) <= 9999
  /\ 1 <= snd (default_month now) <= 12.
Proof.
  intros Hy Hm. unfold default_month.
  destruct (getDate now <? 15); [cbn; lia |].
  destruct (Z.eqb_spec (getMonth now) 11); cbn; lia.
Qed.

Lemma default_month_later now :
  0 <= getMonth now <= 11 ->
  getDate now <= 31 ->
  Date.days_from_civil (getFullYear now) (getMonth now + 1) (getDate now) + 1
  <= Date.days_from_civil (fst (default_month now)) (snd (default_month now)) 15.
Proof.
  intros Hm Hd. unfold default_month.
  destruct (Z.ltb_spec (getDate now) 15) as [Hlt | Hge]; cbn [fst snd].
  - rewrite (days_from_civil_day _ _ (getDate now) 15). lia.
  - pose proof (next_month_later (getFullYear now) (getMonth now + 1)
                  (getDate now) ltac:(lia) Hd) as H.
    destruct (Z.eqb_spec (getMonth now) 11) as [E | E]; cbn [fst snd].
    + rewrite E in *. change (11 + 1 =? 12) with true in H.
      cbv iota in H. lia.
    + destruct (Z.eqb_spec (getMonth now + 1) 12); [lia |].
      replace (getMonth now + 2) with (getMonth now + 1 + 1) by lia. lia.
Qed.

Lemma days_in_month_at_least y m : 28 <= Date.days_in_month y m.
Proof.
  unfold Date.days_in_month.
  destruct (m =? 2); [destruct (Date.is_leap y); lia |].
  destruct (_ || _); lia.
Qed.

Lemma in_range_true lo x hi : lo <= x <= hi -> Date.in_range lo x hi = true.
Proof.
  intros H. unfold Date.in_range. apply andb_true_iff.
  split; apply Z.leb_le; lia.
Qed.

(** The end of the default payday, in a zone whose offsets stay within a
    day. *)
Lemma end_of_default_payday tz ro now :
  1000 <= getFullYear now <= 9998 ->
  0 <= getMonth now <= 11 ->
  (forall t, - (24 * hour) <= tz t <= 24 * hour) ->
  let t := Date.days_from_civil (fst (default_month now))
             (snd (default_month now)) 15 * Date.msPerDay
           + Date.MakeTime 23 59 59 in
  Date.parse tz ro (nextMonthFifteenthISO now ++ "T23:59:59")
  = JS.of_Z (t - tz t).
Proof.
  intros Hy Hm Htz t.
  destruct (default_month_range now Hy Hm) as (Hy' & Hm').
  unfold Date.parse. rewrite (read_default_payday now _ Hy Hm).
  change (Date.read_time "T23:59:59") with (Some (23, 59, 59)).
  cbv iota beta.
  rewrite (in_range_true 1 _ 12 Hm').
  rewrite (in_range_true 1 15 _)
    by (pose proof (days_in_month_at_least (fst (default_month now))
                      (snd (default_month now))); destruct ro; lia).
  cbn [andb Date.in_range Z.leb Z.compare Pos.compare Pos.compare_cont orb].
  fold t.
  pose proof (days_from_civil_bounds _ _ Hy' Hm') as Hb.
  specialize (Htz t).
  destruct (Z.leb_spec (Z.abs (t - tz t)) 8640000000000000) as [_ | Hbig];
    [reflexivity |].
  exfalso. subst t.
  unfold Date.msPerDay, Date.MakeTime, hour in *. lia.
Qed.

(** X20. The default payday is always ahead.  When storage holds no
    paydate, the initial state gets the default one; in a time zone whose
    offsets stay within a day and vary by at most two hours, its end of
    day is after the moment of the reading, so with a positive balance the
    first render shows a budget with at least one day left and never the
    error "Choose a future payday.". *)
Theorem default_payday_is_ahead env now tod merged :
  1000 <= getFullYear now <= 9998 ->
  0 <= getMonth now <= 11 ->
  1 <= getDate now <= 31 ->
  0 <= tod < Date.msPerDay ->
  new_Date env = local_time now tod - LocalTZA env (local_time now tod) ->
  (forall t, - (24 * hour) <= LocalTZA env t <= 24 * hour) ->
  (forall t1 t2, LocalTZA env t1 - LocalTZA env t2 <= 2 * hour) ->
  paydate merged = "" ->
  let s := initial_state merged now in
  paydate s = nextMonthFifteenthISO now
  /\ exists pay,
       end_of_day env s = JS.of_Z pay
       /\ new_Date env < pay
       /\ (positive (parsed_balance merged) ->
           error (compute env s) = ""
           /\ perDay (compute env s) <> None
           /\ JS.geb (daysLeft (compute env s)) (JS.of_Z 1) = true).
Proof.
  intros Hy Hm Hd Htod Hnow Hbound Hvar Hempty s. subst s.
  unfold initial_state. rewrite Hempty. cbn [JS.is_empty].
  set (s := with_paydate merged (nextMonthFifteenthISO now)).
  split; [reflexivity |].
  pose proof (end_of_default_payday (LocalTZA env) (rolls_days_over env) now
                Hy Hm Hbound) as Hend.
  cbv zeta in Hend.
  set (t := Date.days_from_civil (fst (default_month now))
              (snd (default_month now)) 15 * Date.msPerDay
            + Date.MakeTime 23 59 59) in *.
  exists (t - LocalTZA env t).
  assert (Hahead : new_Date env < t - LocalTZA env t).
  { rewrite Hnow. unfold local_time.
    pose proof (default_month_later now Hm ltac:(lia)) as Hlater.
    specialize (Hvar t (Date.days_from_civil (getFullYear now)
                          (getMonth now + 1) (getDate now)
                        * Date.msPerDay + tod)).
    subst t. unfold Date.msPerDay, Date.MakeTime, hour in *. lia. }
  split; [exact Hend |]. split; [exact Hahead |].
  intros Hpos.
  assert (Hpos' : positive (parsed_balance s)) by exact Hpos.
  rewrite (compute_future env s _ (positive_truthy _ Hpos') Hend Hahead).
  pose proof (ceil_days_future _ _ Hahead) as Hdays.
  destruct (conversion_rate s);
    cbn [error perDay daysLeft set_rateLine set_perDay set_convertedDisplay
         set_amountDisplay set_daysLeft out0];
    (split; [reflexivity |]); (split; [discriminate |]);
    unfold JS.geb; rewrite leb_of_Z; apply Z.leb_le; exact Hdays.
Qed.

Lemma default_payday_is_ahead_witness :
  error (compute (utc_at (march_1st + 13 * 24 * hour + 23 * hour) eq_refl)
           (initial_state (with_paydate eur_3000 "") march_14th_evening))
  = "".
Proof.
  destruct (default_payday_is_ahead
              (utc_at (march_1st + 13 * 24 * hour + 23 * hour) eq_refl)
              march_14th_evening (23 * hour) (with_paydate eur_3000 ""))
    as (_ & pay & _ & _ & H).
  - cbn. lia.
  - cbn. lia.
  - cbn. lia.
  - unfold Date.msPerDay, hour. lia.
  - reflexivity.
  - intros t. unfold hour. cbn. lia.
  - intros t1 t2. unfold hour. cbn. lia.
  - reflexivity.
  - apply H. reflexivity.
Defined.

(** ** Storage *)

Lemma lookup_drop_same k (o : object) : lookup k (drop_key k o) = None.
Proof.
  induction o as [| [k' v] r IH]; simpl; [reflexivity |].
  destruct (String.eqb k' k) eqn:E; [exact IH |].
  simpl. rewrite E. exact IH.
Qed.

Lemma lookup_drop_other k k' (o : object) :
  k' <> k -> lookup k' (drop_key k o) = lookup k' o.
Proof.
  intros Hne. induction o as [| [k0 v] r IH]; simpl; [reflexivity |].
  destruct (String.eqb_spec k0 k) as [-> | Hk].
  - destruct (String.eqb_spec k k') as [E | _]; [congruence | exact IH].
  - simpl. rewrite IH. reflexivity.
Qed.

Lemma lookup_put_same k v (o : object) : lookup k (put k v o) = Some v.
Proof. unfold put. simpl. rewrite String.eqb_refl. reflexivity. Qed.

Lemma lookup_put_other k k' v (o : object) :
  k' <> k -> lookup k' (put k v o) = lookup k' o.
Proof.
  intros Hne. unfold put. simpl.
  destruct (String.eqb_spec k k') as [E | _]; [congruence |].
  apply lookup_drop_other, Hne.
Qed.

Lemma lookup_app k (a b : object) :
  lookup k (a ++ b)%list
  = match lookup k a with Some v => Some v | None => lookup k b end.
Proof.
  induction a as [| [k' v] r IH]; simpl; [reflexivity |].
  destruct (String.eqb k' k); [reflexivity | exact IH].
Qed.

Lemma lookup_pick k ks (o : object) :
  lookup k (pick ks o) = if has_key k ks then lookup k o else None.
Proof.
  unfold has_key. induction ks as [| k0 r IH]; simpl; [reflexivity |].
  destruct (lookup k0 o) as [v |] eqn:E; simpl.
  - destruct (String.eqb_spec k0 k) as [-> | Hne]; [now rewrite E | exact IH].
  - destruct (String.eqb_spec k0 k) as [-> | Hne];
      [rewrite IH, E; now destruct (existsb _ r) | exact IH].
Qed.

Lemma is_v2_iff v : is_v2 v = true <-> v = Some (JStr "v2").
Proof.
  unfold is_v2. split.
  - destruct v as [[| | | s | |] |]; try discriminate.
    intros H. apply String.eqb_eq in H. now subst.
  - intros ->. reflexivity.
Qed.

Lemma not_empty_text t : t <> "" -> JS.is_empty t = false.
Proof. destruct t; [congruence | reflexivity]. Qed.

(** X21. What [saveState] writes, [loadState] reads back.  When storage is
    open, the text fits and parses back to the object written, the next
    [loadState] returns that object and writes nothing: it carries
    version "v2" and the time of saving, and every other property of the
    saved object as it was. *)
Theorem saved_state_comes_back obj d :
  let data := dataToSave obj (disk_now d) in
  let text := JSON_stringify d data in
  denied d = None ->
  quota d text = None ->
  text <> "" ->
  JSON_parse d text = Some (JObj data) ->
  item (saveState obj d) = Some text
  /\ loadState (saveState obj d) = (data, saveState obj d)
  /\ lookup "version" data = Some (JStr "v2")
  /\ lookup "lastSaved" data = Some (JNum (JS.of_Z (disk_now d)))
  /\ (forall k, k <> "version" -> k <> "lastSaved" ->
                lookup k data = lookup k obj).
Proof.
  intros data text Hopen Hfits Htext Hparse.
  assert (Hv : lookup "version" data = Some (JStr "v2")).
  { subst data. unfold dataToSave.
    rewrite lookup_put_other by discriminate. apply lookup_put_same. }
  assert (Hsave : saveState obj d = with_item d (Some text)).
  { unfold saveState, setItem. fold data. fold text.
    rewrite Hopen, Hfits. reflexivity. }
  rewrite Hsave. split; [reflexivity |]. split.
  - unfold loadState. cbn [denied item with_item JSON_parse].
    rewrite Hopen, (not_empty_text _ Htext), Hparse.
    cbn [field own_props]. rewrite Hv. reflexivity.
  - split; [exact Hv |]. split.
    + subst data. unfold dataToSave. apply lookup_put_same.
    + intros k Hk1 Hk2. subst data. unfold dataToSave.
      rewrite !lookup_put_other by assumption. reflexivity.
Qed.

Lemma saved_state_comes_back_witness :
  fst (loadState (saveState saved_v1
                    (disk_of (dataToSave saved_v1 march_1st) None None)))
  = dataToSave saved_v1 march_1st.
Proof.
  pose proof (saved_state_comes_back saved_v1
                (disk_of (dataToSave saved_v1 march_1st) None None)
                eq_refl eq_refl ltac:(discriminate) eq_refl) as H.
  cbv zeta in H. destruct H as (_ & H & _).
  rewrite H. reflexivity.
Defined.

(** X22. When the full object does not fit, the essential fields are
    saved.  If the first write fails with QuotaExceededError and the
    second fits, one warning is logged and what is stored afterwards holds
    the version and the seven essential properties the object had,
    nothing else: the cached rate, the cached catalogue and the time of
    saving are gone. *)
Theorem essentials_saved_over_quota obj d :
  let full := JSON_stringify d (dataToSave obj (disk_now d)) in
  let text := JSON_stringify d (essential obj) in
  denied d = None ->
  quota d full = Some "QuotaExceededError" ->
  quota d text = None ->
  text <> "" ->
  JSON_parse d text = Some (JObj (essential obj)) ->
  item (saveState obj d) = Some text
  /\ disk_log (saveState obj d)
     = Warned "Storage failed:" "QuotaExceededError" :: disk_log d
  /\ fst (loadState (saveState obj d)) = essential obj
  /\ (forall k, lookup k (essential obj)
                = if has_key k essential_keys then lookup k obj
                  else if String.eqb k "version" then Some (JStr "v2")
                  else None).
Proof.
  intros full text Hopen Hfull Hfits Htext Hparse.
  assert (Hlook : forall k, lookup k (essential obj)
                = if has_key k essential_keys then lookup k obj
                  else if String.eqb k "version" then Some (JStr "v2")
                  else None).
  { intros k. unfold essential. rewrite lookup_app, lookup_pick.
    change (lookup k [("version", JStr "v2")])
      with (if String.eqb "version" k then Some (JStr "v2") else None).
    rewrite (String.eqb_sym k "version").
    destruct (has_key k essential_keys) eqn:Hk; [| reflexivity].
    destruct (lookup k obj) eqn:E; [reflexivity |].
    destruct (String.eqb_spec "version" k) as [<- | _];
      [vm_compute in Hk; discriminate Hk | reflexivity]. }
  assert (Hsave : saveState obj d
                  = with_item (logged d (Warned "Storage failed:"
                                           "QuotaExceededError")) (Some text)).
  { unfold saveState, setItem. fold full.
    rewrite Hopen, Hfull. cbn [String.eqb Ascii.eqb Bool.eqb].
    cbn [denied logged quota JSON_stringify]. fold text.
    rewrite Hopen, Hfits. reflexivity. }
  rewrite Hsave. split; [reflexivity |]. split; [reflexivity |].
  split; [| exact Hlook].
  unfold loadState. cbn [denied item with_item logged JSON_parse].
  rewrite Hopen, (not_empty_text _ Htext), Hparse.
  cbn [field own_props]. rewrite Hlook.
  reflexivity.
Qed.

Lemma essentials_saved_over_quota_witness :
  fst (loadState (saveState saved_v1 (tight_disk (essential saved_v1))))
  = essential saved_v1.
Proof.
  pose proof (essentials_saved_over_quota saved_v1
                (tight_disk (essential saved_v1))
                eq_refl eq_refl eq_refl ltac:(discriminate) eq_refl) as H.
  cbv zeta in H. destruct H as (_ & _ & H & _).
  exact H.
Defined.

(** X23. A save that fails for another reason than the quota is not
    retried: when storage is blocked, or the write throws any error other
    than QuotaExceededError, [saveState] logs one warning and leaves what
    is stored as it was. *)
Theorem failed_save_is_not_retried obj d e :
  setItem d (JSON_stringify d (dataToSave obj (disk_now d))) = inr e ->
  e <> "QuotaExceededError" ->
  saveState obj d = logged d (Warned "Storage failed:" e)
  /\ item (saveState obj d) = item d.
Proof.
  intros Hset Hne. unfold saveState. rewrite Hset.
  apply String.eqb_neq in Hne. rewrite Hne. split; reflexivity.
Qed.

Lemma failed_save_is_not_retried_witness :
  item (saveState saved_v1
          (disk_of saved_v1 (Some "saved") (Some "InvalidStateError")))
  = Some "saved".
Proof.
  refine (proj2 (failed_save_is_not_retried saved_v1
                   (disk_of saved_v1 (Some "saved") (Some "InvalidStateError"))
                   "InvalidStateError" _ _)).
  - reflexivity.
  - discriminate.
Defined.

(** X24. With nothing usable in storage, [loadState] returns the empty
    object and writes nothing: when the item is missing or empty it does
    so silently, and when storage is blocked, the text does not parse or
    parses to null it logs one warning. *)
Theorem nothing_to_load d :
  item d = None \/ item d = Some ""
  \/ denied d <> None
  \/ (exists raw, item d = Some raw
                  /\ (JSON_parse d raw = None \/ JSON_parse d raw = Some JNull)) ->
  fst (loadState d) = []
  /\ item (snd (loadState d)) = item d
  /\ (denied d = None -> item d = None \/ item d = Some "" ->
      snd (loadState d) = d).
Proof.
  intros H. unfold loadState, load_failed.
  destruct (denied d) as [e |] eqn:Hd.
  - split; [reflexivity |]. split; [reflexivity | discriminate].
  - destruct H as [H | [H | [H | (raw & Hraw & H)]]].
    + rewrite H. cbn [fst snd]. auto.
    + rewrite H. cbn [fst snd JS.is_empty]. auto.
    + congruence.
    + rewrite Hraw. destruct (JS.is_empty raw) eqn:He; cbn [fst snd]; [auto |].
      assert (Hne : raw <> "") by (intros ->; discriminate He).
      destruct H as [H | H]; rewrite H; cbn [fst snd logged item];
        (split; [reflexivity |]; split; [exact Hraw |]);
        intros _ [E | E]; congruence.
Qed.

Lemma nothing_to_load_witness :
  fst (loadState (disk_of saved_v1 (Some "{broken") None)) = [].
Proof.
  refine (proj1 (nothing_to_load (disk_of saved_v1 (Some "{broken") None) _)).
  right; right; right. exists "{broken". split; [reflexivity | left; reflexivity].
Defined.

(** X25. A stored object of an older version is migrated and written back.
    When the stored text parses to an object whose [version] is not "v2",
    [loadState] returns that object with [version] set to "v2",
    [cachedCurrencies] kept if truthy and null otherwise, [useConversion]
    kept if truthy and false otherwise, and every other property as it
    was; and it saves the result. *)
Theorem older_state_is_migrated d raw old :
  denied d = None ->
  item d = Some raw ->
  raw <> "" ->
  JSON_parse d raw = Some (JObj old) ->
  lookup "version" old <> Some (JStr "v2") ->
  let m := fst (loadState d) in
  snd (loadState d) = saveState m d
  /\ lookup "version" m = Some (JStr "v2")
  /\ lookup "cachedCurrencies" m
     = Some (match lookup "cachedCurrencies" old with
             | Some v => if truthy_json v then v else JNull
             | None => JNull
             end)
  /\ lookup "useConversion" m
     = Some (match lookup "useConversion" old with
             | Some v => if truthy_json v then v else JBool false
             | None => JBool false
             end)
  /\ (forall k, k <> "version" -> k <> "cachedCurrencies" ->
                k <> "useConversion" -> lookup k m = lookup k old).
Proof.
  intros Hopen Hitem Hraw Hparse Hold m. subst m.
  assert (Hv : is_v2 (lookup "version" old) = false).
  { destruct (is_v2 (lookup "version" old)) eqn:E; [| reflexivity].
    apply is_v2_iff in E. contradiction. }
  unfold loadState.
  rewrite Hopen, Hitem, (not_empty_text _ Hraw), Hparse.
  cbn [field]. rewrite Hv. cbn [fst snd].
  split; [reflexivity |]. unfold migrated, field_or. cbn [field own_props].
  split; [| split; [| split]].
  - rewrite !lookup_put_other by discriminate. apply lookup_put_same.
  - rewrite lookup_put_other by discriminate. rewrite lookup_put_same.
    reflexivity.
  - rewrite lookup_put_same. reflexivity.
  - intros k H1 H2 H3. rewrite !lookup_put_other by assumption. reflexivity.
Qed.

Lemma older_state_is_migrated_witness :
  lookup "version" (fst (loadState (disk_of saved_v1 (Some "saved") None)))
  = Some (JStr "v2")
  /\ lookup "balance" (fst (loadState (disk_of saved_v1 (Some "saved") None)))
     = Some (JStr "1,200").
Proof.
  pose proof (older_state_is_migrated (disk_of saved_v1 (Some "saved") None)
                "saved" saved_v1 eq_refl eq_refl ltac:(discriminate) eq_refl
                ltac:(discriminate)) as H.
  cbv zeta in H. destruct H as (_ & Hv & _ & _ & Hk).
  split; [exact Hv |].
  rewrite Hk; [reflexivity | discriminate | discriminate | discriminate].
Defined.

(** X26. After [clearState] there is nothing to load: with storage open it
    reports true and the next [loadState] returns the empty object without
    a warning, whatever was stored; with storage blocked it reports false,
    logs one warning and leaves the item. *)
Theorem cleared_state_is_empty d :
  (denied d = None ->
   fst (clearState d) = true
   /\ loadState (snd (clearState d)) = ([], snd (clearState d))
   /\ disk_log (snd (clearState d)) = disk_log d)
  /\ (forall e, denied d = Some e ->
      clearState d = (false, logged d (Warned "Failed to clear state:" e))).
Proof.
  unfold clearState. split.
  - intros Hopen. rewrite Hopen. cbn [fst snd].
    unfold loadState. cbn [denied item with_item]. rewrite Hopen.
    repeat split.
  - intros e He. rewrite He. reflexivity.
Qed.

Lemma cleared_state_is_empty_witness :
  loadState (snd (clearState (disk_of saved_v1 (Some "saved") None)))
  = ([], snd (clearState (disk_of saved_v1 (Some "saved") None))).
Proof.
  refine (proj1 (proj2 (proj1 (cleared_state_is_empty
                                 (disk_of saved_v1 (Some "saved") None)) _))).
  reflexivity.
Defined.

(** ** The result card and the animation *)

(** X27. A budget is shown only for a result.  Whatever value the animation
    holds, when the card shows a budget the derived calculations have
    produced a [perDay] without an error, and the days shown are their
    [daysLeft], a number above 0; so a value left over from an earlier
    animation is never shown once the balance or the payday is cleared or
    the payday has passed. *)
Theorem budget_card_has_a_result env state a v c days total :
  result_card a state (compute env state) = Budget v c days total ->
  error (compute env state) = ""
  /\ perDay (compute env state) <> None
  /\ days = daysLeft (compute env state)
  /\ JS.gtb days (JS.of_Z 0) = true
  /\ c = displayCurrency state.
Proof.
  intros H. unfold result_card in H.
  destruct (compute_cases env state) as [E | [E | (Hd & Hl & He & amount & Hp)]].
  - rewrite E in H. cbn in H. destruct a; [| discriminate H].
    rewrite andb_false_r in H. discriminate H.
  - rewrite E in H. cbn in H. discriminate H.
  - rewrite He, Hp in *. cbn [JS.is_empty negb] in H.
    assert (Hcard : forall x,
              (if JS.truthy x && JS.truthy (daysLeft (compute env state))
               then Budget x (displayCurrency state)
                      (daysLeft (compute env state))
                      match convertedDisplay (compute env state) with
                      | Some c0 =>
                          if JS.is_empty c0 then None
                          else Some (c0, rateLine (compute env state))
                      | None => None
                      end
               else Placeholder) = Budget v c days total ->
              days = daysLeft (compute env state)
              /\ JS.gtb days (JS.of_Z 0) = true
              /\ c = displayCurrency state).
    { intros x Hx.
      destruct (JS.truthy x && JS.truthy (daysLeft (compute env state))) eqn:T;
        [| discriminate Hx].
      apply andb_prop in T. destruct T as [_ T].
      inversion Hx; subst. split; [reflexivity |]. split; [| reflexivity].
      rewrite Hl in *.
      destruct (days_until env (paydate state)) as [| | | q];
        try discriminate; try reflexivity.
      unfold JS.leb in Hd. unfold JS.gtb, JS.ltb, JS.of_Z.
      assert (Hq : ~ (q <= inject_Z 0)%Q).
      { intros Hle. apply Qle_bool_iff in Hle. unfold JS.of_Z in Hd.
        congruence. }
      destruct (Qcompare (inject_Z 0) q) eqn:C; [| reflexivity |].
      - apply Qeq_alt in C. exfalso. apply Hq. rewrite <- C. apply Qle_refl.
      - apply Qgt_alt in C. exfalso. apply Hq. now apply Qlt_le_weak. }
    split; [reflexivity |]. split; [discriminate |].
    destruct a as [x |]; apply (Hcard _ H).
Qed.


Lemma budget_card_has_a_result_witness :
  error (compute noon eur_3000) = ""
  /\ perDay (compute noon eur_3000) <> None.
Proof.
  pose proof (budget_card_has_a_result noon eur_3000 None (JS.of_Z 300) "EUR"
                (JS.of_Z 10) None ltac:(vm_compute; reflexivity)) as H.
  destruct H as (He & Hp & _). split; [exact He | exact Hp].
Defined.

(** A rational between two whole numbers of at most 53 bits rounds to a
    number between them. *)
Lemma binary64_between (lo hi : Z) (q : Q) :
  Z.abs lo <= 2 ^ 53 -> Z.abs hi <= 2 ^ 53 ->
  (inject_Z lo <= q)%Q -> (q <= inject_Z hi)%Q ->
  exists r, JS.binary64 q = JS.Fin r
            /\ (inject_Z lo <= r)%Q /\ (r <= inject_Z hi)%Q.
Proof.
  intros Hlo Hhi L H.
  pose proof (binary64_mono _ _ L) as A. pose proof (binary64_mono _ _ H) as B.
  rewrite (binary64_Z lo Hlo) in A. rewrite (binary64_Z hi Hhi) in B.
  unfold JS.of_Z in A, B.
  destruct (JS.binary64 q) as [| | | r]; try discriminate.
  exists r. cbn [JS.leb] in A, B. apply Qle_bool_iff in A, B. auto.
Qed.

(** A binary64 value is kept in lowest terms. *)
Lemma binary64_reduced q r : JS.binary64 q = JS.Fin r -> Qred r = r.
Proof.
  unfold JS.binary64. destruct (Qnum q =? 0).
  - intros H. apply Fin_eq in H. subst r. reflexivity.
  - cbv zeta. destruct (Qle_bool _ _).
    + unfold JS.inf_of_sign. destruct (_ <? 0); discriminate.
    + intros H. apply Fin_eq in H. subst r. apply Qred_complete, Qred_correct.
Qed.

Lemma binary64_one q r :
  JS.binary64 q = JS.Fin r -> (r == 1)%Q -> JS.Fin r = JS.of_Z 1.
Proof.
  intros H E. rewrite <- (binary64_reduced q r H).
  rewrite (Qred_complete _ _ E). reflexivity.
Qed.

(** The time that has passed, as the animation reads it. *)
Lemma elapsed_cases (startTime now : Z) :
  let elapsed := JS.sub (JS.of_Z now) (JS.of_Z startTime) in
  elapsed = JS.binary64 (inject_Z (now - startTime))
  /\ (startTime <= now -> JS.leb (JS.of_Z 0) elapsed = true)
  /\ (now < startTime + 1000 -> JS.leb elapsed (JS.of_Z 999) = true)
  /\ (startTime + 1000 <= now -> JS.leb (JS.of_Z 1000) elapsed = true).
Proof.
  intros elapsed.
  assert (E : elapsed = JS.binary64 (inject_Z (now - startTime))).
  { subst elapsed. unfold JS.of_Z. cbn [JS.sub]. apply binary64_comp.
    unfold Z.sub. rewrite inject_Z_plus, inject_Z_opp. reflexivity. }
  split; [exact E |]. rewrite E. repeat split; intros H.
  - rewrite <- (binary64_Z 0) by (cbn; lia). apply binary64_mono.
    rewrite <- Zle_Qle. lia.
  - rewrite <- (binary64_Z 999) by (cbn; lia). apply binary64_mono.
    rewrite <- Zle_Qle. lia.
  - rewrite <- (binary64_Z 1000) by (cbn; lia). apply binary64_mono.
    rewrite <- Zle_Qle. lia.
Qed.

Lemma ratio_of_999 :
  exists c, JS.binary64 (inject_Z 999 / inject_Z 1000) = JS.Fin c /\ (c < 1)%Q.
Proof. eexists. split; [vm_compute; reflexivity | reflexivity]. Qed.

(** The progress of the animation: from 0 to 1 while the clock does not run
    backwards, below 1 within the second, and 1 from then on. *)
Lemma progress_at_cases startTime now :
  (startTime <= now ->
   exists m, progress_at startTime now = JS.Fin m /\ (0 <= m)%Q /\ (m <= 1)%Q)
  /\ (now < startTime + 1000 ->
      JS.ltb (progress_at startTime now) (JS.of_Z 1) = true)
  /\ (startTime + 1000 <= now -> progress_at startTime now = JS.of_Z 1).
Proof.
  unfold progress_at. cbv zeta.
  destruct (elapsed_cases startTime now) as (E & H0 & H999 & H1000).
  cbv zeta in E, H0, H999, H1000.
  set (elapsed := JS.sub (JS.of_Z now) (JS.of_Z startTime)) in *.
  assert (Hn : elapsed <> JS.NaN) by (rewrite E; apply binary64_number).
  clearbody elapsed. unfold duration.
  split; [| split]; intros H.
  - specialize (H0 H). destruct elapsed as [| | | r]; try discriminate.
    + exists 1%Q. split; [reflexivity |]. split; discriminate.
    + cbn [JS.leb] in H0. apply Qle_bool_iff in H0.
      unfold JS.div, JS.of_Z. change (Qnum (inject_Z 1000) =? 0) with false.
      cbv iota.
      assert (Hq : (0 <= r / inject_Z 1000)%Q).
      { apply Qle_shift_div_l; [reflexivity |]. change (inject_Z 0) with 0%Q in H0. lra. }
      destruct (binary64_nonneg_cases _ Hq) as [-> | (c & -> & Hc)].
      * exists 1%Q. split; [reflexivity |]. split; discriminate.
      * unfold Math_min, JS.ltb.
        destruct (Qcompare (inject_Z 1) c) eqn:C.
        -- exists c. apply Qeq_alt in C. split; [reflexivity |].
           split; [exact Hc |]. rewrite <- C. apply Qle_refl.
        -- exists (inject_Z 1). split; [reflexivity |]. split; discriminate.
        -- exists c. apply Qgt_alt in C. split; [reflexivity |].
           split; [exact Hc |]. apply Qlt_le_weak. exact C.
  - specialize (H999 H). destruct elapsed as [| | | r]; try discriminate.
    + reflexivity.
    + cbn [JS.leb] in H999. apply Qle_bool_iff in H999.
      unfold JS.div, JS.of_Z. change (Qnum (inject_Z 1000) =? 0) with false.
      cbv iota.
      destruct ratio_of_999 as (c0 & Hc0 & Hlt).
      assert (Hq : (r / inject_Z 1000 <= inject_Z 999 / inject_Z 1000)%Q).
      { apply Qmult_le_compat_r; [exact H999 | discriminate]. }
      pose proof (binary64_mono _ _ Hq) as Hm. rewrite Hc0 in Hm.
      pose proof (binary64_number (r / inject_Z 1000)) as Hnn.
      destruct (JS.binary64 (r / inject_Z 1000)) as [| | | c];
        try discriminate; [reflexivity |].
      cbn [JS.leb] in Hm. apply Qle_bool_iff in Hm.
      assert (Hc : (c < 1)%Q) by lra.
      unfold Math_min, JS.ltb.
      assert (C : Qcompare (inject_Z 1) c = Gt).
      { apply Qgt_alt. exact Hc. }
      rewrite C, (proj1 (Qlt_alt c (inject_Z 1)) Hc). reflexivity.
  - specialize (H1000 H). destruct elapsed as [| | | r]; try discriminate.
    + reflexivity.
    + cbn [JS.leb] in H1000. apply Qle_bool_iff in H1000.
      unfold JS.div, JS.of_Z. change (Qnum (inject_Z 1000) =? 0) with false.
      cbv iota.
      assert (Hq : (inject_Z 1 <= r / inject_Z 1000)%Q).
      { apply Qle_shift_div_l; [reflexivity |].
        change (inject_Z 1 * inject_Z 1000)%Q with (inject_Z 1000). exact H1000. }
      pose proof (binary64_mono _ _ Hq) as Hm.
      rewrite (binary64_Z 1) in Hm by (cbn; lia).
      destruct (JS.binary64 (r / inject_Z 1000)) as [| | | c] eqn:Ec;
        try discriminate; [reflexivity |].
      cbn [JS.leb JS.of_Z] in Hm. apply Qle_bool_iff in Hm.
      unfold Math_min, JS.ltb.
      destruct (Qcompare (inject_Z 1) c) eqn:C; try reflexivity.
      * apply Qeq_alt in C. apply (binary64_one _ _ Ec). symmetry. exact C.
      * apply Qgt_alt in C. exfalso. apply (Qlt_not_le _ _ C). exact Hm.
Qed.

Section AnimationProperties.

Variable Math_pow : JS.number -> JS.number -> JS.number.
Hypothesis pow_ok : cube_in_unit Math_pow.

(** The eased progress stays within 0 and 1, and ends at 1. *)
Lemma easeProgress_unit (m : Q) :
  (0 <= m)%Q -> (m <= 1)%Q ->
  exists t, easeProgress Math_pow (JS.Fin m) = JS.Fin t
            /\ (0 <= t)%Q /\ (t <= 1)%Q.
Proof.
  intros H0 H1. unfold easeProgress, JS.of_Z. cbn [JS.sub].
  destruct (binary64_between 0 1 (inject_Z 1 - m))
    as (x & -> & Hx0 & Hx1); try (cbn; lia).
  { change (inject_Z 0) with 0%Q. change (inject_Z 1) with 1%Q. lra. }
  { change (inject_Z 1) with 1%Q. lra. }
  destruct pow_ok as [_ Hpow].
  destruct (Hpow x Hx0 Hx1) as (c & Hc & Hc0 & Hc1).
  unfold JS.of_Z in Hc. rewrite Hc.
  destruct (binary64_between 0 1 (inject_Z 1 - c))
    as (t & -> & Ht0 & Ht1); try (cbn; lia).
  { change (inject_Z 0) with 0%Q. change (inject_Z 1) with 1%Q. lra. }
  { change (inject_Z 1) with 1%Q. lra. }
  exists t. auto.
Qed.

Lemma easeProgress_end : easeProgress Math_pow (JS.of_Z 1) = JS.of_Z 1.
Proof.
  unfold easeProgress.
  change (JS.sub (JS.of_Z 1) (JS.of_Z 1)) with (JS.of_Z 0).
  rewrite (proj1 pow_ok). reflexivity.
Qed.

(** A frame between two whole numbers of at most 52 bits is a whole
    number between them. *)
Lemma currentValue_between (s e : Z) (m : Q) :
  Z.abs s <= 2 ^ 52 -> Z.abs e <= 2 ^ 52 ->
  (0 <= m)%Q -> (m <= 1)%Q ->
  exists z, currentValue Math_pow (JS.of_Z s) (JS.of_Z e) (JS.Fin m)
            = JS.of_Z z
            /\ Z.min s e <= z <= Z.max s e.
Proof.
  intros Hs He H0 H1. unfold currentValue.
  destruct (easeProgress_unit m H0 H1) as (t & -> & Ht0 & Ht1).
  change (2 ^ 52) with 4503599627370496 in Hs, He.
  rewrite (sub_of_Z e s) by (change (2 ^ 53) with 9007199254740992; lia).
  unfold JS.of_Z at 2. cbn [JS.mul].
  assert (Hprod : exists P,
             JS.binary64 (inject_Z (e - s) * t) = JS.Fin P
             /\ (inject_Z (Z.min 0 (e - s)) <= P)%Q
             /\ (P <= inject_Z (Z.max 0 (e - s)))%Q).
  { apply binary64_between;
      try (change (2 ^ 53) with 9007199254740992; lia).
    - destruct (Z.le_ge_cases 0 (e - s)) as [Hd | Hd].
      + rewrite Z.min_l by lia. rewrite Zle_Qle in Hd.
        change (inject_Z 0) with 0%Q in *. nra.
      + rewrite Z.min_r by lia. rewrite Zle_Qle in Hd.
        change (inject_Z 0) with 0%Q in *. nra.
    - destruct (Z.le_ge_cases 0 (e - s)) as [Hd | Hd].
      + rewrite Z.max_r by lia. rewrite Zle_Qle in Hd.
        change (inject_Z 0) with 0%Q in *. nra.
      + rewrite Z.max_l by lia. rewrite Zle_Qle in Hd.
        change (inject_Z 0) with 0%Q in *. nra. }
  destruct Hprod as (P & -> & HP0 & HP1).
  unfold JS.of_Z at 1. cbn [add].
  destruct (binary64_between (Z.min s e) (Z.max s e) (inject_Z s + P))
    as (v & -> & Hv0 & Hv1);
    try (change (2 ^ 53) with 9007199254740992; lia).
  { replace (Z.min s e) with (s + Z.min 0 (e - s)) by lia.
    rewrite inject_Z_plus. lra. }
  { replace (Z.max s e) with (s + Z.max 0 (e - s)) by lia.
    rewrite inject_Z_plus. lra. }
  cbn [JS.Math_floor]. exists (Qfloor v). split; [reflexivity |].
  apply Qfloor_resp_le in Hv0, Hv1. rewrite Qfloor_Z in Hv0, Hv1. lia.
Qed.

(** The last frame is the new value. *)
Lemma currentValue_end (s e : Z) :
  Z.abs s <= 2 ^ 52 -> Z.abs e <= 2 ^ 52 ->
  currentValue Math_pow (JS.of_Z s) (JS.of_Z e) (JS.of_Z 1) = JS.of_Z e.
Proof.
  intros Hs He. unfold currentValue. rewrite easeProgress_end.
  change (2 ^ 52) with 4503599627370496 in Hs, He.
  rewrite (sub_of_Z e s) by (change (2 ^ 53) with 9007199254740992; lia).
  unfold JS.of_Z at 2 3. cbn [JS.mul].
  assert (E1 : JS.binary64 (inject_Z (e - s) * inject_Z 1) = JS.of_Z (e - s)).
  { rewrite <- (binary64_Z (e - s))
      by (change (2 ^ 53) with 9007199254740992; lia).
    apply binary64_comp. change (inject_Z 1) with 1%Q. ring. }
  rewrite E1. unfold JS.of_Z at 1 2. cbn [add].
  assert (E2 : JS.binary64 (inject_Z s + inject_Z (e - s)) = JS.of_Z e).
  { rewrite <- (binary64_Z e)
      by (change (2 ^ 53) with 9007199254740992; lia).
    apply binary64_comp. rewrite <- inject_Z_plus. f_equiv. lia. }
  rewrite E2. unfold JS.of_Z at 1. cbn [JS.Math_floor].
  rewrite Qfloor_Z. reflexivity.
Qed.

Lemma animate_between (s e : Z) startTime ticks u :
  Z.abs s <= 2 ^ 52 -> Z.abs e <= 2 ^ 52 ->
  Forall (fun t => startTime <= t) ticks ->
  exists shown,
    frames (animate Math_pow (JS.of_Z s) (JS.of_Z e) startTime ticks u)
    = (shown ++ frames u)%list
    /\ Forall (fun f => f = None
                        \/ exists z, f = Some (JS.of_Z z)
                                     /\ Z.min s e <= z <= Z.max s e) shown
    /\ (forall f, In f (tl shown) -> f <> None).
Proof.
  intros Hs He Hticks. revert u.
  induction Hticks as [| now later Hnow _ IH]; intros u.
  - exists []. split; [reflexivity |]. split; [constructor |].
    intros f Hin. inversion Hin.
  - cbn [animate].
    destruct (progress_at_cases startTime now) as (Hunit & _ & _).
    destruct (Hunit Hnow) as (m & Hm & Hm0 & Hm1).
    rewrite Hm.
    destruct (currentValue_between s e m Hs He Hm0 Hm1) as (z & -> & Hz).
    destruct (JS.ltb (JS.Fin m) (JS.of_Z 1)).
    + destruct (IH (setAnimatedValue u (Some (JS.of_Z z))))
        as (shown & Hsh & Hall & Htl).
      exists (shown ++ [Some (JS.of_Z z)])%list. split; [| split].
      * rewrite Hsh. cbn [frames setAnimatedValue].
        rewrite <- app_assoc. reflexivity.
      * apply Forall_app. split; [exact Hall |].
        constructor; [| constructor]. right. exists z.
        split; [reflexivity | exact Hz].
      * intros f Hin. destruct shown as [| f0 r].
        -- inversion Hin.
        -- cbn [tl app] in Hin. apply in_app_or in Hin.
           destruct Hin as [Hin | [<- | []]]; [| discriminate].
           apply Htl. exact Hin.
    + exists [None; Some (JS.of_Z z)]. split; [reflexivity |]. split.
      * constructor; [now left |]. constructor; [| constructor].
        right. exists z. split; [reflexivity | exact Hz].
      * intros f [<- | []]. discriminate.
Qed.

Lemma animate_settles (s e : Z) startTime ticks u :
  Z.abs s <= 2 ^ 52 -> Z.abs e <= 2 ^ 52 ->
  Exists (fun t => startTime + 1000 <= t) ticks ->
  animatedValue (animate Math_pow (JS.of_Z s) (JS.of_Z e) startTime ticks u)
  = None
  /\ screen_state (animate Math_pow (JS.of_Z s) (JS.of_Z e) startTime ticks u)
     = set_lastPerDay (screen_state u) (JS.of_Z e)
  /\ exists before,
       frames (animate Math_pow (JS.of_Z s) (JS.of_Z e) startTime ticks u)
       = None :: Some (JS.of_Z e) :: before.
Proof.
  intros Hs He. revert u. induction ticks as [| now later IH]; intros u Hex.
  - inversion Hex.
  - cbn [animate].
    destruct (progress_at_cases startTime now) as (_ & Hlt & Hge).
    destruct (Z.lt_ge_cases now (startTime + 1000)) as [Hnow | Hnow].
    + rewrite (Hlt Hnow).
      assert (Hex' : Exists (fun t => startTime + 1000 <= t) later).
      { inversion Hex; subst; [lia | assumption]. }
      destruct (IH (setAnimatedValue u
                      (Some (currentValue Math_pow (JS.of_Z s) (JS.of_Z e)
                               (progress_at startTime now)))) Hex')
        as (Ha & Hst & before & Hf).
      split; [exact Ha |]. split; [exact Hst |]. exists before. exact Hf.
    + rewrite (Hge Hnow), (currentValue_end s e Hs He).
      change (JS.ltb (JS.of_Z 1) (JS.of_Z 1)) with false. cbv iota.
      split; [reflexivity |]. split; [reflexivity |].
      exists (frames u). reflexivity.
Qed.

Lemma animate_running (s e : JS.number) startTime ticks u :
  Forall (fun t => t < startTime + 1000) ticks ->
  screen_state (animate Math_pow s e startTime ticks u) = screen_state u
  /\ (animatedValue u <> None \/ ticks <> [] ->
      animatedValue (animate Math_pow s e startTime ticks u) <> None).
Proof.
  intros Hticks. revert u.
  induction Hticks as [| now later Hnow _ IH]; intros u.
  - split; [reflexivity |]. intros [H | H]; [exact H | congruence].
  - cbn [animate].
    destruct (progress_at_cases startTime now) as (_ & Hlt & _).
    rewrite (Hlt Hnow).
    destruct (IH (setAnimatedValue u
                    (Some (currentValue Math_pow s e
                             (progress_at startTime now))))) as [Hs Ha].
    split; [exact Hs |]. intros _. apply Ha. left. discriminate.
Qed.

End AnimationProperties.

(** The sample engine cubes as the animation needs it. *)
Lemma pow_rounded_cube : cube_in_unit pow_rounded.
Proof.
  split; [vm_compute; reflexivity |].
  intros x H0 H1. unfold pow_rounded, JS.of_Z.
  change (Qeq_bool (inject_Z 3) (inject_Z (Qfloor (inject_Z 3)))
          && (0 <=? Qfloor (inject_Z 3)) && (Qfloor (inject_Z 3) <=? 16))
    with true. cbv iota.
  change (Qfloor (inject_Z 3)) with 3.
  assert (E : (Qpower x 3 == x * x * x)%Q) by (simpl; ring).
  rewrite (binary64_comp _ _ E).
  apply (binary64_between 0 1); try (cbn; lia);
    change (inject_Z 0) with 0%Q; change (inject_Z 1) with 1%Q.
  - assert (0 <= x * x)%Q by nra. nra.
  - assert (0 <= x * x)%Q by nra. assert (x * x <= 1)%Q by nra. nra.
Qed.

(** Beyond 52 bits the difference of the two values is itself rounded:
    counting from 9007199254740996 to 1 ends on the frame 0. *)
Example animation_of_a_large_value :
  frames (animation_effect pow_rounded (Some (JS.of_Z 1)) march_1st
            [march_1st + 1000]
            (screen_of (set_lastPerDay eur_3000 (JS.of_Z 9007199254740996))))
  = [None; Some (JS.of_Z 0)].
Proof. vm_compute. reflexivity. Qed.

(** X28. The animated number stays between the old and the new value.
    When [lastPerDay] and the new [perDay] are finite and differ by more
    than 0.01, their floors have at most 52 bits, the engine's [Math.pow]
    cubes 0 to 0 and the numbers from 0 to 1 to such numbers, and the clock
    does not run backwards, every number the effect shows is a whole number
    between the floor of the old value and the floor of the new one,
    whichever is larger; the cell is set back to null at most as the last
    step. *)
Theorem animation_stays_between Math_pow l p startTime ticks u :
  cube_in_unit Math_pow ->
  lastPerDay (screen_state u) = Some (JS.Fin l) ->
  changed (JS.Fin l) (JS.Fin p) = true ->
  Z.abs (Qfloor l) <= 2 ^ 52 ->
  Z.abs (Qfloor p) <= 2 ^ 52 ->
  Forall (fun t => startTime <= t) ticks ->
  exists shown,
    frames (animation_effect Math_pow (Some (JS.Fin p)) startTime ticks u)
    = (shown ++ frames u)%list
    /\ Forall (fun f => f = None
                        \/ exists z, f = Some (JS.of_Z z)
                                     /\ Z.min (Qfloor l) (Qfloor p) <= z
                                        <= Z.max (Qfloor l) (Qfloor p)) shown
    /\ (forall f, In f (tl shown) -> f <> None).
Proof.
  intros Hpow Hlast Hch Hl Hp Hticks. unfold animation_effect.
  rewrite Hlast, Hch. cbn [JS.Math_floor].
  apply animate_between; assumption.
Qed.

Lemma animation_stays_between_witness :
  exists shown,
    frames (animation_effect pow_rounded (Some (JS.of_Z 242)) march_1st
              [march_1st; march_1st + 500; march_1st + 1000]
              (screen_of (set_lastPerDay eur_3000 (JS.of_Z 300))))
    = (shown ++ [])%list
    /\ Forall (fun f => f = None
                        \/ exists z, f = Some (JS.of_Z z)
                                     /\ Z.min 300 242 <= z <= Z.max 300 242)
         shown.
Proof.
  destruct (animation_stays_between pow_rounded (inject_Z 300) (inject_Z 242)
              march_1st [march_1st; march_1st + 500; march_1st + 1000]
              (screen_of (set_lastPerDay eur_3000 (JS.of_Z 300)))
              pow_rounded_cube eq_refl eq_refl
              ltac:(vm_compute; discriminate) ltac:(vm_compute; discriminate)
              ltac:(repeat constructor; unfold march_1st; lia))
    as (shown & Hs & Hall & _).
  exists shown. split; [exact Hs | exact Hall].
Defined.

(** X29. The animation ends on the new value.  Under the same conditions
    on the two values and on [Math.pow], once a frame comes a second or
    more after the start, the last number shown is the floor of the new
    [perDay], the cell is back to null so that the card shows [perDay]
    itself, and [lastPerDay] holds that floor; frames after that one are
    not drawn.  While every frame comes within the second, the cell holds a
    number and the state is as it was. *)
Theorem animation_settles Math_pow l p startTime ticks u :
  cube_in_unit Math_pow ->
  lastPerDay (screen_state u) = Some (JS.Fin l) ->
  changed (JS.Fin l) (JS.Fin p) = true ->
  Z.abs (Qfloor l) <= 2 ^ 52 ->
  Z.abs (Qfloor p) <= 2 ^ 52 ->
  let u' := animation_effect Math_pow (Some (JS.Fin p)) startTime ticks u in
  (Exists (fun t => startTime + 1000 <= t) ticks ->
   animatedValue u' = None
   /\ screen_state u' = set_lastPerDay (screen_state u) (JS.of_Z (Qfloor p))
   /\ exists before, frames u' = None :: Some (JS.of_Z (Qfloor p)) :: before)
  /\ (Forall (fun t => t < startTime + 1000) ticks ->
      screen_state u' = screen_state u
      /\ (ticks <> [] -> animatedValue u' <> None)).
Proof.
  intros Hpow Hlast Hch Hl Hp u'. subst u'. unfold animation_effect.
  rewrite Hlast, Hch. cbn [JS.Math_floor]. split.
  - apply animate_settles; assumption.
  - intros Hall.
    destruct (animate_running Math_pow (JS.of_Z (Qfloor l))
                (JS.of_Z (Qfloor p)) startTime ticks u Hall) as [Hs Ha].
    split; [exact Hs |]. intros Hne. apply Ha. right. exact Hne.
Qed.

Lemma animation_settles_witness :
  lastPerDay (screen_state
                (animation_effect pow_rounded (Some (JS.of_Z 242)) march_1st
                   [march_1st; march_1st + 500; march_1st + 1000;
                    march_1st + 1016]
                   (screen_of (set_lastPerDay eur_3000 (JS.of_Z 300)))))
  = Some (JS.of_Z 242).
Proof.
  destruct (animation_settles pow_rounded (inject_Z 300) (inject_Z 242)
              march_1st
              [march_1st; march_1st + 500; march_1st + 1000;
               march_1st + 1016]
              (screen_of (set_lastPerDay eur_3000 (JS.of_Z 300)))
              pow_rounded_cube eq_refl eq_refl
              ltac:(vm_compute; discriminate) ltac:(vm_compute; discriminate))
    as [H _].
  destruct H as (_ & Hs & _).
  - apply Exists_cons_tl, Exists_cons_tl, Exists_cons_hd. lia.
  - exact (f_equal lastPerDay Hs).
Defined.
